(** * Surface layer: grid triangulation, position sampling, colours and picking

    A shallow embedding of [examples/plot/plot-layer/surface-layer.js]
    (class [SurfaceLayer]) and the properties of its attribute generators:
    [encodePickingColor], [decodePickingColor], [calculateIndices],
    [calculatePositions], [calculateColors], [calculatePickingColors],
    [getPickingInfo], [initializeState] and [updateState].  The WebGL side
    of the class ([getModel], [draw]) is left out.

    Modelling conventions.
    - A JavaScript number is a [number]: an exact rational, [Infinity],
      [-Infinity] or [NaN]; zero carries no sign (a zero divisor is [+0]).
      The operators [-], [*] and [/] of the embedding are exact.  Where a
      statement depends on the rounding of the doubles (the round trip of
      the picking colours, the point that a pick samples), it is about
      the functions of the module [Double]: the same functions with the
      result of every operation rounded to the nearest double ([fl64]).
    - Integer-valued props, loop counters and buffer offsets are in [Z];
      a [for] loop over [0 .. n-1] is a [foldl] over [seqZ 0 n].
    - A typed array is the list of its elements; a store converts the
      value to the element type ([ToUint32], [ToUint8Clamp], [fround]) and
      a store outside the array is dropped, which is what list insertion
      does.  Allocation succeeds for every non-negative length.
    - Caller-supplied functions are pure functions; the calls made to them
      and to the model are recorded, in program order, in a trace of
      [event]s. *)

From Stdlib Require Import ZArith QArith Qcanon Qround Lia Lqa.
From stdpp Require Import base numbers list strings finite.

Open Scope Z_scope.

(** ** JavaScript numbers *)

Inductive number : Type :=
  | Fin (q : Qc)
  | PInf
  | NInf
  | NaN.

Global Instance number_eq_dec : EqDecision number.
Proof. solve_decision. Defined.

Definition of_Z (z : Z) : number := Fin (Qc_of_Z z).

Definition inf_of_sign (c : comparison) : number :=
  match c with
  | Gt => PInf
  | Lt => NInf
  | Eq => NaN
  end.

(** [x - y] *)
Definition num_sub (x y : number) : number :=
  match x, y with
  | NaN, _ | _, NaN => NaN
  | Fin a, Fin b => Fin (a - b)%Qc
  | PInf, PInf | NInf, NInf => NaN
  | PInf, _ | _, NInf => PInf
  | NInf, _ | _, PInf => NInf
  end.

(** [x * y] *)
Definition num_mul (x y : number) : number :=
  match x, y with
  | NaN, _ | _, NaN => NaN
  | Fin a, Fin b => Fin (a * b)%Qc
  | Fin a, PInf | PInf, Fin a => inf_of_sign (a ?= 0)%Qc
  | Fin a, NInf | NInf, Fin a => inf_of_sign (0 ?= a)%Qc
  | PInf, PInf | NInf, NInf => PInf
  | PInf, NInf | NInf, PInf => NInf
  end.

(** [x / y] *)
Definition num_div (x y : number) : number :=
  match x, y with
  | NaN, _ | _, NaN => NaN
  | Fin a, Fin b =>
      if decide (b = 0%Qc) then inf_of_sign (a ?= 0)%Qc else Fin (a / b)%Qc
  | Fin _, (PInf | NInf) => Fin 0%Qc
  | PInf, Fin b => if decide (b < 0)%Qc then NInf else PInf
  | NInf, Fin b => if decide (b < 0)%Qc then PInf else NInf
  | (PInf | NInf), (PInf | NInf) => NaN
  end.

(** Truncation towards zero. *)
Definition Qctrunc (q : Qc) : Z :=
  if decide (0 ≤ q)%Qc then Qfloor q else Qceiling q.

(** [x % y]: the remainder has the sign of the dividend. *)
Definition num_rem (x y : number) : number :=
  match x, y with
  | Fin a, Fin b =>
      if decide (b = 0%Qc) then NaN
      else Fin (a - b * Qc_of_Z (Qctrunc (a / b)))%Qc
  | Fin a, (PInf | NInf) => Fin a
  | _, _ => NaN
  end.

Declare Scope num_scope.
Delimit Scope num_scope with num.
Bind Scope num_scope with number.
Infix "-" := num_sub : num_scope.
Infix "*" := num_mul : num_scope.
Infix "/" := num_div : num_scope.
Infix "%%" := num_rem (at level 40, left associativity) : num_scope.

(** [isFinite(x)], [isNaN(x)], [x === 0] and [!x] on numbers. *)
Definition isFinite (x : number) : bool :=
  match x with Fin _ => true | _ => false end.

Definition isNaN (x : number) : bool :=
  match x with NaN => true | _ => false end.

Definition strict_eq_zero (x : number) : bool :=
  match x with Fin q => bool_decide (q = 0%Qc) | _ => false end.

Definition falsy (x : number) : bool :=
  match x with
  | Fin q => bool_decide (q = 0%Qc)
  | NaN => true
  | _ => false
  end.

(** [Math.min(x, y)] and [Math.max(x, y)]. *)
Definition Math_min (x y : number) : number :=
  match x, y with
  | NaN, _ | _, NaN => NaN
  | NInf, _ | _, NInf => NInf
  | PInf, z | z, PInf => z
  | Fin a, Fin b => if decide (a ≤ b)%Qc then Fin a else Fin b
  end.

Definition Math_max (x y : number) : number :=
  match x, y with
  | NaN, _ | _, NaN => NaN
  | PInf, _ | _, PInf => PInf
  | NInf, z | z, NInf => z
  | Fin a, Fin b => if decide (a ≤ b)%Qc then Fin b else Fin a
  end.

(** [x <= y] *)
Definition num_le (x y : number) : Prop :=
  match x, y with
  | NaN, _ | _, NaN => False
  | NInf, _ | _, PInf => True
  | Fin a, Fin b => (a ≤ b)%Qc
  | _, _ => False
  end.

(** [Math.round(x)]: the nearest integer, a tie going up. *)
Definition Math_round (x : number) : number :=
  match x with
  | Fin q => of_Z (Qfloor (q + Qc_of_Z 1 / Qc_of_Z 2)%Qc)
  | _ => x
  end.

(** ** Typed-array element conversions *)

(** Nearest integer, a tie going to the even neighbour. *)
Definition round_half_even (q : Qc) : Z :=
  let f := Qfloor q in
  match (q - Qc_of_Z f ?= Qc_of_Z 1 / Qc_of_Z 2)%Qc with
  | Lt => f
  | Gt => f + 1
  | Eq => if Z.even f then f else f + 1
  end.

(** Store into a [Uint8ClampedArray]. *)
Definition ToUint8Clamp (x : number) : Z :=
  match x with
  | NaN | NInf => 0
  | PInf => 255
  | Fin q =>
      if decide (q ≤ 0)%Qc then 0
      else if decide (Qc_of_Z 255 ≤ q)%Qc then 255
      else round_half_even q
  end.

(** Store into a [Uint32Array]. *)
Definition ToUint32 (x : number) : Z :=
  match x with
  | Fin q => Qctrunc q mod 2 ^ 32
  | _ => 0
  end.

Definition pow2 (e : Z) : Qc :=
  if decide (0 ≤ e) then Qc_of_Z (2 ^ e) else (/ Qc_of_Z (2 ^ (- e)))%Qc.

Definition Qc_abs (q : Qc) : Qc := if decide (0 ≤ q)%Qc then q else (- q)%Qc.

(** [ilog2 q] is the [e] with [2^e ≤ q < 2^(e+1)], for [0 < q]. *)
Definition ilog2 (q : Qc) : Z :=
  let e := Z.log2 (Qnum q) - Z.log2 (Zpos (Qden q)) in
  if decide (pow2 e ≤ q)%Qc then e else e - 1.

(** Rounding to the binary format of [prec] significant bits whose normal
    exponents are [emin .. emax - 1]: to nearest, ties to even, gradual
    underflow, overflow to an infinity. *)
Definition round_binary (prec emin emax : Z) (q : Qc) : number :=
  if decide (q = 0%Qc) then Fin 0%Qc
  else
    let e := Z.max (ilog2 (Qc_abs q)) emin in
    let ulp := pow2 (e - (prec - 1)) in
    let r := (Qc_of_Z (round_half_even (q / ulp)) * ulp)%Qc in
    if decide (pow2 emax ≤ Qc_abs r)%Qc
    then (if decide (0 < q)%Qc then PInf else NInf)
    else Fin r.

(** Store into a [Float32Array]. *)
Definition fround (x : number) : number :=
  match x with
  | Fin q => round_binary 24 (-126) 128 q
  | _ => x
  end.

(** ** Typed arrays *)

(** A completion is a normal result or a thrown error: the [RangeError] of
    a typed-array constructor given a negative length, the [TypeError] of
    an element read from [undefined]. *)
Inductive error : Type :=
  | RangeError
  | TypeError.

Inductive completion (A : Type) : Type :=
  | Normal (a : A)
  | Throw (e : error).
Arguments Normal {A} a.
Arguments Throw {A} e.

Global Instance error_eq_dec : EqDecision error.
Proof. solve_decision. Defined.

Global Instance completion_eq_dec {A : Type} `{EqDecision A} :
  EqDecision (completion A).
Proof. solve_decision. Defined.

Definition bind {A B : Type} (c : completion A) (k : A → completion B)
  : completion B :=
  match c with
  | Normal a => k a
  | Throw e => Throw e
  end.

Notation "'let*' x := c 'in' k" := (bind c (λ x, k))
  (at level 10, x pattern, c at level 100, k at level 200).

(** [new T(n)]: [n] elements, all zero. *)
Definition new_array {A : Type} (zero : A) (n : Z) : completion (list A) :=
  if decide (n < 0) then Throw RangeError
  else Normal (replicate (Z.to_nat n) zero).

(** [a[i] = v], [v] already converted to the element type. *)
Definition array_set {A : Type} (a : list A) (i : Z) (v : A) : list A :=
  if decide (0 ≤ i) then <[Z.to_nat i := v]> a else a.

(** [a[i]] in a numeric context; a read outside the array gives
    [undefined], which is not a number.  The statements about
    [calculateColors], which passes what it reads on to [getColor], are
    about reads inside the array. *)
Definition array_get (a : list number) (i : Z) : number :=
  if decide (0 ≤ i) then default NaN (a !! Z.to_nat i) else NaN.

(** ** Props and calls *)

(** The argument [{min, max}] of a scale factory. *)
Record extent : Type := { min : number; max : number }.

(** The result of [getColor]: [[r, g, b]] or [[r, g, b, a]]. *)
Definition color : Type := number * number * number * option number.

(** The props that the attribute generators read.  [onUpdate] answers
    nothing: its calls are events of the trace. *)
Record props : Type := {
  uCount : Z;
  vCount : Z;
  getPosition : number → number → number * number * number;
  getColor : number → number → number → color;
  getXScale : extent → number → number;
  getYScale : extent → number → number;
  getZScale : extent → number → number;
}.

(** What the layer calls outside itself. *)
Inductive event : Type :=
  | Call_getPosition (u v : number)
  | Call_getXScale (e : extent)
  | Call_getYScale (e : extent)
  | Call_getZScale (e : extent)
  | Call_xScale (x : number)
  | Call_yScale (y : number)
  | Call_zScale (z : number)
  | Call_onUpdate (xScale yScale zScale : number → number)
  | Call_getColor (x y z : number)
  | Call_setVertexCount (n : Z)
  | Call_update (attribute : string).

(** ** Picking colours *)

Definition encodePickingColor (p : props) (i : number)
  : number * number * number :=
  let uCount := of_Z (uCount p) in
  let vCount := of_Z (vCount p) in
  let xIndex := (i %% uCount)%num in
  let yIndex := ((i - xIndex) / uCount)%num in
  ((xIndex / (uCount - of_Z 1) * of_Z 255)%num,
   (yIndex / (vCount - of_Z 1) * of_Z 255)%num,
   of_Z 1).

(** What [decodePickingColor] returns: the number [-1] or the pair
    [[u, v]]. *)
Inductive picking_index : Type :=
  | Index_number (n : number)
  | Index_uv (u v : number).

Definition decodePickingColor (c : number * number * number)
  : picking_index :=
  let '(r, g, b) := c in
  if strict_eq_zero b then Index_number (of_Z (-1))
  else Index_uv (r / of_Z 255)%num (g / of_Z 255)%num.

Definition calculatePickingColors (p : props) (vertexCount size : Z)
  : completion (list Z) :=
  let* value := new_array 0 (vertexCount * size) in
  Normal
    (foldl
       (λ value i,
          let '(c0, c1, c2) := encodePickingColor p (of_Z i) in
          let value := array_set value (i * 3) (ToUint8Clamp c0) in
          let value := array_set value (i * 3 + 1) (ToUint8Clamp c1) in
          array_set value (i * 3 + 2) (ToUint8Clamp c2))
       value (seqZ 0 vertexCount)).

(** ** Triangle indices *)

(** One quad of [calculateIndices]: six stores through the running
    offset [i]. *)
Definition store_quad (p : props) (s : list Z * Z) (xIndex yIndex : Z)
  : list Z * Z :=
  let '(indices, i) := s in
  let i0 := yIndex * uCount p + xIndex in
  let i1 := i0 + 1 in
  let i2 := i0 + uCount p in
  let i3 := i2 + 1 in
  let indices := array_set indices i (ToUint32 (of_Z i0)) in
  let indices := array_set indices (i + 1) (ToUint32 (of_Z i2)) in
  let indices := array_set indices (i + 2) (ToUint32 (of_Z i1)) in
  let indices := array_set indices (i + 3) (ToUint32 (of_Z i1)) in
  let indices := array_set indices (i + 4) (ToUint32 (of_Z i2)) in
  let indices := array_set indices (i + 5) (ToUint32 (of_Z i3)) in
  (indices, i + 6).

(** The attribute value, and the call [model.setVertexCount(indicesCount)]. *)
Definition calculateIndices (p : props) : completion (list Z * list event) :=
  let indicesCount := (uCount p - 1) * (vCount p - 1) * 2 * 3 in
  let* indices := new_array 0 indicesCount in
  let s :=
    foldl
      (λ s xIndex,
         foldl (λ s yIndex, store_quad p s xIndex yIndex)
           s (seqZ 0 (vCount p - 1)))
      (indices, 0) (seqZ 0 (uCount p - 1)) in
  Normal (s.1, [Call_setVertexCount indicesCount]).

(** ** Positions *)

(** The variables of the first pass of [calculatePositions]. *)
Record sampling : Type := {
  xMin : number;
  xMax : number;
  yMin : number;
  yMax : number;
  zMin : number;
  zMax : number;
  samples : list number;    (* [value] *)
  offset : Z;               (* [i] *)
  sample_calls : list event;
}.

(** The body of the first pass, for the vertex [(uIndex, vIndex)]. *)
Definition sample_vertex (p : props) (s : sampling) (vIndex uIndex : Z)
  : sampling :=
  let u := (of_Z uIndex / (of_Z (uCount p) - of_Z 1))%num in
  let v := (of_Z vIndex / (of_Z (vCount p) - of_Z 1))%num in
  let '(x, y, z) := getPosition p u v in
  let isXFinite := isFinite x in
  let isYFinite := isFinite y in
  let isZFinite := isFinite z in
  let x := if negb isXFinite then of_Z 0 else x in
  let y := if negb isYFinite then of_Z 0 else y in
  let z := if negb isZFinite then of_Z 0 else z in
  let i := offset s in
  let value := array_set (samples s) i (fround x) in
  let value := array_set value (i + 1) (fround z) in
  let value := array_set value (i + 2) (fround y) in
  let value :=
    array_set value (i + 3)
      (fround (if isXFinite && isYFinite && isZFinite
               then of_Z 0 else of_Z 1)) in
  {| xMin := Math_min (xMin s) x;
     xMax := Math_max (xMax s) x;
     yMin := Math_min (yMin s) y;
     yMax := Math_max (yMax s) y;
     zMin := Math_min (zMin s) z;
     zMax := Math_max (zMax s) z;
     samples := value;
     offset := i + 4;
     sample_calls := sample_calls s ++ [Call_getPosition u v] |}.

(** The first pass: sample every vertex, [vIndex] outer, [uIndex] inner. *)
Definition sample_grid (p : props) (value : list number) : sampling :=
  foldl
    (λ s vIndex,
       foldl (λ s uIndex, sample_vertex p s vIndex uIndex)
         s (seqZ 0 (uCount p)))
    {| xMin := PInf; xMax := NInf;
       yMin := PInf; yMax := NInf;
       zMin := PInf; zMax := NInf;
       samples := value; offset := 0; sample_calls := [] |}
    (seqZ 0 (vCount p)).

(** The body of the second pass, for vertex [j]. *)
Definition rescale_vertex (xScale yScale zScale : number → number)
    (s : list number * list event) (j : Z) : list number * list event :=
  let '(value, calls) := s in
  let startIndex := j * 4 in
  if falsy (array_get value (startIndex + 3)) then
    let x := array_get value startIndex in
    let value := array_set value startIndex (fround (xScale x)) in
    let z := array_get value (startIndex + 1) in
    let value := array_set value (startIndex + 1) (fround (zScale z)) in
    let y := array_get value (startIndex + 2) in
    let value := array_set value (startIndex + 2) (fround (yScale y)) in
    (value, calls ++ [Call_xScale x; Call_zScale z; Call_yScale y])
  else (value, calls).

(** The three scale functions of one recomputation. *)
Definition make_scales (p : props) (s : sampling)
  : (number → number) * (number → number) * (number → number) :=
  (getXScale p {| min := xMin s; max := xMax s |},
   getYScale p {| min := yMin s; max := yMax s |},
   getZScale p {| min := zMin s; max := zMax s |}).

(** The attribute value and the calls made, [onUpdate] last. *)
Definition calculatePositions (p : props) (vertexCount size : Z)
  : completion (list number * list event) :=
  let* value := new_array (of_Z 0) (vertexCount * size) in
  let s := sample_grid p value in
  let '(xScale, yScale, zScale) := make_scales p s in
  let calls :=
    sample_calls s
    ++ [Call_getXScale {| min := xMin s; max := xMax s |};
        Call_getYScale {| min := yMin s; max := yMax s |};
        Call_getZScale {| min := zMin s; max := zMax s |}] in
  let '(value, calls) :=
    foldl (rescale_vertex xScale yScale zScale)
      (samples s, calls) (seqZ 0 vertexCount) in
  Normal (value, calls ++ [Call_onUpdate xScale yScale zScale]).

(** ** Colours *)

(** The body of the loop of [calculateColors], for vertex [i]. *)
Definition color_vertex (p : props) (positions : list number)
    (s : list Z * list event) (i : Z) : list Z * list event :=
  let '(value, calls) := s in
  let index := i * 4 in
  let x := array_get positions index in
  let y := array_get positions (index + 2) in
  let z := array_get positions (index + 1) in
  let '(c0, c1, c2, c3) := getColor p x y z in
  let value := array_set value (i * 4) (ToUint8Clamp c0) in
  let value := array_set value (i * 4 + 1) (ToUint8Clamp c1) in
  let value := array_set value (i * 4 + 2) (ToUint8Clamp c2) in
  let alpha :=
    match c3 with
    | Some a => if isNaN a then of_Z 255 else a
    | None => of_Z 255
    end in
  let value := array_set value (i * 4 + 3) (ToUint8Clamp alpha) in
  (value, calls ++ [Call_getColor x y z]).

(** [positions] is the value of the positions attribute. *)
Definition calculateColors (p : props) (vertexCount size : Z)
    (positions : list number) : completion (list Z * list event) :=
  let* value := new_array 0 (vertexCount * size) in
  Normal (foldl (color_vertex p positions) (value, []) (seqZ 0 vertexCount)).

(** ** Attributes and their invalidation *)

Inductive typed_array : Type :=
  | Uint32Array (a : list Z)
  | Float32Array (a : list number)
  | Uint8ClampedArray (a : list Z).

Global Instance typed_array_eq_dec : EqDecision typed_array.
Proof. solve_decision. Defined.

(** The [update] method of an attribute. *)
Inductive updater : Type :=
  | Update_calculateIndices
  | Update_calculatePositions
  | Update_calculateColors
  | Update_calculatePickingColors.

Record attribute : Type := {
  size : Z;
  accessor : list string;
  update : updater;
  needsUpdate : bool;
  value : option typed_array;     (* [None]: no value yet *)
}.

(** [this.state], with the attributes of the attribute manager in the
    order of their declaration, and the calls made so far.  Before the
    first [updateState], [vertexCount] is [undefined], which every use
    below treats as 0. *)
Record layer_state : Type := {
  vertexCount : Z;
  attributes : list (string * attribute);
  trace : list event;
}.

(** Modelled from the spec: [attributeManager.add], of the attribute
    manager of the host framework.  A declared attribute has no value and
    is due for an update. *)
Definition add (declarations : list (string * (Z * list string * updater)))
  : list (string * attribute) :=
  (λ d : string * (Z * list string * updater),
     (d.1, {| size := d.2.1.1; accessor := d.2.1.2; update := d.2.2;
              needsUpdate := true; value := None |}))
    <$> declarations.

Definition initializeState : list (string * attribute) :=
  add [("indices", (1, [], Update_calculateIndices));
       ("positions", (4, ["getPosition"], Update_calculatePositions));
       ("colors", (4, ["getPosition"; "getColor"], Update_calculateColors));
       ("pickingColors", (3, [], Update_calculatePickingColors))]%string.

Definition set_needsUpdate (a : attribute) : attribute :=
  {| size := size a; accessor := accessor a; update := update a;
     needsUpdate := true; value := value a |}.

(** Modelled from the spec: [attributeManager.invalidateAll()] marks every
    attribute dirty. *)
Definition invalidateAll (attributes : list (string * attribute))
  : list (string * attribute) :=
  (λ na : string * attribute, (na.1, set_needsUpdate na.2)) <$> attributes.

(** Modelled from the spec: for a changed accessor, the attribute manager
    marks dirty the attributes whose declared accessors contain it. *)
Definition invalidate (name : string)
    (attributes : list (string * attribute)) : list (string * attribute) :=
  (λ na : string * attribute,
     if bool_decide (name ∈ accessor na.2)
     then (na.1, set_needsUpdate na.2) else na)
    <$> attributes.

Record changeFlags : Type := { propsChanged : bool }.

(** [oldProps] is [None] for the empty object of the first update. *)
Definition updateState (oldProps : option props) (p : props)
    (flags : changeFlags) (st : layer_state) : layer_state :=
  if propsChanged flags then
    if bool_decide ((uCount <$> oldProps) ≠ Some (uCount p)
                    ∨ (vCount <$> oldProps) ≠ Some (vCount p))
    then {| vertexCount := uCount p * vCount p;
            attributes := invalidateAll (attributes st);
            trace := trace st |}
    else st
  else st.

Definition attribute_value (name : string) (st : layer_state)
  : option typed_array :=
  match list_find (λ na : string * attribute, na.1 = name) (attributes st) with
  | Some (_, (_, a)) => value a
  | None => None
  end.

(** The call of the [update] method of attribute [a]. *)
Definition run_update (p : props) (st : layer_state) (a : attribute)
  : completion (typed_array * list event) :=
  match update a with
  | Update_calculateIndices =>
      let* (v, calls) := calculateIndices p in
      Normal (Uint32Array v, calls)
  | Update_calculatePositions =>
      let* (v, calls) := calculatePositions p (vertexCount st) (size a) in
      Normal (Float32Array v, calls)
  | Update_calculateColors =>
      match attribute_value "positions" st with
      | Some (Float32Array positions) =>
          let* (v, calls) :=
            calculateColors p (vertexCount st) (size a) positions in
          Normal (Uint8ClampedArray v, calls)
      | _ => Throw TypeError
      end
  | Update_calculatePickingColors =>
      let* v := calculatePickingColors p (vertexCount st) (size a) in
      Normal (Uint8ClampedArray v, [])
  end.

(** Modelled from the spec: the attribute manager recomputes the dirty
    attributes, whole, in the order of their declaration; [todo] is what
    remains to visit of the attributes, [visited] what was visited. *)
Fixpoint update_attributes (p : props) (vertexCount : Z)
    (visited todo : list (string * attribute)) (trace : list event)
  : completion layer_state :=
  match todo with
  | [] =>
      Normal {| vertexCount := vertexCount; attributes := visited;
                trace := trace |}
  | (name, a) :: todo =>
      if needsUpdate a then
        let st := {| vertexCount := vertexCount;
                     attributes := visited ++ (name, a) :: todo;
                     trace := trace |} in
        let* (v, calls) := run_update p st a in
        let a := {| size := size a; accessor := accessor a;
                    update := update a; needsUpdate := false;
                    value := Some v |} in
        update_attributes p vertexCount (visited ++ [(name, a)]) todo
          (trace ++ Call_update name :: calls)
      else
        update_attributes p vertexCount (visited ++ [(name, a)]) todo trace
  end.

(** Modelled from the spec: one cycle of the host framework for new
    props, of which the accessors [changed] differ from the old ones:
    the attributes that depend on a changed accessor are marked dirty,
    the layer's [updateState] runs, the dirty attributes are recomputed. *)
Definition onInputsChanged (oldProps : option props) (p : props)
    (changed : list string) (st : layer_state) : completion layer_state :=
  let st :=
    {| vertexCount := vertexCount st;
       attributes := foldr invalidate (attributes st) changed;
       trace := trace st |} in
  let st := updateState oldProps p {| propsChanged := true |} st in
  update_attributes p (vertexCount st) [] (attributes st) (trace st).

(** ** Vocabulary of the statements *)

(** *** Grids *)

(** The grid coordinates of the vertex of linear index [i]. *)
Definition uIndex_of (p : props) (i : Z) : Z := i `mod` uCount p.
Definition vIndex_of (p : props) (i : Z) : Z :=
  (i - uIndex_of p i) `div` uCount p.

(** The pairs that two nested loops over [0 .. a-1] (outer) and
    [0 .. b-1] (inner) visit, in order. *)
Definition grid_pairs (a b : Z) : list (Z * Z) :=
  mjoin ((λ x, (x,.) <$> seqZ 0 b) <$> seqZ 0 a).

(** The vertices [(vIndex, uIndex)] in the order of the first pass of
    [calculatePositions]. *)
Definition vertices (p : props) : list (Z * Z) :=
  grid_pairs (vCount p) (uCount p).

(** The normalised coordinates of a grid line and the sample that
    [getPosition] gives for the vertex [(vIndex, uIndex)]. *)
Definition vertex_u (p : props) (uIndex : Z) : number :=
  (of_Z uIndex / (of_Z (uCount p) - of_Z 1))%num.
Definition vertex_v (p : props) (vIndex : Z) : number :=
  (of_Z vIndex / (of_Z (vCount p) - of_Z 1))%num.
Definition sampled (p : props) (vu : Z * Z) : number * number * number :=
  getPosition p (vertex_u p vu.2) (vertex_v p vu.1).

(** *** Picking colours and indices *)

(** The three bytes that [calculatePickingColors] stores for vertex [i]. *)
Definition picking_block (p : props) (i : Z) : list Z :=
  let '(c0, c1, c2) := encodePickingColor p (of_Z i) in
  [ToUint8Clamp c0; ToUint8Clamp c1; ToUint8Clamp c2].

(** The six indices that [calculateIndices] stores for the quad
    [q = (xIndex, yIndex)]. *)
Definition quad_block (p : props) (q : Z * Z) : list Z :=
  let i0 := q.2 * uCount p + q.1 in
  let i1 := i0 + 1 in
  let i2 := i0 + uCount p in
  let i3 := i2 + 1 in
  (λ i, ToUint32 (of_Z i)) <$> [i0; i2; i1; i1; i2; i3].

(** *** Positions *)

(** A non-finite coordinate is replaced by 0. *)
Definition sanitize (x : number) : number :=
  if isFinite x then x else of_Z 0.
Definition sanitized_x (p : props) (vu : Z * Z) : number :=
  sanitize (sampled p vu).1.1.
Definition sanitized_y (p : props) (vu : Z * Z) : number :=
  sanitize (sampled p vu).1.2.
Definition sanitized_z (p : props) (vu : Z * Z) : number :=
  sanitize (sampled p vu).2.

Definition all_finite (w : number * number * number) : bool :=
  isFinite w.1.1 && isFinite w.1.2 && isFinite w.2.

(** The four numbers that the first pass stores for a vertex. *)
Definition sample_block (p : props) (vu : Z * Z) : list number :=
  [fround (sanitized_x p vu);
   fround (sanitized_z p vu);
   fround (sanitized_y p vu);
   fround (if all_finite (sampled p vu) then of_Z 0 else of_Z 1)].

(** The running minimum and maximum of a sequence of values. *)
Definition observed_extent (values : list number) : extent :=
  {| min := foldl Math_min PInf values;
     max := foldl Math_max NInf values |}.

(** [e] is the extent of [values]: it bounds every value, and its bounds
    are among the values. *)
Definition is_extent_of (e : extent) (values : list number) : Prop :=
  (∀ x, x ∈ values → num_le (min e) x ∧ num_le x (max e))
  ∧ (values ≠ [] → min e ∈ values ∧ max e ∈ values).

(** The state of the first pass after it has visited [seen]. *)
Definition sampling_after (p : props) (init : list number)
    (seen : list (Z * Z)) : sampling :=
  {| xMin := min (observed_extent (sanitized_x p <$> seen));
     xMax := max (observed_extent (sanitized_x p <$> seen));
     yMin := min (observed_extent (sanitized_y p <$> seen));
     yMax := max (observed_extent (sanitized_y p <$> seen));
     zMin := min (observed_extent (sanitized_z p <$> seen));
     zMax := max (observed_extent (sanitized_z p <$> seen));
     samples := mjoin (sample_block p <$> seen) ++ drop (length seen * 4) init;
     offset := Z.of_nat (length seen) * 4;
     sample_calls :=
       (λ vu, Call_getPosition (vertex_u p vu.2) (vertex_v p vu.1)) <$> seen |}.

(** The extents that one recomputation observes, and its scales. *)
Definition x_extent (p : props) : extent :=
  observed_extent (sanitized_x p <$> vertices p).
Definition y_extent (p : props) : extent :=
  observed_extent (sanitized_y p <$> vertices p).
Definition z_extent (p : props) : extent :=
  observed_extent (sanitized_z p <$> vertices p).

Definition xScale_of (p : props) : number → number := getXScale p (x_extent p).
Definition yScale_of (p : props) : number → number := getYScale p (y_extent p).
Definition zScale_of (p : props) : number → number := getZScale p (z_extent p).

(** What the second pass makes of the four numbers of a vertex, and the
    calls it makes for them. *)
Definition rescale_block (xScale yScale zScale : number → number)
    (b : list number) : list number :=
  match b with
  | [x; z; y; flag] =>
      if falsy flag
      then [fround (xScale x); fround (zScale z); fround (yScale y); flag]
      else b
  | _ => b
  end.

Definition rescale_calls (b : list number) : list event :=
  match b with
  | [x; z; y; flag] =>
      if falsy flag then [Call_xScale x; Call_zScale z; Call_yScale y] else []
  | _ => []
  end.

(** The blocks of the first pass, the blocks of the positions attribute
    and the calls of the first pass. *)
Definition sampled_blocks (p : props) : list (list number) :=
  sample_block p <$> vertices p.

Definition position_blocks (p : props) : list (list number) :=
  rescale_block (xScale_of p) (yScale_of p) (zScale_of p)
    <$> sampled_blocks p.

Definition sampling_calls (p : props) : list event :=
  (λ vu, Call_getPosition (vertex_u p vu.2) (vertex_v p vu.1))
    <$> vertices p.

(** The calls of a trace that build a scale function, and those that
    apply one. *)
Definition scale_factory_call (e : event) : option event :=
  match e with
  | Call_getXScale _ | Call_getYScale _ | Call_getZScale _ => Some e
  | _ => None
  end.

Definition scale_application (e : event) : option event :=
  match e with
  | Call_xScale _ | Call_yScale _ | Call_zScale _ => Some e
  | _ => None
  end.

(** *** Colours *)

(** The arguments that [calculateColors] reads from the four numbers of
    a vertex, the call it makes and the four bytes it stores. *)
Definition color_args (b : list number) : number * number * number :=
  (default NaN (b !! 0%nat), default NaN (b !! 2%nat),
   default NaN (b !! 1%nat)).

Definition color_call (b : list number) : event :=
  let '(x, y, z) := color_args b in Call_getColor x y z.

Definition color_bytes (c : color) : list Z :=
  let '(c0, c1, c2, c3) := c in
  [ToUint8Clamp c0; ToUint8Clamp c1; ToUint8Clamp c2;
   ToUint8Clamp
     match c3 with
     | Some a => if isNaN a then of_Z 255 else a
     | None => of_Z 255
     end].

Definition color_block (p : props) (b : list number) : list Z :=
  let '(x, y, z) := color_args b in color_bytes (getColor p x y z).

(** *** Attributes *)

(** The attributes [attrs] are those that [declared] declares, whatever
    their flags and values. *)
Definition declared_as (attrs declared : list (string * attribute)) : Prop :=
  Forall2
    (λ na nd : string * attribute,
       na.1 = nd.1 ∧ size na.2 = size nd.2
       ∧ accessor na.2 = accessor nd.2 ∧ update na.2 = update nd.2)
    attrs declared.

(** What a state holds besides its trace: the vertex count and, for each
    attribute, its name, its flag and its value. *)
Definition summary (st : layer_state)
  : Z * list (string * bool * option typed_array) :=
  (vertexCount st,
   (λ na : string * attribute, (na.1, needsUpdate na.2, value na.2))
     <$> attributes st).

(** ** Example layers *)

(** A scale that maps its extent to [0 .. 1]. *)
Definition normalise (e : extent) (x : number) : number :=
  ((x - min e) / (max e - min e))%num.

(** The surface [getPosition(u, v) = [2u + 1, v, u + v]], coloured
    [[x, y, z]]. *)
Definition example_props (uCount vCount : Z) : props :=
  {| uCount := uCount;
     vCount := vCount;
     getPosition := λ u v,
       match u, v with
       | Fin a, Fin b =>
           (Fin (Qc_of_Z 2 * a + Qc_of_Z 1), Fin b, Fin (a + b))
       | _, _ => (NaN, NaN, NaN)
       end;
     getColor := λ x y z, (x, y, z, None);
     getXScale := normalise;
     getYScale := normalise;
     getZScale := normalise |}.

(** A surface with a pole on the line [u = 0]:
    [getPosition(u, v) = [u, v, 1 / u]]. *)
Definition pole_props (uCount vCount : Z) : props :=
  {| uCount := uCount;
     vCount := vCount;
     getPosition := λ u v, (u, v, (of_Z 1 / u)%num);
     getColor := λ x y z, (x, y, z, None);
     getXScale := normalise;
     getYScale := normalise;
     getZScale := normalise |}.

(** [example_props 2 2] with another [getColor]. *)
Definition recolored_props : props :=
  {| uCount := 2;
     vCount := 2;
     getPosition := getPosition (example_props 2 2);
     getColor := λ _ _ _, (of_Z 7, of_Z 8, of_Z 9, Some NaN);
     getXScale := normalise;
     getYScale := normalise;
     getZScale := normalise |}.

(** The state of a layer before its first update, and the state of the
    layer of [example_props 2 2] after it. *)
Definition initial_state : layer_state :=
  {| vertexCount := 0; attributes := initializeState; trace := [] |}.

Definition example_state : layer_state :=
  let half := (of_Z 1 / of_Z 2)%num in
  {| vertexCount := 4;
     attributes :=
       [("indices",
         {| size := 1; accessor := []; update := Update_calculateIndices;
            needsUpdate := false;
            value := Some (Uint32Array [0; 2; 1; 1; 2; 3]) |});
        ("positions",
         {| size := 4; accessor := ["getPosition"];
            update := Update_calculatePositions;
            needsUpdate := false;
            value :=
              Some (Float32Array
                      [of_Z 0; of_Z 0; of_Z 0; of_Z 0;
                       of_Z 1; half; of_Z 0; of_Z 0;
                       of_Z 0; half; of_Z 1; of_Z 0;
                       of_Z 1; of_Z 1; of_Z 1; of_Z 0]) |});
        ("colors",
         {| size := 4; accessor := ["getPosition"; "getColor"];
            update := Update_calculateColors;
            needsUpdate := false;
            value :=
              Some (Uint8ClampedArray
                      [0; 0; 0; 255; 1; 0; 0; 255;
                       0; 1; 0; 255; 1; 1; 1; 255]) |});
        ("pickingColors",
         {| size := 3; accessor := [];
            update := Update_calculatePickingColors;
            needsUpdate := false;
            value :=
              Some (Uint8ClampedArray
                      [0; 0; 1; 255; 0; 1; 0; 255; 1; 255; 255; 1]) |})]%string;
     trace := [] |}.

(** ** Picking information *)

(** The [info] object of a picking event, as far as [getPickingInfo]
    touches it: [index] is what [decodePickingColor] returned for the
    picked colour, [sample] the property that [getPickingInfo] adds. *)
Record picking_info : Type := {
  index : picking_index;
  sample : option (number * number * number);
}.

(** [getPickingInfo({info})]: the returned [info] and the calls made.
    [info] is [None] for a null [info]; destructuring an [index] that is
    a number other than [-1] throws. *)
Definition getPickingInfo (p : props) (info : option picking_info)
  : completion (option picking_info * list event) :=
  match info with
  | None => Normal (None, [])
  | Some i =>
      match index i with
      | Index_number n =>
          if decide (n = of_Z (-1)) then Normal (Some i, [])
          else Throw TypeError
      | Index_uv u v =>
          Normal (Some {| index := index i;
                          sample := Some (getPosition p u v) |},
                  [Call_getPosition u v])
      end
  end.

(** ** Vocabulary of further statements *)

(** The call of [getColor] that [calculateColors] makes for vertex [i] of
    the positions buffer [positions], and the four bytes it stores. *)
Definition vertex_color_call (positions : list number) (i : Z) : event :=
  Call_getColor (array_get positions (i * 4))
    (array_get positions (i * 4 + 2)) (array_get positions (i * 4 + 1)).

Definition vertex_color_bytes (p : props) (positions : list number) (i : Z)
  : list Z :=
  color_bytes
    (getColor p (array_get positions (i * 4))
       (array_get positions (i * 4 + 2)) (array_get positions (i * 4 + 1))).

(** The arguments of a call of [getPosition], and the calls of
    [onUpdate]. *)
Definition sampling_call (e : event) : option (number * number) :=
  match e with
  | Call_getPosition u v => Some (u, v)
  | _ => None
  end.

Definition onUpdate_call (e : event) : option event :=
  match e with
  | Call_onUpdate _ _ _ => Some e
  | _ => None
  end.

(** [0 <= x <= 1] *)
Definition in_unit_interval (x : number) : Prop :=
  num_le (of_Z 0) x ∧ num_le x (of_Z 1).

(** Twice the signed area of the triangle of the vertices [a], [b] and
    [c], in grid coordinates. *)
Definition signed_area2 (p : props) (a b c : Z) : Z :=
  (uIndex_of p b - uIndex_of p a) * (vIndex_of p c - vIndex_of p a)
  - (uIndex_of p c - uIndex_of p a) * (vIndex_of p b - vIndex_of p a).

(** ** Double-precision arithmetic *)

(** The result of an arithmetic operation on doubles is the exact result
    rounded to the nearest double (binary64: 53 significant bits, normal
    exponents [-1022 .. 1023]), a tie going to the even significand. *)
Definition fl64 (x : number) : number :=
  match x with
  | Fin q => round_binary 53 (-1022) 1024 q
  | _ => x
  end.

(** The picking functions with the rounding of each of their operations.
    The remainder [%] of two doubles is exact. *)
Module Double.

Definition sub (x y : number) : number := fl64 (x - y).
Definition mul (x y : number) : number := fl64 (x * y).
Definition div (x y : number) : number := fl64 (x / y).

Definition encodePickingColor (p : props) (i : number)
  : number * number * number :=
  let uCount := of_Z (uCount p) in
  let vCount := of_Z (vCount p) in
  let xIndex := (i %% uCount)%num in
  let yIndex := div (sub i xIndex) uCount in
  (mul (div xIndex (sub uCount (of_Z 1))) (of_Z 255),
   mul (div yIndex (sub vCount (of_Z 1))) (of_Z 255),
   of_Z 1).

Definition decodePickingColor (c : number * number * number)
  : picking_index :=
  let '(r, g, b) := c in
  if strict_eq_zero b then Index_number (of_Z (-1))
  else Index_uv (div r (of_Z 255)) (div g (of_Z 255)).

Definition calculatePickingColors (p : props) (vertexCount size : Z)
  : completion (list Z) :=
  let* value := new_array 0 (vertexCount * size) in
  Normal
    (foldl
       (λ value i,
          let '(c0, c1, c2) := encodePickingColor p (of_Z i) in
          let value := array_set value (i * 3) (ToUint8Clamp c0) in
          let value := array_set value (i * 3 + 1) (ToUint8Clamp c1) in
          array_set value (i * 3 + 2) (ToUint8Clamp c2))
       value (seqZ 0 vertexCount)).

(** The three bytes that [calculatePickingColors] stores for vertex [i]. *)
Definition picking_block (p : props) (i : Z) : list Z :=
  let '(c0, c1, c2) := encodePickingColor p (of_Z i) in
  [ToUint8Clamp c0; ToUint8Clamp c1; ToUint8Clamp c2].

End Double.

(** The finite value that rounding to [prec] bits gives, before the test
    for overflow. *)
Definition nearest (prec emin : Z) (q : Qc) : Qc :=
  if decide (q = 0%Qc) then 0%Qc
  else
    let e := Z.max (ilog2 (Qc_abs q)) emin in
    let ulp := pow2 (e - (prec - 1)) in
    (Qc_of_Z (round_half_even (q / ulp)) * ulp)%Qc.

(** Rounding to the nearest double, and the numbers on which it has a
    relative error of at most [2^-53] and does not overflow: 0 and the
    numbers between [2^-1022] and [2^1023]. *)
Definition nearest64 (q : Qc) : Qc := nearest 53 (-1022) q.

Definition in_double_range (q : Qc) : Prop :=
  q = 0%Qc
  ∨ ((/ Qc_of_Z (2 ^ 1022) ≤ q)%Qc ∧ (q ≤ Qc_of_Z (2 ^ 1023))%Qc).

(** * Properties *)

(** ** Numbers *)

(** Closed facts about numbers are decided by evaluation. *)
Ltac by_compute := apply (bool_decide_unpack _); vm_compute; exact I.

Lemma Qc_of_Z_nonzero (n : Z) : n ≠ 0 → Qc_of_Z n ≠ 0%Qc.
Proof.
  intros Hn H. apply Hn. rewrite <- Z2Qc_inj_0 in H. by apply Z2Qc_inj.
Qed.

Lemma Qfloor_between (q : Q) (z : Z) :
  (inject_Z z <= q)%Q → (q < inject_Z (z + 1))%Q → Qfloor q = z.
Proof.
  intros Hlo Hhi.
  assert (z ≤ Qfloor q) by (rewrite <- (Qfloor_Z z); by apply Qfloor_resp_le).
  assert (Qfloor q < z + 1).
  { rewrite Zlt_Qlt. eapply Qle_lt_trans; [apply Qfloor_le | done]. }
  lia.
Qed.

Lemma Qctrunc_div (a n : Z) :
  0 ≤ a → 0 < n → Qctrunc (Qc_of_Z a / Qc_of_Z n) = a `div` n.
Proof.
  intros Ha Hn. unfold Qctrunc.
  assert (Hq : (this (Qc_of_Z a / Qc_of_Z n)%Qc == inject_Z a / inject_Z n)%Q).
  { unfold Qcdiv, Qcmult, Qcinv; simpl. by rewrite !Qred_correct. }
  destruct (decide _) as [_|Hneg].
  - rewrite Hq. symmetry. apply Zdiv_Qdiv.
  - exfalso. apply Hneg. unfold Qcle. rewrite Hq. simpl.
    apply Qle_shift_div_l.
    + change (inject_Z 0 < inject_Z n)%Q. by rewrite <- Zlt_Qlt.
    + rewrite Qmult_0_l. change (inject_Z 0 <= inject_Z a)%Q.
      by rewrite <- Zle_Qle.
Qed.

Lemma num_sub_of_Z (a b : Z) : (of_Z a - of_Z b)%num = of_Z (a - b).
Proof. unfold of_Z; simpl. by rewrite Z2Qc_inj_sub. Qed.

Lemma num_rem_of_Z (a n : Z) :
  0 ≤ a → 0 < n → (of_Z a %% of_Z n)%num = of_Z (a `mod` n).
Proof.
  intros Ha Hn. unfold of_Z; simpl.
  destruct (decide _) as [H0|_].
  { apply Qc_of_Z_nonzero in H0; [done | lia]. }
  rewrite Qctrunc_div by done.
  by rewrite <- Z2Qc_inj_mul, <- Z2Qc_inj_sub, <- Z.mod_eq by lia.
Qed.

Lemma num_div_of_Z_exact (q n : Z) :
  n ≠ 0 → (of_Z (n * q) / of_Z n)%num = of_Z q.
Proof.
  intros Hn. unfold of_Z; simpl.
  destruct (decide _) as [H0|_].
  { by apply Qc_of_Z_nonzero in H0. }
  f_equal. rewrite Z2Qc_inj_mul. field. by apply Qc_of_Z_nonzero.
Qed.

Lemma num_div_of_Z (a n : Z) :
  n ≠ 0 → (of_Z a / of_Z n)%num = Fin (Qc_of_Z a / Qc_of_Z n).
Proof.
  intros Hn. unfold of_Z; simpl.
  destruct (decide _) as [H0|_]; [by apply Qc_of_Z_nonzero in H0 | done].
Qed.

Lemma Math_round_of_Z (z : Z) : Math_round (of_Z z) = of_Z z.
Proof.
  unfold Math_round, of_Z at 1. f_equal.
  apply Qfloor_between.
  - simpl. rewrite !Qred_correct. rewrite <- (Qplus_0_r (inject_Z z)) at 1.
    by apply Qplus_le_r.
  - simpl. rewrite !Qred_correct, inject_Z_plus.
    by apply Qplus_lt_r.
Qed.

(** ** Picking colours *)

Lemma vIndex_of_div (p : props) (i : Z) :
  0 < uCount p → vIndex_of p i = i `div` uCount p.
Proof.
  intros Hu. unfold vIndex_of, uIndex_of.
  rewrite (Z.div_mod i (uCount p)) at 1 by lia.
  replace (uCount p * i `div` uCount p + i `mod` uCount p - i `mod` uCount p)
    with (i `div` uCount p * uCount p) by lia.
  apply Z.div_mul. lia.
Qed.

Lemma vIndex_of_range (p : props) (i : Z) :
  0 < uCount p → 0 ≤ i < uCount p * vCount p → 0 ≤ vIndex_of p i < vCount p.
Proof.
  intros Hu Hi. rewrite vIndex_of_div by done. split.
  - apply Z.div_pos; lia.
  - apply Z.div_lt_upper_bound; lia.
Qed.

(** On a grid, [encodePickingColor] is the exact, unrounded scaling of the
    grid coordinates to [0 .. 255]. *)
Lemma encodePickingColor_grid (p : props) (i : Z) :
  2 ≤ uCount p → 2 ≤ vCount p → 0 ≤ i →
  encodePickingColor p (of_Z i) =
    (Fin (Qc_of_Z (uIndex_of p i) / Qc_of_Z (uCount p - 1) * Qc_of_Z 255),
     Fin (Qc_of_Z (vIndex_of p i) / Qc_of_Z (vCount p - 1) * Qc_of_Z 255),
     of_Z 1).
Proof.
  intros Hu Hv Hi. unfold encodePickingColor.
  rewrite num_rem_of_Z by lia.
  rewrite !num_sub_of_Z.
  assert (Hy : (of_Z (i - i `mod` uCount p) / of_Z (uCount p))%num
               = of_Z (vIndex_of p i)).
  { rewrite <- (num_div_of_Z_exact (vIndex_of p i) (uCount p)) by lia.
    do 2 f_equal. rewrite vIndex_of_div by lia.
    pose proof (Z.div_mod i (uCount p)). lia. }
  rewrite Hy.
  rewrite !num_div_of_Z by lia.
  reflexivity.
Qed.

Lemma strict_eq_zero_one : strict_eq_zero (of_Z 1) = false.
Proof. reflexivity. Qed.

(** *** Rounding to doubles *)

(** Inequalities between rationals in canonical form, as inequalities of
    [Q]. *)
Ltac Qc_to_Q :=
  unfold Qcle, Qclt in *;
  cbn [this Qcplus Qcminus Qcopp Qcmult Qcdiv Qcinv Q2Qc Qc_of_Z] in *;
  rewrite ?Qred_correct in *.

(** Rounding to the nearest integer moves a value by at most 1/2. *)
Lemma round_half_even_near (q : Qc) :
  (inject_Z (round_half_even q) - (1 # 2) <= q)%Q
  ∧ (q <= inject_Z (round_half_even q) + (1 # 2))%Q.
Proof.
  unfold round_half_even.
  pose proof (Qfloor_le q) as Hlo. pose proof (Qlt_floor q) as Hhi.
  rewrite inject_Z_plus in Hhi.
  change (Qc_of_Z 1 / Qc_of_Z 2)%Qc with (Q2Qc (1 # 2)).
  destruct (_ ?= _)%Qc eqn:E; unfold Qccompare in E;
    [apply Qeq_alt in E | apply Qlt_alt in E | apply Qgt_alt in E];
    Qc_to_Q; [destruct (Z.even _) | ..];
    rewrite ?inject_Z_plus;
    change (inject_Z 1) with 1%Q in *; change (inject_Z 2) with 2%Q in *;
    split; lra.
Qed.

Lemma round_half_even_of_Z (z : Z) : round_half_even (Qc_of_Z z) = z.
Proof.
  unfold round_half_even.
  change (Qfloor (Qc_of_Z z)) with (Qfloor (inject_Z z)). rewrite Qfloor_Z.
  replace (Qc_of_Z z - Qc_of_Z z)%Qc with 0%Qc by ring.
  done.
Qed.

Lemma Qc_of_Z_pos (z : Z) : 0 < z → (0 < Qc_of_Z z)%Qc.
Proof.
  intros Hz. rewrite <- Z2Qc_inj_0. by apply (proj1 (Z2Qc_inj_lt _ _)).
Qed.

Lemma pow_2_pos (k : Z) : 0 < 2 ^ k ∨ k < 0.
Proof.
  destruct (decide (0 ≤ k)); [left | right; lia].
  by apply Z.pow_pos_nonneg.
Qed.

Lemma pow2_shift (e k : Z) :
  0 ≤ k → 0 ≤ e + k → pow2 e = (Qc_of_Z (2 ^ (e + k)) / Qc_of_Z (2 ^ k))%Qc.
Proof.
  intros Hk Hek. unfold pow2.
  assert (Qc_of_Z (2 ^ k) ≠ 0%Qc) as Hk0.
  { apply Qc_of_Z_nonzero. pose proof (Z.pow_pos_nonneg 2 k). lia. }
  destruct (decide (0 ≤ e)) as [He|He].
  - rewrite Z.pow_add_r, Z2Qc_inj_mul by lia. by field.
  - assert (Qc_of_Z (2 ^ (- e)) ≠ 0%Qc) as He0.
    { apply Qc_of_Z_nonzero. pose proof (Z.pow_pos_nonneg 2 (- e)). lia. }
    assert (Qc_of_Z (2 ^ (e + k)) ≠ 0%Qc) as Hek0.
    { apply Qc_of_Z_nonzero. pose proof (Z.pow_pos_nonneg 2 (e + k)). lia. }
    assert (2 ^ k = 2 ^ (e + k) * 2 ^ (- e)) as Ek.
    { rewrite <- Z.pow_add_r by lia. f_equal. lia. }
    rewrite Ek in Hk0 |- *. rewrite Z2Qc_inj_mul in Hk0 |- *. by field.
Qed.

Lemma pow2_pos (e : Z) : (0 < pow2 e)%Qc.
Proof.
  rewrite (pow2_shift e (Z.abs e)) by lia.
  apply Qcmult_pos_pos.
  - apply Qc_of_Z_pos, Z.pow_pos_nonneg; lia.
  - apply Qcinv_pos, Qc_of_Z_pos, Z.pow_pos_nonneg; lia.
Qed.

Lemma pow2_add (a b : Z) : pow2 (a + b) = (pow2 a * pow2 b)%Qc.
Proof.
  rewrite (pow2_shift a (Z.abs a)), (pow2_shift b (Z.abs b)) by lia.
  rewrite (pow2_shift (a + b) (Z.abs a + Z.abs b)) by lia.
  assert (∀ k, 0 ≤ k → Qc_of_Z (2 ^ k) ≠ 0%Qc) as H0.
  { intros k Hk. apply Qc_of_Z_nonzero.
    pose proof (Z.pow_pos_nonneg 2 k). lia. }
  replace (a + b + (Z.abs a + Z.abs b))
    with ((a + Z.abs a) + (b + Z.abs b)) by lia.
  rewrite (Z.pow_add_r 2 (a + Z.abs a)), (Z.pow_add_r 2 (Z.abs a))
    by lia.
  rewrite !Z2Qc_inj_mul.
  field. split; apply H0; lia.
Qed.

Lemma pow2_of_nonneg (e : Z) : 0 ≤ e → pow2 e = Qc_of_Z (2 ^ e).
Proof. intros He. unfold pow2. by rewrite decide_True. Qed.

Lemma pow2_le (a b : Z) : a ≤ b → (pow2 a ≤ pow2 b)%Qc.
Proof.
  intros Hab. replace b with (a + (b - a)) by lia. rewrite pow2_add.
  rewrite <- (Qcmult_1_r (pow2 a)) at 1.
  apply Qcmult_le_mono_nonneg_l; [apply Qclt_le_weak, pow2_pos |].
  rewrite pow2_of_nonneg by lia. rewrite <- Z2Qc_inj_1.
  apply (proj1 (Z2Qc_inj_le _ _)).
  pose proof (Z.pow_pos_nonneg 2 (b - a)). lia.
Qed.

Lemma Qc_num_den (q : Qc) :
  q = (Qc_of_Z (Qnum q) / Qc_of_Z (Zpos (Qden q)))%Qc.
Proof.
  apply Qc_is_canon.
  cbn [this Qcdiv Qcmult Qcinv Q2Qc Qc_of_Z]. rewrite !Qred_correct.
  destruct q as [[n d] Hq]. cbn [this Qnum Qden]. apply Qmake_Qdiv.
Qed.

Lemma Qc_fraction_le (a b c d : Z) :
  0 < b → 0 < d → a * d ≤ c * b →
  (Qc_of_Z a / Qc_of_Z b ≤ Qc_of_Z c / Qc_of_Z d)%Qc.
Proof.
  intros Hb Hd H.
  pose proof (Qc_of_Z_pos b Hb) as Hb'. pose proof (Qc_of_Z_pos d Hd) as Hd'.
  apply (Qcmult_le_mono_pos_r _ _ (Qc_of_Z b * Qc_of_Z d)).
  { by apply Qcmult_pos_pos. }
  replace (Qc_of_Z a / Qc_of_Z b * (Qc_of_Z b * Qc_of_Z d))%Qc
    with (Qc_of_Z (a * d)).
  2:{ rewrite Z2Qc_inj_mul. field. by apply Qclt_not_eq in Hb'. }
  replace (Qc_of_Z c / Qc_of_Z d * (Qc_of_Z b * Qc_of_Z d))%Qc
    with (Qc_of_Z (c * b)).
  2:{ rewrite Z2Qc_inj_mul. field. by apply Qclt_not_eq in Hd'. }
  by apply (proj1 (Z2Qc_inj_le _ _)).
Qed.

Lemma Qc_num_pos (q : Qc) : (0 < q)%Qc → 0 < Qnum q.
Proof.
  destruct q as [[n d] Hq]. unfold Qclt, Qlt. cbn [this Qnum Qden].
  change (Qnum 0%Qc) with 0. change (QDen 0%Qc) with 1. lia.
Qed.

(** [ilog2 q] is not above the binary logarithm of [q]. *)
Lemma ilog2_lower (q : Qc) : (0 < q)%Qc → (pow2 (ilog2 q) ≤ q)%Qc.
Proof.
  intros Hq. unfold ilog2.
  destruct (decide _) as [H|_]; [exact H |].
  pose proof (Qc_num_pos q Hq) as Hn.
  destruct (Z.log2_spec (Qnum q) Hn) as [Hlo _].
  destruct (Z.log2_spec (Zpos (Qden q)) ltac:(lia)) as [_ Hhi].
  pose proof (Z.log2_nonneg (Qnum q)) as Hln.
  pose proof (Z.log2_nonneg (Zpos (Qden q))) as Hld.
  set (ln := Z.log2 (Qnum q)) in *. set (ld := Z.log2 (Zpos (Qden q))) in *.
  rewrite (pow2_shift _ (ld + 1)) by lia.
  replace (ln - ld - 1 + (ld + 1)) with ln by lia.
  rewrite (Qc_num_den q) at 1.
  replace (Z.succ ld) with (ld + 1) in Hhi by lia.
  apply Qc_fraction_le; [apply Z.pow_pos_nonneg; lia | lia |].
  pose proof (Z.pow_pos_nonneg 2 ln ltac:(lia) Hln).
  nia.
Qed.

Lemma round_half_even_within (t : Qc) :
  (Qc_of_Z (round_half_even t) - Q2Qc (1 # 2) ≤ t)%Qc
  ∧ (t ≤ Qc_of_Z (round_half_even t) + Q2Qc (1 # 2))%Qc.
Proof.
  destruct (round_half_even_near t) as [Hlo Hhi]. by Qc_to_Q.
Qed.

Lemma Qc_abs_nonneg (q : Qc) : (0 ≤ q)%Qc → Qc_abs q = q.
Proof. intros Hq. unfold Qc_abs. by rewrite decide_True. Qed.

Lemma round_binary_nearest (prec emin emax : Z) (q : Qc) :
  round_binary prec emin emax q
  = if decide (pow2 emax ≤ Qc_abs (nearest prec emin q))%Qc
    then (if decide (0 < q)%Qc then PInf else NInf)
    else Fin (nearest prec emin q).
Proof.
  unfold round_binary, nearest.
  destruct (decide (q = 0%Qc)) as [->|Hq]; [|reflexivity].
  rewrite decide_False; [done |].
  rewrite Qc_abs_nonneg by done. apply Qclt_not_le, pow2_pos.
Qed.

(** Rounding a positive number that is not below the normal range moves
    it by at most half a unit in the last place: the relative error is
    at most [2^-prec]. *)
Lemma nearest_error (prec emin : Z) (q : Qc) :
  (pow2 emin ≤ q)%Qc →
  (q * (1 - pow2 (- prec)) ≤ nearest prec emin q)%Qc
  ∧ (nearest prec emin q ≤ q * (1 + pow2 (- prec)))%Qc.
Proof.
  intros Hmin.
  assert (0 < q)%Qc as Hq
    by (eapply Qclt_le_trans; [apply pow2_pos | exact Hmin]).
  unfold nearest. rewrite decide_False by (by apply Qclt_not_eq in Hq).
  rewrite Qc_abs_nonneg by (by apply Qclt_le_weak).
  set (e := Z.max (ilog2 q) emin).
  assert (pow2 e ≤ q)%Qc as He.
  { unfold e. destruct (Z.max_spec (ilog2 q) emin) as [[_ ->]|[_ ->]];
      [exact Hmin | by apply ilog2_lower]. }
  set (U := pow2 (e - (prec - 1))).
  assert (0 < U)%Qc as HU by apply pow2_pos.
  assert (U = Qc_of_Z 2 * (pow2 e * pow2 (- prec)))%Qc as EU.
  { unfold U. replace (e - (prec - 1)) with (1 + (e + - prec)) by lia.
    by rewrite !pow2_add. }
  assert (pow2 e * pow2 (- prec) ≤ q * pow2 (- prec))%Qc as Hpe.
  { apply Qcmult_le_mono_nonneg_r; [apply Qclt_le_weak, pow2_pos | done]. }
  destruct (round_half_even_within (q / U)) as [Hlo Hhi].
  set (R := Qc_of_Z (round_half_even (q / U))) in *.
  set (half := Q2Qc (1 # 2)) in *.
  assert (q / U * U = q)%Qc as Et by (field; by apply Qclt_not_eq in HU).
  apply (Qcmult_le_mono_nonneg_r _ _ U) in Hlo, Hhi;
    try (by apply Qclt_le_weak).
  rewrite Et in Hlo, Hhi.
  set (eps := pow2 (- prec)) in *. set (P := pow2 e) in *.
  assert (half * U = P * eps)%Qc as EhU.
  { rewrite EU. unfold half. 
    replace (Q2Qc (1 # 2)) with (/ Qc_of_Z 2)%Qc by by_compute. by field. }
  split.
  - replace (q * (1 - eps))%Qc with (q - q * eps)%Qc by ring.
    apply Qcle_trans with (q - P * eps)%Qc.
    + apply Qcplus_le_mono_l. by apply Qcopp_le_compat.
    + rewrite <- EhU.
      apply (Qcplus_le_mono_r _ _ (half * U)).
      replace (q - half * U + half * U)%Qc with q by ring.
      replace (R * U + half * U)%Qc with ((R + half) * U)%Qc by ring.
      exact Hhi.
  - replace (q * (1 + eps))%Qc with (q + q * eps)%Qc by ring.
    apply Qcle_trans with (q + P * eps)%Qc.
    + rewrite <- EhU.
      apply (Qcplus_le_mono_r _ _ (- (half * U))).
      replace (q + half * U + - (half * U))%Qc with q by ring.
      replace (R * U + - (half * U))%Qc with ((R - half) * U)%Qc by ring.
      exact Hlo.
    + by apply Qcplus_le_mono_l.
Qed.

(** [ilog2 q] is below every exponent whose power of two is above [q]. *)
Lemma ilog2_upper (q : Qc) (k : Z) :
  (0 < q)%Qc → (q < pow2 k)%Qc → ilog2 q < k.
Proof.
  intros Hq Hk. destruct (decide (ilog2 q < k)) as [|Hge]; [done | exfalso].
  apply (Qclt_not_le _ _ Hk).
  apply Qcle_trans with (pow2 (ilog2 q)); [apply pow2_le; lia |].
  by apply ilog2_lower.
Qed.

(** An integer of at most [prec] bits is not moved. *)
Lemma nearest_integer (prec emin z : Z) :
  0 ≤ z < 2 ^ prec → 0 ≤ prec → emin ≤ prec - 1 →
  nearest prec emin (Qc_of_Z z) = Qc_of_Z z.
Proof.
  intros Hz Hprec Hemin. unfold nearest.
  destruct (decide _) as [E|Hz0]; [done |].
  assert (0 < z) as Hz'.
  { destruct (decide (z = 0)) as [->|]; [|lia].
    exfalso. apply Hz0, Z2Qc_inj_0. }
  pose proof (Qc_of_Z_pos z Hz') as Hq.
  rewrite Qc_abs_nonneg by (by apply Qclt_le_weak).
  assert (ilog2 (Qc_of_Z z) < prec) as He.
  { apply ilog2_upper; [done |]. rewrite pow2_of_nonneg by done.
    apply (proj1 (Z2Qc_inj_lt _ _)). lia. }
  set (e := Z.max (ilog2 (Qc_of_Z z)) emin).
  assert (e ≤ prec - 1) as He' by lia.
  set (k := prec - 1 - e).
  replace (e - (prec - 1)) with (- k) by lia.
  assert (pow2 (- k) * pow2 k = 1)%Qc as Ek.
  { rewrite <- pow2_add. replace (- k + k) with 0 by lia. by_compute. }
  assert (pow2 (- k) ≠ 0)%Qc as Hk0.
  { apply not_eq_sym, Qclt_not_eq, pow2_pos. }
  assert (/ pow2 (- k) = pow2 k)%Qc as Ek'.
  { rewrite <- (Qcmult_1_l (/ pow2 (- k))), <- Ek. by field. }
  unfold Qcdiv.
  rewrite Ek', pow2_of_nonneg, <- Z2Qc_inj_mul, round_half_even_of_Z by lia.
  rewrite Z2Qc_inj_mul, <- pow2_of_nonneg by lia.
  replace (Qc_of_Z z * pow2 k * pow2 (- k))%Qc
    with (Qc_of_Z z * (pow2 (- k) * pow2 k))%Qc by ring.
  rewrite Ek. ring.
Qed.

(** *** The round trip in rounded arithmetic

    The round trip of a grid index through [encodePickingColor] and
    [decodePickingColor] survives any rounding [fl] of the result of
    each of the four operations between the index and its recovered
    value, provided that [fl] keeps 0 and has a relative error of at
    most [2^-53] on the normal range of the doubles, on every grid of at
    most [2^32] lines. *)

Section rounded_round_trip.
Variable fl : Qc → Qc.

Let eps : Qc := (/ Qc_of_Z (2 ^ 53))%Qc.
Let lo : Qc := (1 - eps)%Qc.
Let hi : Qc := (1 + eps)%Qc.
Let tiny : Qc := (/ Qc_of_Z (2 ^ 1022))%Qc.
Let huge : Qc := Qc_of_Z (2 ^ 1023).

Hypothesis fl_zero : fl 0%Qc = 0%Qc.
Hypothesis fl_error :
  ∀ q : Qc, (tiny ≤ q)%Qc → (q ≤ huge)%Qc →
            (q * lo ≤ fl q)%Qc ∧ (fl q ≤ q * hi)%Qc.

(** If [q] is within the factors [L] and [H] of [q0], where [q0] is
    between [m] and [M], then [q] is in the range of [fl_error] and the
    rounded [q] is within [L * lo] and [H * hi]. *)
Lemma rounded_within (q0 q L H m M : Qc) :
  (0 ≤ m)%Qc → (m ≤ q0)%Qc → (q0 ≤ M)%Qc →
  (Qc_of_Z 1 / Qc_of_Z 2 ≤ L)%Qc → (H ≤ Qc_of_Z 2)%Qc →
  (tiny ≤ m * (Qc_of_Z 1 / Qc_of_Z 2))%Qc → (M * Qc_of_Z 2 ≤ huge)%Qc →
  (q0 * L ≤ q)%Qc → (q ≤ q0 * H)%Qc →
  in_double_range q
  ∧ (q0 * (L * lo) ≤ fl q)%Qc ∧ (fl q ≤ q0 * (H * hi))%Qc.
Proof.
  intros Hm Hmq HqM HL HH Htiny Hhuge Hlow Hhigh.
  assert (0 ≤ lo)%Qc as Hlo by by_compute.
  assert (0 ≤ hi)%Qc as Hhi by by_compute.
  assert (0 ≤ Qc_of_Z 1 / Qc_of_Z 2)%Qc as Hhalf by by_compute.
  assert (0 ≤ Qc_of_Z 2)%Qc as H2 by by_compute.
  assert (0 ≤ q0)%Qc as Hq0 by (by apply Qcle_trans with m).
  assert (0 ≤ L)%Qc as HL0
    by (by apply Qcle_trans with (Qc_of_Z 1 / Qc_of_Z 2)%Qc).
  assert (tiny ≤ q)%Qc as Hq_lo.
  { eapply Qcle_trans; [exact Htiny |].
    eapply Qcle_trans; [|exact Hlow].
    apply Qcle_trans with (q0 * (Qc_of_Z 1 / Qc_of_Z 2))%Qc.
    - by apply Qcmult_le_mono_nonneg_r.
    - by apply Qcmult_le_mono_nonneg_l. }
  assert (q ≤ huge)%Qc as Hq_hi.
  { eapply Qcle_trans; [exact Hhigh |].
    eapply Qcle_trans; [|exact Hhuge].
    apply Qcle_trans with (q0 * Qc_of_Z 2)%Qc.
    - by apply Qcmult_le_mono_nonneg_l.
    - by apply Qcmult_le_mono_nonneg_r. }
  destruct (fl_error q Hq_lo Hq_hi) as [Hfl_lo Hfl_hi].
  split; [by right |]. split.
  - eapply Qcle_trans; [|exact Hfl_lo].
    rewrite Qcmult_assoc. by apply Qcmult_le_mono_nonneg_r.
  - eapply Qcle_trans; [exact Hfl_hi |].
    rewrite Qcmult_assoc. by apply Qcmult_le_mono_nonneg_r.
Qed.

Lemma scaled_within (q0 q L H c : Qc) :
  (0 ≤ c)%Qc →
  (q0 * L ≤ q)%Qc → (q ≤ q0 * H)%Qc →
  (q0 * c * L ≤ q * c)%Qc ∧ (q * c ≤ q0 * c * H)%Qc.
Proof.
  intros Hc Hlow Hhigh. split.
  - replace (q0 * c * L)%Qc with (q0 * L * c)%Qc by ring.
    by apply Qcmult_le_mono_nonneg_r.
  - replace (q0 * c * H)%Qc with (q0 * H * c)%Qc by ring.
    by apply Qcmult_le_mono_nonneg_r.
Qed.

(** [x] is a grid index and [N] the last one, [uCount - 1] or
    [vCount - 1]: [x / N * 255] is rounded after each operation in
    [encodePickingColor], [r / 255] in [decodePickingColor] and
    [u * N] where the index is recovered.  Each of the four exact
    results is in the range of [fl_error]. *)
Lemma round_trip_rounded (x N : Z) :
  0 ≤ x ≤ N → 1 ≤ N → N < 2 ^ 32 →
  let r := fl (fl (Qc_of_Z x / Qc_of_Z N) * Qc_of_Z 255)%Qc in
  let u := fl (r / Qc_of_Z 255)%Qc in
  in_double_range (Qc_of_Z x / Qc_of_Z N)
  ∧ in_double_range (fl (Qc_of_Z x / Qc_of_Z N) * Qc_of_Z 255)
  ∧ in_double_range (r / Qc_of_Z 255)
  ∧ in_double_range (u * Qc_of_Z N)
  ∧ Math_round (Fin (fl (u * Qc_of_Z N)%Qc)) = of_Z x.
Proof.
  intros Hx HN Hfit r u.
  destruct (decide (x = 0)) as [->|Hx0].
  { unfold u, r.
    replace (Qc_of_Z 0 / Qc_of_Z N)%Qc with 0%Qc
      by (rewrite Z2Qc_inj_0; unfold Qcdiv; ring).
    rewrite fl_zero, Qcmult_0_l, fl_zero.
    replace (0 / Qc_of_Z 255)%Qc with 0%Qc by (unfold Qcdiv; ring).
    rewrite fl_zero, Qcmult_0_l, fl_zero.
    split_and!; try (by left).
    rewrite <- Z2Qc_inj_0. apply Math_round_of_Z. }
  set (X := Qc_of_Z x). set (n := Qc_of_Z N).
  set (B := Qc_of_Z (2 ^ 32)).
  set (half := (Qc_of_Z 1 / Qc_of_Z 2)%Qc).
  assert (Qc_of_Z 1 ≤ X)%Qc as HX1
    by (apply (proj1 (Z2Qc_inj_le _ _)); lia).
  assert (X ≤ n)%Qc as HXn by (apply (proj1 (Z2Qc_inj_le _ _)); lia).
  assert (n ≤ B)%Qc as HnB by (apply (proj1 (Z2Qc_inj_le _ _)); lia).
  assert (0 < n)%Qc as Hn.
  { unfold n. rewrite <- Z2Qc_inj_0. apply (proj1 (Z2Qc_inj_lt _ _)). lia. }
  assert (n ≠ 0)%Qc as Hn0 by (apply not_eq_sym; by apply Qclt_not_eq).
  assert (0 ≤ n)%Qc as Hn' by (by apply Qclt_le_weak).
  assert (0 < / n)%Qc as Hinv by (by apply Qcinv_pos).
  assert (0 ≤ 1)%Qc as H01 by done.
  assert (0 ≤ Qc_of_Z 255)%Qc as H255 by done.
  assert (0 ≤ / Qc_of_Z 255)%Qc as H255' by done.
  assert (0 ≤ lo)%Qc as Hlo by by_compute.
  assert (0 ≤ / B)%Qc as HB0 by by_compute.
  (* the exact quotient is between 2^-32 and 1 *)
  assert (/ B ≤ X / n)%Qc as Hq1_lo.
  { apply Qcle_trans with (/ n)%Qc.
    - apply (Qcmult_le_mono_pos_r _ _ n Hn).
      rewrite Qcmult_inv_l by done.
      apply (Qcmult_le_mono_pos_l _ _ B); [by_compute |].
      rewrite Qcmult_assoc, Qcmult_inv_r, Qcmult_1_l, Qcmult_1_r; [done |].
      by_compute.
    - rewrite <- (Qcmult_1_l (/ n)) at 1.
      apply Qcmult_le_mono_nonneg_r; [by apply Qclt_le_weak |].
      by rewrite <- Z2Qc_inj_1. }
  assert (X / n ≤ 1)%Qc as Hq1_hi.
  { apply (Qcmult_le_mono_pos_r _ _ n Hn).
    replace (X / n * n)%Qc with X by (by field).
    by rewrite Qcmult_1_l. }
  assert (0 ≤ X / n)%Qc as Hq1 by (by apply Qcle_trans with (/ B)%Qc).
  (* a = fl (x / N) *)
  destruct (rounded_within (X / n) (X / n) 1 1 (/ B) 1
              HB0 Hq1_lo Hq1_hi ltac:(by_compute) ltac:(by_compute)
              ltac:(by_compute) ltac:(by_compute))
    as (Hr1 & Ha_lo & Ha_hi); [by rewrite Qcmult_1_r.. |].
  (* a * 255 *)
  destruct (scaled_within _ _ _ _ (Qc_of_Z 255) H255 Ha_lo Ha_hi)
    as [Hq2_lo Hq2_hi].
  assert (/ B ≤ X / n * Qc_of_Z 255)%Qc as Hs2_lo.
  { eapply Qcle_trans; [exact Hq1_lo |].
    rewrite <- (Qcmult_1_r (X / n)) at 1.
    by apply Qcmult_le_mono_nonneg_l. }
  assert (X / n * Qc_of_Z 255 ≤ Qc_of_Z 255)%Qc as Hs2_hi.
  { rewrite <- (Qcmult_1_l (Qc_of_Z 255)) at 2.
    by apply Qcmult_le_mono_nonneg_r. }
  (* r = fl (a * 255) *)
  destruct (rounded_within _ _ (1 * lo) (1 * hi) (/ B) (Qc_of_Z 255)
              HB0 Hs2_lo Hs2_hi ltac:(by_compute) ltac:(by_compute)
              ltac:(by_compute) ltac:(by_compute) Hq2_lo Hq2_hi)
    as (Hr2 & Hr_lo & Hr_hi).
  (* r / 255 *)
  destruct (scaled_within _ _ _ _ (/ Qc_of_Z 255) H255' Hr_lo Hr_hi)
    as [Hq3_lo Hq3_hi].
  replace (X / n * Qc_of_Z 255 * / Qc_of_Z 255)%Qc with (X / n)%Qc
    in Hq3_lo, Hq3_hi by (by field).
  (* u = fl (r / 255) *)
  destruct (rounded_within _ _ (1 * lo * lo) (1 * hi * hi) (/ B) 1
              HB0 Hq1_lo Hq1_hi ltac:(by_compute) ltac:(by_compute)
              ltac:(by_compute) ltac:(by_compute) Hq3_lo Hq3_hi)
    as (Hr3 & Hu_lo & Hu_hi).
  (* u * N *)
  destruct (scaled_within _ _ _ _ n Hn' Hu_lo Hu_hi) as [Hq4_lo Hq4_hi].
  replace (X / n * n)%Qc with X in Hq4_lo, Hq4_hi by (by field).
  (* fl (u * N) *)
  assert (X ≤ B)%Qc as HXB by (by apply Qcle_trans with n).
  destruct (rounded_within _ _ (1 * lo * lo * lo) (1 * hi * hi * hi)
              (Qc_of_Z 1) B ltac:(by_compute) HX1 HXB ltac:(by_compute)
              ltac:(by_compute) ltac:(by_compute) ltac:(by_compute)
              Hq4_lo Hq4_hi)
    as (Hr4 & Hd_lo & Hd_hi).
  fold r in Hr3, Hr4, Hd_lo, Hd_hi.
  fold (Qcdiv r (Qc_of_Z 255)) in Hr3, Hr4, Hd_lo, Hd_hi.
  fold u in Hr4, Hd_lo, Hd_hi.
  split_and!; [exact Hr1 | exact Hr2 | exact Hr3 | exact Hr4 |].
  set (d := fl (u * n)) in *.
  set (L4 := (1 * lo * lo * lo * lo)%Qc) in *.
  set (H4 := (1 * hi * hi * hi * hi)%Qc) in *.
  assert (0 ≤ X)%Qc as HX by (by apply Qcle_trans with (Qc_of_Z 1)).
  assert (0 ≤ 1 - L4)%Qc as HL4 by by_compute.
  assert (0 ≤ H4 - 1)%Qc as HH4 by by_compute.
  assert (B * (1 - L4) ≤ half)%Qc as HBL by by_compute.
  assert (B * (H4 - 1) < half)%Qc as HBH by by_compute.
  unfold Math_round, of_Z. do 2 f_equal.
  apply Qfloor_between.
  - change (Qc_of_Z x ≤ d + half)%Qc. fold X.
    apply Qcle_trans with (X * L4 + half)%Qc;
      [|by apply Qcplus_le_mono_r].
    apply Qcle_trans with (X * L4 + X * (1 - L4))%Qc.
    { replace (X * L4 + X * (1 - L4))%Qc with X by ring. apply Qcle_refl. }
    apply Qcplus_le_mono_l.
    apply Qcle_trans with (B * (1 - L4))%Qc; [|done].
    by apply Qcmult_le_mono_nonneg_r.
  - change (d + half < Qc_of_Z (x + 1))%Qc.
    rewrite Z2Qc_inj_add. fold X.
    apply Qcle_lt_trans with (X * H4 + half)%Qc;
      [by apply Qcplus_le_mono_r |].
    replace (X * H4 + half)%Qc with (X + (X * (H4 - 1) + half))%Qc by ring.
    apply Qcplus_lt_mono_l.
    apply Qcle_lt_trans with (B * (H4 - 1) + half)%Qc.
    { apply Qcplus_le_mono_r. by apply Qcmult_le_mono_nonneg_r. }
    replace (Qc_of_Z 1) with (half + half)%Qc by by_compute.
    by apply Qcplus_lt_mono_r.
Qed.
End rounded_round_trip.

(** *** Doubles *)

Lemma nearest64_0 : nearest64 0%Qc = 0%Qc.
Proof. reflexivity. Qed.

Lemma nearest64_error (q : Qc) :
  (/ Qc_of_Z (2 ^ 1022) ≤ q)%Qc → (q ≤ Qc_of_Z (2 ^ 1023))%Qc →
  (q * (1 - / Qc_of_Z (2 ^ 53)) ≤ nearest64 q)%Qc
  ∧ (nearest64 q ≤ q * (1 + / Qc_of_Z (2 ^ 53)))%Qc.
Proof.
  intros Hlo _. apply (nearest_error 53 (-1022) q). exact Hlo.
Qed.

(** In the range, rounding to a double does not overflow. *)
Lemma fl64_in_range (q : Qc) :
  in_double_range q → fl64 (Fin q) = Fin (nearest64 q).
Proof.
  intros Hq. unfold fl64. rewrite round_binary_nearest.
  fold (nearest64 q). rewrite decide_False; [done |].
  destruct Hq as [->|[Hlo Hhi]].
  { rewrite nearest64_0, Qc_abs_nonneg by done.
    apply Qclt_not_le, pow2_pos. }
  destruct (nearest64_error q Hlo Hhi) as [Hr_lo Hr_hi].
  assert (0 ≤ q)%Qc as Hq0.
  { eapply Qcle_trans; [|exact Hlo]. by_compute. }
  assert (0 ≤ nearest64 q)%Qc as Hr0.
  { eapply Qcle_trans; [|exact Hr_lo].
    apply Qcmult_nonneg_nonneg; [done | by_compute]. }
  rewrite Qc_abs_nonneg by done. apply Qclt_not_le.
  eapply Qcle_lt_trans; [exact Hr_hi |].
  apply Qcle_lt_trans
    with (Qc_of_Z (2 ^ 1023) * (1 + / Qc_of_Z (2 ^ 53)))%Qc.
  - apply Qcmult_le_mono_nonneg_r; [by_compute | done].
  - by_compute.
Qed.

(** An integer below [2^53] is a double. *)
Lemma fl64_of_Z (z : Z) : 0 ≤ z < 2 ^ 53 → fl64 (of_Z z) = of_Z z.
Proof.
  intros Hz. unfold of_Z. rewrite fl64_in_range.
  - f_equal. apply nearest_integer; lia.
  - destruct (decide (z = 0)) as [->|Hz0];
      [left; apply Z2Qc_inj_0 | right]. split.
    + apply Qcle_trans with (Qc_of_Z 1); [by_compute |].
      apply (proj1 (Z2Qc_inj_le _ _)). lia.
    + apply (proj1 (Z2Qc_inj_le _ _)).
      assert (2 ^ 53 ≤ 2 ^ 1023) by (apply Z.pow_le_mono_r; lia). lia.
Qed.

Lemma num_div_Fin (a : Qc) (n : Z) :
  n ≠ 0 → (Fin a / of_Z n)%num = Fin (a / Qc_of_Z n).
Proof.
  intros Hn. unfold of_Z. cbn [num_div].
  destruct (decide _) as [H0|_]; [by apply Qc_of_Z_nonzero in H0 | done].
Qed.

(** One coordinate of the round trip, in doubles: the grid index [x] of
    a direction whose last index is [N] is scaled to [x / N * 255],
    scaled back and multiplied by [N], each operation rounded. *)
Lemma double_round_trip (x N : Z) :
  0 ≤ x ≤ N → 1 ≤ N → N < 2 ^ 32 →
  let c := Double.mul (Double.div (of_Z x) (of_Z N)) (of_Z 255) in
  let u := Double.div c (of_Z 255) in
  Math_round (Double.mul u (of_Z N)) = of_Z x.
Proof.
  intros Hx HN Hfit c u. subst c u.
  destruct (round_trip_rounded nearest64 nearest64_0 nearest64_error
              x N Hx HN Hfit) as (R1 & R2 & R3 & R4 & E).
  unfold Double.mul, Double.div.
  rewrite num_div_of_Z by lia. rewrite (fl64_in_range _ R1).
  unfold of_Z at 1. cbn [num_mul]. rewrite (fl64_in_range _ R2).
  rewrite num_div_Fin by done. rewrite (fl64_in_range _ R3).
  unfold of_Z at 1. cbn [num_mul]. rewrite (fl64_in_range _ R4).
  exact E.
Qed.

Lemma Double_encodePickingColor_grid (p : props) (i : Z) :
  2 ≤ uCount p → 2 ≤ vCount p → uCount p * vCount p ≤ 2 ^ 53 →
  0 ≤ i < uCount p * vCount p →
  Double.encodePickingColor p (of_Z i)
  = (Double.mul (Double.div (of_Z (uIndex_of p i)) (of_Z (uCount p - 1)))
       (of_Z 255),
     Double.mul (Double.div (of_Z (vIndex_of p i)) (of_Z (vCount p - 1)))
       (of_Z 255),
     of_Z 1).
Proof.
  intros Hu Hv H53 Hi. unfold Double.encodePickingColor.
  pose proof (Z.mod_pos_bound i (uCount p) ltac:(lia)) as Hx.
  pose proof (vIndex_of_range p i ltac:(lia) Hi) as Hy.
  rewrite num_rem_of_Z by lia. fold (uIndex_of p i).
  unfold Double.sub. rewrite !num_sub_of_Z.
  assert (uIndex_of p i ≤ i) as Hxi by (apply Z.mod_le; lia).
  assert (uCount p < 2 ^ 53 ∧ vCount p < 2 ^ 53) as [Hu53 Hv53] by nia.
  fold (uIndex_of p i) in Hx.
  rewrite (fl64_of_Z (uCount p - 1)), (fl64_of_Z (vCount p - 1)),
    (fl64_of_Z (i - uIndex_of p i)) by lia.
  assert (Double.div (of_Z (i - uIndex_of p i)) (of_Z (uCount p))
          = of_Z (vIndex_of p i)) as ->; [| done].
  unfold Double.div.
  replace (i - uIndex_of p i) with (uCount p * vIndex_of p i).
  2:{ rewrite vIndex_of_div by lia. unfold uIndex_of.
      pose proof (Z.div_mod i (uCount p)). lia. }
  rewrite num_div_of_Z_exact by lia. apply fl64_of_Z. nia.
Qed.

(** C1, as the code has it. Picking round trip in doubles: on a grid with
    [uCount, vCount >= 2], at most [2^32] lines in each direction and at
    most [2^53] vertices, decoding the picking colour that
    [encodePickingColor] returns for a valid vertex index [i] yields
    [(u, v)] with [round(u * (uCount - 1)) = i mod uCount] and
    [round(v * (vCount - 1)) = (i - i mod uCount) / uCount], every
    operation being rounded to the nearest double. *)
Theorem picking_round_trip (p : props) (i : Z) :
  2 ≤ uCount p ≤ 2 ^ 32 → 2 ≤ vCount p ≤ 2 ^ 32 →
  uCount p * vCount p ≤ 2 ^ 53 →
  0 ≤ i < uCount p * vCount p →
  ∃ u v : number,
    Double.decodePickingColor (Double.encodePickingColor p (of_Z i))
    = Index_uv u v
    ∧ Math_round (Double.mul u (Double.sub (of_Z (uCount p)) (of_Z 1)))
      = of_Z (uIndex_of p i)
    ∧ Math_round (Double.mul v (Double.sub (of_Z (vCount p)) (of_Z 1)))
      = of_Z (vIndex_of p i).
Proof.
  intros Hu Hv H53 Hi.
  pose proof (Z.mod_pos_bound i (uCount p) ltac:(lia)) as Hx.
  pose proof (vIndex_of_range p i ltac:(lia) Hi) as Hy.
  rewrite Double_encodePickingColor_grid by lia.
  unfold Double.decodePickingColor. rewrite strict_eq_zero_one.
  eexists _, _. split; [reflexivity |].
  unfold Double.sub. rewrite !num_sub_of_Z, !fl64_of_Z by lia.
  split; apply double_round_trip; unfold uIndex_of; lia.
Qed.

Lemma picking_round_trip_witness :
  ∃ u v : number,
    Double.decodePickingColor
      (Double.encodePickingColor (example_props 3 2) (of_Z 4))
    = Index_uv u v
    ∧ Math_round (Double.mul u (Double.sub (of_Z 3) (of_Z 1))) = of_Z 1
    ∧ Math_round (Double.mul v (Double.sub (of_Z 2) (of_Z 1))) = of_Z 1.
Proof.
  apply (picking_round_trip (example_props 3 2) 4); simpl; lia.
Defined.

(** C1, as the spec has it, fails on a grid of [2^53] by 2 lines: the
    round trip of the vertex 8434196263735167 of the first line gives
    the index 8434196263735166. *)
Lemma picking_round_trip_lost :
  ∃ u v : number,
    Double.decodePickingColor
      (Double.encodePickingColor (example_props (2 ^ 53) 2)
         (of_Z 8434196263735167))
    = Index_uv u v
    ∧ 0 ≤ 8434196263735167 < 2 ^ 53 * 2
    ∧ uIndex_of (example_props (2 ^ 53) 2) 8434196263735167
      = 8434196263735167
    ∧ Math_round (Double.mul u (Double.sub (of_Z (2 ^ 53)) (of_Z 1)))
      = of_Z 8434196263735166
    ∧ Math_round (Double.mul u (Double.sub (of_Z (2 ^ 53)) (of_Z 1)))
      ≠ of_Z (uIndex_of (example_props (2 ^ 53) 2) 8434196263735167).
Proof.
  eexists _, _. split; [vm_compute; reflexivity |].
  split; [lia |]. split; [reflexivity |]. split; by_compute.
Qed.

(** ** Loops that fill an array block by block *)

Section loops.
Context {S X : Type}.

(** An invariant indexed by the elements already visited. *)
Lemma foldl_prefix_ind (step : S → X → S) (Inv : list X → S → Prop)
    (s0 : S) (l : list X) :
  Inv [] s0 →
  (∀ seen x rest s,
      l = seen ++ x :: rest → Inv seen s → Inv (seen ++ [x]) (step s x)) →
  Inv l (foldl step s0 l).
Proof.
  intros H0 Hstep.
  assert (∀ seen rest, l = seen ++ rest → Inv seen (foldl step s0 seen))
    as Hall.
  { induction seen as [|x seen IH] using rev_ind; intros rest Hl.
    - done.
    - rewrite foldl_app. simpl. rewrite <- app_assoc in Hl.
      eapply Hstep; [exact Hl |]. by eapply IH. }
  apply (Hall l []). by rewrite app_nil_r.
Qed.

(** Two nested [for] loops visit the pairs of the two ranges. *)
Lemma foldl_nested {Y : Type} (f : S → X → Y → S) (s : S)
    (xs : list X) (ys : list Y) :
  foldl (λ s x, foldl (λ s y, f s x y) s ys) s xs
  = foldl (λ s xy, f s xy.1 xy.2) s (mjoin ((λ x, (x,.) <$> ys) <$> xs)).
Proof.
  revert s. induction xs as [|x xs IH]; intros s; [done |].
  simpl. rewrite foldl_app, <- IH. f_equal.
  by rewrite foldl_fmap.
Qed.
End loops.

Section blocks.
Context {A : Type}.

(** The array after [n] blocks of [k] elements have been written. *)
Lemma filled_length (k : nat) (blocks : list (list A)) :
  Forall (λ b, length b = k) blocks →
  length (mjoin blocks) = (length blocks * k)%nat.
Proof.
  induction 1 as [|b bs Hb _ IH]; [done |].
  simpl. rewrite length_app, IH, Hb. lia.
Qed.

(** Splitting off the next block of an array under construction. *)
Lemma next_block (k n : nat) (init : list A) :
  (S n * k ≤ length init)%nat →
  drop (n * k) init
  = take k (drop (n * k) init) ++ drop (S n * k) init.
Proof.
  intros Hlen. rewrite <- (take_drop k (drop (n * k) init)) at 1.
  f_equal. rewrite drop_drop. f_equal. lia.
Qed.

Lemma lookup_block (k : nat) (blocks : list (list A)) (rest : list A)
    (j r : nat) (b : list A) :
  Forall (λ b, length b = k) blocks →
  blocks !! j = Some b → (r < k)%nat →
  (mjoin blocks ++ rest) !! (j * k + r)%nat = b !! r.
Proof.
  intros Hk Hj Hr.
  assert (length b = k) as Hb.
  { eapply (Forall_lookup_1 _ _ _ _ Hk Hj). }
  assert (j < length blocks)%nat by (by eapply lookup_lt_Some).
  rewrite lookup_app_l by (rewrite (filled_length k) by done; nia).
  destruct (b !! r) as [x|] eqn:Hx.
  - apply (join_lookup_Some_same_length' k); eauto.
  - apply lookup_ge_None in Hx. lia.
Qed.
End blocks.

Section block_stores.
Context {A : Type}.

Lemma array_set_app (pre l : list A) (i : Z) (r : nat) (v : A) :
  i = Z.of_nat (length pre) + Z.of_nat r →
  array_set (pre ++ l) i v = pre ++ <[r := v]> l.
Proof.
  intros ->. unfold array_set. rewrite decide_True by lia.
  replace (Z.to_nat (Z.of_nat (length pre) + Z.of_nat r))
    with (length pre + r)%nat by lia.
  apply insert_app_r.
Qed.

(** One iteration of a loop that overwrites block [n]. *)
Lemma fill_step (k n : nat) (body : list A → list A) (new : list A)
    (blocks : list (list A)) (init : list A) :
  length blocks = n →
  Forall (λ b, length b = k) blocks →
  (S n * k ≤ length init)%nat →
  (∀ pre old post,
      length pre = (n * k)%nat → length old = k →
      body (pre ++ old ++ post) = pre ++ new ++ post) →
  body (mjoin blocks ++ drop (n * k) init)
  = mjoin (blocks ++ [new]) ++ drop (S n * k) init.
Proof.
  intros Hn Hk Hlen Hbody.
  rewrite (next_block k n init) by done.
  rewrite Hbody.
  - rewrite join_app. simpl. by rewrite app_nil_r, <- app_assoc.
  - rewrite (filled_length k) by done. by rewrite Hn.
  - rewrite length_take, length_drop. lia.
Qed.
End block_stores.

Lemma seqZ_split (n : Z) (seen rest : list Z) (x : Z) :
  seqZ 0 n = seen ++ x :: rest → x = Z.of_nat (length seen) ∧ x < n.
Proof.
  intros Hl.
  assert (seqZ 0 n !! length seen = Some x) as Hx.
  { rewrite Hl. apply list_lookup_middle. done. }
  apply lookup_seqZ in Hx. lia.
Qed.

Ltac destruct_block old H :=
  repeat (destruct old as [|? old]; simpl in H; try lia); clear H.

(** ** Picking colours, as stored *)

Lemma calculatePickingColors_filled (p : props) (n : Z) :
  0 ≤ n →
  calculatePickingColors p n 3
  = Normal (mjoin (picking_block p <$> seqZ 0 n)).
Proof.
  intros Hn. unfold calculatePickingColors, new_array.
  rewrite decide_False by lia. cbn [bind]. f_equal.
  set (init := replicate (Z.to_nat (n * 3)) 0).
  set (body := λ (value : list Z) (i : Z), _).
  assert (foldl body init (seqZ 0 n)
          = mjoin (picking_block p <$> seqZ 0 n)
            ++ drop (length (seqZ 0 n) * 3) init) as ->.
  2:{ rewrite drop_ge, app_nil_r; [done |].
      unfold init. rewrite length_replicate, length_seqZ. lia. }
  apply (foldl_prefix_ind body
    (λ seen value, value = mjoin (picking_block p <$> seen)
                           ++ drop (length seen * 3) init)).
  { done. }
  intros seen x rest value Hl ->.
  destruct (seqZ_split _ _ _ _ Hl) as [-> Hlt].
  rewrite fmap_app. simpl.
  replace (length (seen ++ [Z.of_nat (length seen)]))
    with (S (length seen)) by (rewrite length_app; simpl; lia).
  apply (fill_step 3 (length seen) (λ value, body value _)).
  - by rewrite length_fmap.
  - apply Forall_fmap, Forall_true. intros i. unfold picking_block.
    by destruct (encodePickingColor p (of_Z i)) as [[??]?].
  - unfold init. rewrite length_replicate. lia.
  - intros pre old post Hpre Hold. unfold body, picking_block.
    destruct (encodePickingColor p _) as [[c0 c1] c2].
    destruct_block old Hold.
    rewrite (array_set_app pre _ _ 0) by lia.
    rewrite (array_set_app pre _ _ 1) by lia.
    rewrite (array_set_app pre _ _ 2) by lia.
    done.
Qed.

Lemma ToUint8Clamp_in_range (q : Qc) :
  (0 ≤ q)%Qc → (q ≤ Qc_of_Z 255)%Qc →
  ToUint8Clamp (Fin q) = round_half_even q.
Proof.
  intros Hlo Hhi. unfold ToUint8Clamp.
  destruct (decide (q ≤ 0)%Qc) as [H0|_].
  { assert (q = Qc_of_Z 0) as -> by (rewrite Z2Qc_inj_0; by apply Qcle_antisym).
    by rewrite round_half_even_of_Z. }
  destruct (decide (Qc_of_Z 255 ≤ q)%Qc) as [H255|_]; [|done].
  assert (q = Qc_of_Z 255) as -> by (by apply Qcle_antisym).
  by rewrite round_half_even_of_Z.
Qed.

Lemma scaled_index_range (x n : Z) :
  0 ≤ x ≤ n → 0 < n →
  (0 ≤ Qc_of_Z x / Qc_of_Z n * Qc_of_Z 255)%Qc
  ∧ (Qc_of_Z x / Qc_of_Z n * Qc_of_Z 255 ≤ Qc_of_Z 255)%Qc.
Proof.
  intros Hx Hn.
  assert (0 < Qc_of_Z n)%Qc as Hn'.
  { rewrite <- Z2Qc_inj_0. by apply (proj1 (Z2Qc_inj_lt _ _)). }
  assert (0 ≤ Qc_of_Z x)%Qc as Hx0.
  { rewrite <- Z2Qc_inj_0. apply (proj1 (Z2Qc_inj_le _ _)). lia. }
  assert (0 ≤ Qc_of_Z 255)%Qc as H255 by done.
  assert (0 ≤ Qc_of_Z x / Qc_of_Z n)%Qc as Hq.
  { apply Qcmult_nonneg_nonneg; [done |].
    apply Qclt_le_weak. by apply Qcinv_pos. }
  split.
  - by apply Qcmult_nonneg_nonneg.
  - rewrite <- (Qcmult_1_l (Qc_of_Z 255)) at 2.
    apply Qcmult_le_mono_nonneg_r; [done |].
    apply (Qcmult_le_mono_pos_r _ _ (Qc_of_Z n)); [done |].
    rewrite Qcmult_1_l.
    replace (Qc_of_Z x / Qc_of_Z n * Qc_of_Z n)%Qc with (Qc_of_Z x).
    + apply (proj1 (Z2Qc_inj_le _ _)). lia.
    + field. by apply Qclt_not_eq in Hn'.
Qed.

Lemma picking_block_grid (p : props) (i : Z) :
  2 ≤ uCount p → 2 ≤ vCount p → 0 ≤ i < uCount p * vCount p →
  picking_block p i =
    [round_half_even
       (Qc_of_Z (uIndex_of p i) / Qc_of_Z (uCount p - 1) * Qc_of_Z 255);
     round_half_even
       (Qc_of_Z (vIndex_of p i) / Qc_of_Z (vCount p - 1) * Qc_of_Z 255);
     1].
Proof.
  intros Hu Hv Hi. unfold picking_block.
  rewrite encodePickingColor_grid by lia.
  pose proof (Z.mod_pos_bound i (uCount p)).
  pose proof (vIndex_of_range p i).
  destruct (scaled_index_range (uIndex_of p i) (uCount p - 1))
    as [??]; [unfold uIndex_of; lia.. |].
  destruct (scaled_index_range (vIndex_of p i) (vCount p - 1))
    as [??]; [lia.. |].
  by rewrite !ToUint8Clamp_in_range.
Qed.

Lemma lookup_block_Z {A : Type} (k : nat) (f : Z → list A) (n i : Z)
    (r idx : nat) :
  (∀ j, length (f j) = k) → 0 ≤ i < n → (r < k)%nat →
  idx = (Z.to_nat i * k + r)%nat →
  mjoin (f <$> seqZ 0 n) !! idx = f i !! r.
Proof.
  intros Hk Hi Hr ->.
  rewrite <- (app_nil_r (mjoin _)).
  apply lookup_block; [| |done].
  - apply Forall_fmap, Forall_true. intros j. apply Hk.
  - rewrite list_lookup_fmap, lookup_seqZ_lt by lia. simpl.
    do 2 f_equal. lia.
Qed.

(** C4, as the code has it. [encodePickingColor] returns the unrounded
    triple [(uIndex/(uCount-1)*255, vIndex/(vCount-1)*255, 1)]; the triple
    is rounded (to the nearest integer, a tie going to the even one) where
    [calculatePickingColors] stores it into its [Uint8ClampedArray], so the
    stored picking colour of vertex [i] is
    [(round(uIndex/(uCount-1)*255), round(vIndex/(vCount-1)*255), 1)]. *)
Theorem picking_color_stored (p : props) (i : Z) :
  2 ≤ uCount p → 2 ≤ vCount p → 0 ≤ i < uCount p * vCount p →
  let r := (Qc_of_Z (i `mod` uCount p) / Qc_of_Z (uCount p - 1)
            * Qc_of_Z 255)%Qc in
  let g := (Qc_of_Z ((i - i `mod` uCount p) `div` uCount p)
            / Qc_of_Z (vCount p - 1) * Qc_of_Z 255)%Qc in
  encodePickingColor p (of_Z i) = (Fin r, Fin g, of_Z 1)
  ∧ ∃ value : list Z,
      calculatePickingColors p (uCount p * vCount p) 3 = Normal value
      ∧ value !! Z.to_nat (i * 3) = Some (round_half_even r)
      ∧ value !! Z.to_nat (i * 3 + 1) = Some (round_half_even g)
      ∧ value !! Z.to_nat (i * 3 + 2) = Some 1.
Proof.
  intros Hu Hv Hi r g. split.
  { by apply encodePickingColor_grid; lia. }
  eexists. split; [apply calculatePickingColors_filled; lia |].
  pose proof (lookup_block_Z 3 (picking_block p) (uCount p * vCount p) i)
    as Hblock.
  assert (∀ j, length (picking_block p j) = 3%nat) as Hlen.
  { intros j. unfold picking_block.
    by destruct (encodePickingColor p (of_Z j)) as [[??]?]. }
  rewrite (Hblock 0%nat), (Hblock 1%nat), (Hblock 2%nat) by (done || lia).
  by rewrite picking_block_grid by lia.
Qed.

Lemma picking_color_stored_witness :
  encodePickingColor (example_props 3 2) (of_Z 4)
  = (Fin (Qc_of_Z 1 / Qc_of_Z 2 * Qc_of_Z 255),
     Fin (Qc_of_Z 1 / Qc_of_Z 1 * Qc_of_Z 255), of_Z 1)
  ∧ ∃ value : list Z,
      calculatePickingColors (example_props 3 2) 6 3 = Normal value
      ∧ value !! 12%nat = Some 128
      ∧ value !! 13%nat = Some 255
      ∧ value !! 14%nat = Some 1.
Proof.
  apply (picking_color_stored (example_props 3 2) 4); simpl; lia.
Defined.

(** C4, as stated, fails on grid 3 x 2 at vertex 1: the red component that
    [encodePickingColor] returns is 127.5, which is neither [Math.round] of
    the scaled coordinate nor any other integer. *)
Lemma encodePickingColor_unrounded :
  encodePickingColor (example_props 3 2) (of_Z 1)
  ≠ (Math_round (of_Z 1 / (of_Z 3 - of_Z 1) * of_Z 255),
     Math_round (of_Z 0 / (of_Z 2 - of_Z 1) * of_Z 255),
     of_Z 1)
  ∧ ∀ r g : Z,
      encodePickingColor (example_props 3 2) (of_Z 1)
      ≠ (of_Z r, of_Z g, of_Z 1).
Proof.
  assert (∀ r g : Z,
      encodePickingColor (example_props 3 2) (of_Z 1)
      ≠ (of_Z r, of_Z g, of_Z 1)) as Hint.
  { intros r g. rewrite encodePickingColor_grid by (simpl; lia).
    intros H.
    apply (f_equal (λ c, match c.1.1 with
                         | Fin q => Qden q
                         | _ => 1%positive
                         end)) in H.
    vm_compute in H. discriminate H. }
  split; [|done].
  rewrite !num_sub_of_Z, !num_div_of_Z by done.
  unfold Math_round, num_mul, of_Z at 1 3. apply Hint.
Qed.

(** C5. [decodePickingColor] answers the "no hit" value [-1] for every
    colour whose third component is 0, whatever [r] and [g], and the third
    component of every colour that [encodePickingColor] returns is not 0,
    nor is the byte stored for it: decoding an encoded colour never
    answers [-1]. *)
Theorem sentinel_separation :
  (∀ r g : number,
      decodePickingColor (r, g, of_Z 0) = Index_number (of_Z (-1)))
  ∧ (∀ (p : props) (i : number),
      (encodePickingColor p i).2 ≠ of_Z 0
      ∧ strict_eq_zero (encodePickingColor p i).2 = false
      ∧ ToUint8Clamp (encodePickingColor p i).2 = 1
      ∧ decodePickingColor (encodePickingColor p i)
        ≠ Index_number (of_Z (-1))).
Proof.
  split; [done |].
  intros p i. unfold encodePickingColor, decodePickingColor. simpl.
  split_and!; [|done..].
  intros H.
  apply (f_equal (λ x, match x with Fin q => Qnum q | _ => 0 end)) in H.
  discriminate H.
Qed.

(** ** Grids *)

Lemma grid_pairs_rows (a b : Z) :
  Forall (λ row : list (Z * Z), length row = Z.to_nat b)
    ((λ x, (x,.) <$> seqZ 0 b) <$> seqZ 0 a).
Proof.
  apply Forall_fmap, Forall_true. intros x. simpl.
  by rewrite length_fmap, length_seqZ.
Qed.

Lemma grid_pairs_length (a b : Z) :
  length (grid_pairs a b) = (Z.to_nat a * Z.to_nat b)%nat.
Proof.
  unfold grid_pairs.
  rewrite (filled_length (Z.to_nat b)) by apply grid_pairs_rows.
  by rewrite length_fmap, length_seqZ.
Qed.

Lemma grid_pairs_lookup (a b x y : Z) :
  0 ≤ x < a → 0 ≤ y < b →
  grid_pairs a b !! Z.to_nat (x * b + y) = Some (x, y).
Proof.
  intros Hx Hy. unfold grid_pairs.
  replace (Z.to_nat (x * b + y))
    with (Z.to_nat x * Z.to_nat b + Z.to_nat y)%nat by nia.
  rewrite <- (app_nil_r (mjoin _)).
  rewrite (lookup_block (Z.to_nat b) _ _ _ _ ((x,.) <$> seqZ 0 b)).
  - rewrite list_lookup_fmap, lookup_seqZ_lt by lia. simpl.
    do 2 f_equal. lia.
  - apply grid_pairs_rows.
  - rewrite list_lookup_fmap, lookup_seqZ_lt by lia. simpl.
    do 3 f_equal. lia.
  - lia.
Qed.

(** The pair visited after [length seen] others. *)
Lemma grid_pairs_split (a b : Z) (seen rest : list (Z * Z)) (q : Z * Z) :
  grid_pairs a b = seen ++ q :: rest →
  0 ≤ q.1 < a ∧ 0 ≤ q.2 < b ∧ Z.of_nat (length seen) = q.1 * b + q.2.
Proof.
  intros Hl.
  assert (grid_pairs a b !! length seen = Some q) as Hq.
  { rewrite Hl. by apply list_lookup_middle. }
  assert (length seen < Z.to_nat a * Z.to_nat b)%nat as Hlt.
  { rewrite <- grid_pairs_length. by eapply lookup_lt_Some. }
  assert (0 < b) as Hb by nia.
  set (n := Z.of_nat (length seen)).
  assert (0 ≤ n `div` b < a) as Hx.
  { split; [apply Z.div_pos; lia |]. apply Z.div_lt_upper_bound; nia. }
  pose proof (Z.mod_pos_bound n b Hb) as Hy.
  pose proof (grid_pairs_lookup a b _ _ Hx Hy) as Hq'.
  replace (Z.to_nat (n `div` b * b + n `mod` b)) with (length seen) in Hq'.
  2:{ pose proof (Z.div_mod n b). lia. }
  rewrite Hq in Hq'. injection Hq' as ->. simpl.
  pose proof (Z.div_mod n b). lia.
Qed.

(** ** Triangle indices *)

Lemma Qctrunc_of_Z (z : Z) : Qctrunc (Qc_of_Z z) = z.
Proof.
  unfold Qctrunc. destruct (decide _).
  - apply Qfloor_Z.
  - apply Qceiling_Z.
Qed.

Lemma ToUint32_of_Z (z : Z) : ToUint32 (of_Z z) = z `mod` 2 ^ 32.
Proof. unfold ToUint32, of_Z. by rewrite Qctrunc_of_Z. Qed.

Lemma quad_block_length (p : props) (q : Z * Z) :
  length (quad_block p q) = 6%nat.
Proof. done. Qed.

Lemma store_quad_block (p : props) (pre old post : list Z) (q : Z * Z) :
  length old = 6%nat →
  store_quad p (pre ++ old ++ post, Z.of_nat (length pre)) q.1 q.2
  = (pre ++ quad_block p q ++ post, Z.of_nat (length pre) + 6).
Proof.
  intros Hold. unfold store_quad, quad_block.
  destruct_block old Hold.
  rewrite (array_set_app pre _ _ 0) by lia.
  rewrite (array_set_app pre _ _ 1) by lia.
  rewrite (array_set_app pre _ _ 2) by lia.
  rewrite (array_set_app pre _ _ 3) by lia.
  rewrite (array_set_app pre _ _ 4) by lia.
  rewrite (array_set_app pre _ _ 5) by lia.
  done.
Qed.

Lemma calculateIndices_filled (p : props) :
  1 ≤ uCount p → 1 ≤ vCount p →
  calculateIndices p
  = Normal (mjoin (quad_block p <$> grid_pairs (uCount p - 1) (vCount p - 1)),
            [Call_setVertexCount ((uCount p - 1) * (vCount p - 1) * 2 * 3)]).
Proof.
  intros Hu Hv. unfold calculateIndices, new_array.
  rewrite decide_False by nia. cbn [bind]. do 2 f_equal.
  rewrite (foldl_nested (store_quad p)).
  fold (grid_pairs (uCount p - 1) (vCount p - 1)).
  set (quads := grid_pairs _ _).
  set (init := replicate _ 0).
  assert (length init = (length quads * 6)%nat) as Hinit.
  { unfold init, quads. rewrite length_replicate, grid_pairs_length. nia. }
  set (step := λ (s : list Z * Z) (xy : Z * Z), _).
  assert (foldl step (init, 0) quads
          = (mjoin (quad_block p <$> quads) ++ drop (length quads * 6) init,
             Z.of_nat (length quads) * 6)) as ->.
  2:{ simpl. by rewrite drop_ge, app_nil_r by lia. }
  apply (foldl_prefix_ind step
    (λ seen s, s = (mjoin (quad_block p <$> seen)
                      ++ drop (length seen * 6) init,
                    Z.of_nat (length seen) * 6))).
  { done. }
  intros seen q rest s Hl ->.
  assert (S (length seen) ≤ length quads)%nat as Hlen.
  { rewrite Hl, length_app. simpl. lia. }
  assert (Forall (λ b, length b = 6%nat) (quad_block p <$> seen)) as Hk.
  { apply Forall_fmap, Forall_true. intros ?. apply quad_block_length. }
  rewrite (next_block 6 (length seen) init) by lia.
  replace (Z.of_nat (length seen) * 6)
    with (Z.of_nat (length (mjoin (quad_block p <$> seen)))).
  2:{ rewrite (filled_length 6), length_fmap by done. lia. }
  unfold step. rewrite store_quad_block.
  2:{ rewrite length_take, length_drop. lia. }
  rewrite (filled_length 6), length_fmap by done.
  rewrite fmap_app, join_app, length_app. simpl.
  rewrite <- app_assoc. simpl. do 2 f_equal.
  - do 7 f_equal. lia.
  - lia.
Qed.

Lemma elem_of_grid_pairs (a b : Z) (q : Z * Z) :
  q ∈ grid_pairs a b → 0 ≤ q.1 < a ∧ 0 ≤ q.2 < b.
Proof.
  intros (seen & rest & Hl)%list_elem_of_split.
  destruct (grid_pairs_split _ _ _ _ _ Hl) as (? & ? & _). done.
Qed.

Lemma take_drop_block {A : Type} (k j : nat) (blocks : list (list A))
    (b : list A) :
  Forall (λ b, length b = k) blocks →
  blocks !! j = Some b →
  take k (drop (j * k) (mjoin blocks)) = b.
Proof.
  intros Hk. revert j.
  induction Hk as [|b0 blocks Hb0 _ IH]; intros j Hj; [done |].
  destruct j as [|j]; simpl in *.
  - injection Hj as ->. rewrite drop_0. by rewrite take_app_length' by done.
  - rewrite drop_app_ge by lia.
    replace (k + j * k - length b0)%nat with (j * k)%nat by lia.
    by apply IH.
Qed.

(** C2. For [uCount, vCount >= 2], [calculateIndices] produces an index
    buffer of exactly [(uCount - 1) * (vCount - 1) * 6] entries, each of
    them an integer in [[0, uCount * vCount)]. *)
Theorem index_buffer_size_and_bounds (p : props) :
  2 ≤ uCount p → 2 ≤ vCount p →
  ∃ (indices : list Z) (calls : list event),
    calculateIndices p = Normal (indices, calls)
    ∧ Z.of_nat (length indices) = (uCount p - 1) * (vCount p - 1) * 6
    ∧ Forall (λ index, 0 ≤ index < uCount p * vCount p) indices.
Proof.
  intros Hu Hv. eexists _, _.
  split; [apply calculateIndices_filled; lia |].
  split.
  - rewrite (filled_length 6).
    + rewrite length_fmap, grid_pairs_length. lia.
    + apply Forall_fmap, Forall_true. intros ?. apply quad_block_length.
  - apply Forall_forall. intros index Hin.
    apply list_elem_of_join in Hin as (block & Hindex & Hblock).
    apply list_elem_of_fmap in Hblock as (q & -> & Hq).
    apply elem_of_grid_pairs in Hq as [Hx Hy].
    unfold quad_block in Hindex.
    apply list_elem_of_fmap in Hindex as (i & -> & Hi).
    rewrite ToUint32_of_Z.
    assert (0 ≤ i < uCount p * vCount p) as Hrange.
    { repeat (apply elem_of_cons in Hi as [->|Hi]); [nia.. |].
      by apply elem_of_nil in Hi. }
    pose proof (Z.mod_pos_bound i (2 ^ 32)).
    pose proof (Z.mod_le i (2 ^ 32)).
    lia.
Qed.

Lemma index_buffer_size_and_bounds_witness :
  ∃ (indices : list Z) (calls : list event),
    calculateIndices (example_props 3 3) = Normal (indices, calls)
    ∧ Z.of_nat (length indices) = 24
    ∧ Forall (λ index, 0 ≤ index < 9) indices.
Proof.
  apply (index_buffer_size_and_bounds (example_props 3 3)); simpl; lia.
Defined.

(** C3. For [uCount, vCount >= 2] and a quad [(xIndex, yIndex)] with
    [xIndex < uCount - 1], [yIndex < vCount - 1], the six slots that
    [calculateIndices] fills for the quad hold the triangles [(i0, i2, i1)]
    and [(i1, i2, i3)], in this order, where
    [i0 = yIndex * uCount + xIndex], [i1 = i0 + 1], [i2 = i0 + uCount],
    [i3 = i2 + 1].  The quads are stored [xIndex] outer, [yIndex] inner.
    The slots hold the indices as elements of a [Uint32Array]: they are
    the indices themselves on every grid whose vertex indices are 32-bit,
    [uCount * vCount <= 2^32]. *)
Theorem quad_triangulation (p : props) (xIndex yIndex : Z) :
  2 ≤ uCount p → 2 ≤ vCount p →
  0 ≤ xIndex < uCount p - 1 → 0 ≤ yIndex < vCount p - 1 →
  let i0 := yIndex * uCount p + xIndex in
  let i1 := i0 + 1 in
  let i2 := i0 + uCount p in
  let i3 := i2 + 1 in
  let quad := xIndex * (vCount p - 1) + yIndex in
  ∃ (indices : list Z) (calls : list event),
    calculateIndices p = Normal (indices, calls)
    ∧ take 6 (drop (Z.to_nat (quad * 6)) indices)
      = (λ i, ToUint32 (of_Z i)) <$> [i0; i2; i1; i1; i2; i3]
    ∧ (uCount p * vCount p ≤ 2 ^ 32 →
       take 6 (drop (Z.to_nat (quad * 6)) indices)
       = [i0; i2; i1; i1; i2; i3]).
Proof.
  intros Hu Hv Hx Hy i0 i1 i2 i3 quad. eexists _, _.
  split; [apply calculateIndices_filled; lia |].
  replace (Z.to_nat (quad * 6)) with (Z.to_nat quad * 6)%nat by lia.
  rewrite (take_drop_block 6 _ _ (quad_block p (xIndex, yIndex))).
  - split; [done |]. intros Hfit.
    unfold quad_block. cbn [fmap list_fmap fst snd]. rewrite !ToUint32_of_Z.
    rewrite !Z.mod_small by (subst i0 i1 i2 i3; nia). done.
  - apply Forall_fmap, Forall_true. intros ?. apply quad_block_length.
  - rewrite list_lookup_fmap. unfold quad.
    by rewrite grid_pairs_lookup by lia.
Qed.

Lemma quad_triangulation_witness :
  ∃ (indices : list Z) (calls : list event),
    calculateIndices (example_props 3 3) = Normal (indices, calls)
    ∧ take 6 (drop 18 indices)
      = (λ i, ToUint32 (of_Z i)) <$> [4; 7; 5; 5; 7; 8]
    ∧ (9 ≤ 2 ^ 32 → take 6 (drop 18 indices) = [4; 7; 5; 5; 7; 8]).
Proof.
  apply (quad_triangulation (example_props 3 3) 1 1); simpl; lia.
Defined.

(** ** Positions: the sampling pass *)

Lemma sample_block_length (p : props) (vu : Z * Z) :
  length (sample_block p vu) = 4%nat.
Proof. done. Qed.

Lemma sample_vertex_block (p : props) (s : sampling) (vu : Z * Z)
    (pre old post : list number) :
  samples s = pre ++ old ++ post →
  offset s = Z.of_nat (length pre) →
  length old = 4%nat →
  sample_vertex p s vu.1 vu.2
  = {| xMin := Math_min (xMin s) (sanitized_x p vu);
       xMax := Math_max (xMax s) (sanitized_x p vu);
       yMin := Math_min (yMin s) (sanitized_y p vu);
       yMax := Math_max (yMax s) (sanitized_y p vu);
       zMin := Math_min (zMin s) (sanitized_z p vu);
       zMax := Math_max (zMax s) (sanitized_z p vu);
       samples := pre ++ sample_block p vu ++ post;
       offset := Z.of_nat (length pre) + 4;
       sample_calls :=
         sample_calls s
         ++ [Call_getPosition (vertex_u p vu.2) (vertex_v p vu.1)] |}.
Proof.
  intros Hs Ho Hold.
  unfold sample_vertex, sample_block, sanitized_x, sanitized_y, sanitized_z,
    sampled, all_finite, sanitize.
  fold (vertex_u p vu.2). fold (vertex_v p vu.1).
  destruct (getPosition p (vertex_u p vu.2) (vertex_v p vu.1)) as [[x y] z].
  rewrite Hs, Ho. cbn [fst snd].
  destruct_block old Hold.
  rewrite (array_set_app pre _ _ 0) by lia.
  rewrite (array_set_app pre _ _ 1) by lia.
  rewrite (array_set_app pre _ _ 2) by lia.
  rewrite (array_set_app pre _ _ 3) by lia.
  by destruct (isFinite x), (isFinite y), (isFinite z).
Qed.

Lemma sample_grid_spec (p : props) (init : list number) :
  length init = (length (vertices p) * 4)%nat →
  sample_grid p init = sampling_after p init (vertices p).
Proof.
  intros Hinit. unfold sample_grid.
  rewrite (foldl_nested (sample_vertex p)).
  fold (grid_pairs (vCount p) (uCount p)). fold (vertices p).
  apply (foldl_prefix_ind _ (λ seen s, s = sampling_after p init seen)).
  { unfold sampling_after. simpl. by rewrite drop_0. }
  intros seen vu rest s Hl ->.
  assert (S (length seen) ≤ length (vertices p))%nat as Hlen.
  { rewrite Hl, length_app. simpl. lia. }
  assert (Forall (λ b, length b = 4%nat) (sample_block p <$> seen)) as Hk.
  { apply Forall_fmap, Forall_true. intros ?. apply sample_block_length. }
  rewrite (sample_vertex_block p _ vu
             (mjoin (sample_block p <$> seen))
             (take 4 (drop (length seen * 4) init))
             (drop (S (length seen) * 4) init)).
  - unfold sampling_after, observed_extent.
    cbn [min max xMin xMax yMin yMax zMin zMax sample_calls].
    rewrite !fmap_app, !foldl_app, join_app, length_app, <- app_assoc.
    rewrite (filled_length 4), length_fmap by done.
    simpl. f_equal; [do 5 f_equal | ]; [f_equal |]; lia.
  - simpl. f_equal. apply (next_block 4). lia.
  - simpl. rewrite (filled_length 4), length_fmap by done. lia.
  - rewrite length_take, length_drop. lia.
Qed.

(** ** Positions: the rescaling pass *)

Lemma array_get_app (pre l : list number) (i : Z) (r : nat) :
  i = Z.of_nat (length pre) + Z.of_nat r →
  array_get (pre ++ l) i = default NaN (l !! r).
Proof.
  intros ->. unfold array_get. rewrite decide_True by lia.
  replace (Z.to_nat (Z.of_nat (length pre) + Z.of_nat r))
    with (length pre + r)%nat by lia.
  by rewrite lookup_app_r, Nat.add_comm, Nat.add_sub by lia.
Qed.

Lemma rescale_vertex_block (xScale yScale zScale : number → number)
    (pre b post : list number) (calls : list event) (j : Z) :
  Z.of_nat (length pre) = j * 4 → length b = 4%nat →
  rescale_vertex xScale yScale zScale (pre ++ b ++ post, calls) j
  = (pre ++ rescale_block xScale yScale zScale b ++ post,
     calls ++ rescale_calls b).
Proof.
  intros Hpre Hb. unfold rescale_vertex.
  destruct_block b Hb.
  rename n into x, n0 into z, n1 into y, n2 into flag.
  rewrite (array_get_app pre _ _ 3) by lia. simpl.
  destruct (falsy flag); [|by rewrite app_nil_r].
  rewrite (array_get_app pre _ _ 0) by lia.
  rewrite (array_set_app pre _ _ 0) by lia.
  rewrite (array_get_app pre _ _ 1) by lia.
  rewrite (array_set_app pre _ _ 1) by lia.
  rewrite (array_get_app pre _ _ 2) by lia.
  rewrite (array_set_app pre _ _ 2) by lia.
  done.
Qed.

Lemma rescale_block_length (xScale yScale zScale : number → number)
    (b : list number) :
  length (rescale_block xScale yScale zScale b) = length b.
Proof.
  unfold rescale_block.
  repeat (destruct b as [|? b]; try done).
  by destruct (falsy _).
Qed.

Lemma rescale_loop (xScale yScale zScale : number → number)
    (blocks : list (list number)) (calls : list event) :
  Forall (λ b, length b = 4%nat) blocks →
  foldl (rescale_vertex xScale yScale zScale) (mjoin blocks, calls)
    (seqZ 0 (Z.of_nat (length blocks)))
  = (mjoin (rescale_block xScale yScale zScale <$> blocks),
     calls ++ mjoin (rescale_calls <$> blocks)).
Proof.
  intros Hk.
  set (N := Z.of_nat (length blocks)).
  assert (foldl (rescale_vertex xScale yScale zScale) (mjoin blocks, calls)
            (seqZ 0 N)
          = (mjoin (rescale_block xScale yScale zScale
                      <$> take (length (seqZ 0 N)) blocks)
               ++ mjoin (drop (length (seqZ 0 N)) blocks),
             calls ++ mjoin (rescale_calls
                               <$> take (length (seqZ 0 N)) blocks))) as ->.
  2:{ rewrite length_seqZ. unfold N. rewrite Nat2Z.id.
      by rewrite firstn_all, drop_all, app_nil_r. }
  apply (foldl_prefix_ind _
    (λ seen s, s = (mjoin (rescale_block xScale yScale zScale
                             <$> take (length seen) blocks)
                      ++ mjoin (drop (length seen) blocks),
                    calls ++ mjoin (rescale_calls
                                      <$> take (length seen) blocks)))).
  { simpl. by rewrite drop_0, app_nil_r. }
  intros seen j rest s Hl ->.
  destruct (seqZ_split _ _ _ _ Hl) as [-> Hlt].
  destruct (lookup_lt_is_Some_2 blocks (length seen)) as [b Hb]; [lia |].
  assert (length b = 4%nat) as Hb4 by (by eapply (Forall_lookup_1 _ _ _ _ Hk)).
  rewrite length_app. cbn [length]. rewrite Nat.add_1_r.
  rewrite (take_S_r _ _ _ Hb), (drop_S _ _ _ Hb).
  change (mjoin (b :: ?l)) with (b ++ mjoin l).
  rewrite rescale_vertex_block.
  - rewrite !fmap_app, !join_app. simpl. by rewrite !app_nil_r, <- !app_assoc.
  - rewrite (filled_length 4).
    + rewrite length_fmap, length_take. lia.
    + apply Forall_fmap. eapply Forall_impl; [apply Forall_take, Hk |].
      intros b' Hb'. simpl. by rewrite rescale_block_length.
  - done.
Qed.

Lemma sampled_blocks_length (p : props) :
  Forall (λ b, length b = 4%nat) (sampled_blocks p).
Proof.
  apply Forall_fmap, Forall_true. intros ?. apply sample_block_length.
Qed.

Lemma vertices_length (p : props) :
  0 ≤ uCount p → 0 ≤ vCount p →
  Z.of_nat (length (vertices p)) = uCount p * vCount p.
Proof. intros Hu Hv. unfold vertices. rewrite grid_pairs_length. lia. Qed.

(** The value of the positions attribute and the calls of one
    recomputation, in order: the samples, the three scale factories, the
    scale applications, [onUpdate]. *)
Lemma calculatePositions_spec (p : props) :
  0 ≤ uCount p → 0 ≤ vCount p →
  calculatePositions p (uCount p * vCount p) 4
  = Normal
      (mjoin (position_blocks p),
       sampling_calls p
       ++ [Call_getXScale (x_extent p);
           Call_getYScale (y_extent p);
           Call_getZScale (z_extent p)]
       ++ mjoin (rescale_calls <$> sampled_blocks p)
       ++ [Call_onUpdate (xScale_of p) (yScale_of p) (zScale_of p)]).
Proof.
  intros Hu Hv. pose proof (vertices_length p Hu Hv) as HN.
  unfold calculatePositions, new_array.
  rewrite decide_False by lia. cbn [bind].
  rewrite sample_grid_spec by (rewrite length_replicate; lia).
  unfold make_scales, sampling_after.
  cbn [xMin xMax yMin yMax zMin zMax samples sample_calls].
  rewrite drop_ge, app_nil_r by (rewrite length_replicate; lia).
  change {| min := min (observed_extent (sanitized_x p <$> vertices p));
            max := max (observed_extent (sanitized_x p <$> vertices p)) |}
    with (x_extent p).
  change {| min := min (observed_extent (sanitized_y p <$> vertices p));
            max := max (observed_extent (sanitized_y p <$> vertices p)) |}
    with (y_extent p).
  change {| min := min (observed_extent (sanitized_z p <$> vertices p));
            max := max (observed_extent (sanitized_z p <$> vertices p)) |}
    with (z_extent p).
  fold (xScale_of p) (yScale_of p) (zScale_of p) (sampled_blocks p).
  replace (uCount p * vCount p) with (Z.of_nat (length (sampled_blocks p)))
    by (unfold sampled_blocks; rewrite length_fmap; lia).
  rewrite rescale_loop by apply sampled_blocks_length.
  fold (position_blocks p) (sampling_calls p).
  by rewrite <- !app_assoc.
Qed.

(** ** Colours *)

Lemma color_block_length (p : props) (b : list number) :
  length (color_block p b) = 4%nat.
Proof.
  unfold color_block, color_bytes.
  destruct (color_args b) as [[x y] z].
  by destruct (getColor p x y z) as [[[??]?]?].
Qed.

Lemma array_get_block (blocks : list (list number)) (b : list number)
    (i : Z) (j r : nat) :
  Forall (λ b, length b = 4%nat) blocks →
  blocks !! j = Some b → (r < 4)%nat →
  i = Z.of_nat j * 4 + Z.of_nat r →
  array_get (mjoin blocks) i = default NaN (b !! r).
Proof.
  intros Hk Hb Hr ->. unfold array_get. rewrite decide_True by lia.
  replace (Z.to_nat (Z.of_nat j * 4 + Z.of_nat r))
    with (j * 4 + r)%nat by lia.
  rewrite <- (app_nil_r (mjoin blocks)).
  by rewrite (lookup_block 4 _ _ _ _ b).
Qed.

Lemma color_vertex_block (p : props) (blocks : list (list number))
    (b : list number) (j : nat) (pre old post : list Z)
    (calls : list event) :
  Forall (λ b, length b = 4%nat) blocks →
  blocks !! j = Some b →
  length pre = (j * 4)%nat → length old = 4%nat →
  color_vertex p (mjoin blocks) (pre ++ old ++ post, calls) (Z.of_nat j)
  = (pre ++ color_block p b ++ post, calls ++ [color_call b]).
Proof.
  intros Hk Hb Hpre Hold.
  unfold color_vertex, color_block, color_call, color_args, color_bytes.
  rewrite (array_get_block blocks b _ j 0) by (done || lia).
  rewrite (array_get_block blocks b _ j 2) by (done || lia).
  rewrite (array_get_block blocks b _ j 1) by (done || lia).
  destruct (getColor p _ _ _) as [[[c0 c1] c2] c3].
  destruct_block old Hold.
  rewrite (array_set_app pre _ _ 0) by lia.
  rewrite (array_set_app pre _ _ 1) by lia.
  rewrite (array_set_app pre _ _ 2) by lia.
  rewrite (array_set_app pre _ _ 3) by lia.
  done.
Qed.

Lemma calculateColors_spec (p : props) (blocks : list (list number)) :
  Forall (λ b, length b = 4%nat) blocks →
  calculateColors p (Z.of_nat (length blocks)) 4 (mjoin blocks)
  = Normal (mjoin (color_block p <$> blocks), color_call <$> blocks).
Proof.
  intros Hk. unfold calculateColors, new_array.
  rewrite decide_False by lia. cbn [bind]. f_equal.
  set (N := Z.of_nat (length blocks)).
  set (init := replicate (Z.to_nat (N * 4)) 0).
  assert (foldl (color_vertex p (mjoin blocks)) (init, []) (seqZ 0 N)
          = (mjoin (color_block p <$> take (length (seqZ 0 N)) blocks)
               ++ drop (length (seqZ 0 N) * 4) init,
             color_call <$> take (length (seqZ 0 N)) blocks)) as ->.
  2:{ rewrite length_seqZ. unfold N. rewrite Nat2Z.id, firstn_all.
      rewrite drop_ge, app_nil_r; [done |].
      unfold init, N. rewrite length_replicate. lia. }
  apply (foldl_prefix_ind _
    (λ seen s, s = (mjoin (color_block p <$> take (length seen) blocks)
                      ++ drop (length seen * 4) init,
                    color_call <$> take (length seen) blocks))).
  { done. }
  intros seen i rest s Hl ->.
  destruct (seqZ_split _ _ _ _ Hl) as [-> Hlt].
  destruct (lookup_lt_is_Some_2 blocks (length seen)) as [b Hb]; [lia |].
  rewrite length_app. cbn [length]. rewrite Nat.add_1_r.
  rewrite (take_S_r _ _ _ Hb), !fmap_app, join_app.
  assert (Forall (λ b, length b = 4%nat)
            (color_block p <$> take (length seen) blocks)) as Hk'.
  { apply Forall_fmap, Forall_true. intros ?. apply color_block_length. }
  rewrite (next_block 4 (length seen) init)
    by (unfold init, N; rewrite length_replicate; lia).
  remember (take 4 (drop (length seen * 4) init)) as old eqn:Hold.
  assert (length old = 4%nat) as Hold4.
  { subst old. rewrite length_take, length_drop. unfold init, N.
    rewrite length_replicate. lia. }
  assert (length (mjoin (color_block p <$> take (length seen) blocks))
          = (length seen * 4)%nat) as Hpre.
  { rewrite (filled_length 4), length_fmap, length_take by done. lia. }
  rewrite (color_vertex_block p blocks b (length seen)) by (done || lia).
  clear Hold. simpl. by rewrite app_nil_r, <- !app_assoc.
Qed.

(** ** The attributes of a vertex *)

Lemma fround_0 : fround (of_Z 0) = of_Z 0.
Proof. by_compute. Qed.

Lemma fround_1 : fround (of_Z 1) = of_Z 1.
Proof. by_compute. Qed.

Lemma sanitize_finite (x : number) : isFinite x = true → sanitize x = x.
Proof. unfold sanitize. by intros ->. Qed.

Lemma vertices_lookup (p : props) (vIndex uIndex : Z) :
  0 ≤ uIndex < uCount p → 0 ≤ vIndex < vCount p →
  vertices p !! Z.to_nat (vIndex * uCount p + uIndex)
  = Some (vIndex, uIndex).
Proof. intros Hu Hv. by apply grid_pairs_lookup. Qed.

(** The block of a vertex in an array of blocks of four. *)
Lemma vertex_block {A B : Type} (f : B → list A) (l : list B) (b : B)
    (i : Z) :
  (∀ x, length (f x) = 4%nat) →
  0 ≤ i → l !! Z.to_nat i = Some b →
  take 4 (drop (Z.to_nat (i * 4)) (mjoin (f <$> l))) = f b.
Proof.
  intros Hf Hi Hb.
  replace (Z.to_nat (i * 4)) with (Z.to_nat i * 4)%nat by lia.
  apply take_drop_block.
  - apply Forall_fmap, Forall_true. intros x. apply Hf.
  - by rewrite list_lookup_fmap, Hb.
Qed.

Lemma sample_block_invalid (p : props) (vu : Z * Z) :
  all_finite (sampled p vu) = false →
  sample_block p vu
  = [fround (sanitized_x p vu); fround (sanitized_z p vu);
     fround (sanitized_y p vu); of_Z 1].
Proof. intros H. unfold sample_block. by rewrite H, fround_1. Qed.

Lemma sample_block_valid (p : props) (vu : Z * Z) :
  all_finite (sampled p vu) = true →
  sample_block p vu
  = [fround (sampled p vu).1.1; fround (sampled p vu).2;
     fround (sampled p vu).1.2; of_Z 0].
Proof.
  intros H. unfold sample_block, sanitized_x, sanitized_y, sanitized_z.
  rewrite H, fround_0. unfold all_finite in H.
  apply andb_prop in H as [[Hx Hy]%andb_prop Hz].
  by rewrite !sanitize_finite.
Qed.

Lemma position_block_invalid (p : props) (vu : Z * Z)
    (xScale yScale zScale : number → number) :
  all_finite (sampled p vu) = false →
  rescale_block xScale yScale zScale (sample_block p vu) = sample_block p vu
  ∧ rescale_calls (sample_block p vu) = [].
Proof. intros H. by rewrite sample_block_invalid. Qed.

Lemma position_block_valid (p : props) (vu : Z * Z)
    (xScale yScale zScale : number → number) :
  all_finite (sampled p vu) = true →
  rescale_block xScale yScale zScale (sample_block p vu)
  = [fround (xScale (fround (sampled p vu).1.1));
     fround (zScale (fround (sampled p vu).2));
     fround (yScale (fround (sampled p vu).1.2)); of_Z 0]
  ∧ rescale_calls (sample_block p vu)
    = [Call_xScale (fround (sampled p vu).1.1);
       Call_zScale (fround (sampled p vu).2);
       Call_yScale (fround (sampled p vu).1.2)].
Proof. intros H. by rewrite sample_block_valid. Qed.

Lemma omap_none {A B : Type} (f : A → option B) (l : list A) :
  Forall (λ x, f x = None) l → omap f l = [].
Proof. induction 1 as [|x l Hx _ IH]; [done |]. simpl. by rewrite Hx. Qed.

Lemma omap_all {A : Type} (f : A → option A) (l : list A) :
  Forall (λ x, f x = Some x) l → omap f l = l.
Proof.
  induction 1 as [|x l Hx _ IH]; [done |]. simpl. rewrite Hx. by f_equal.
Qed.

Lemma rescale_calls_applications (blocks : list (list number)) :
  Forall (λ e, scale_application e = Some e)
    (mjoin (rescale_calls <$> blocks)).
Proof.
  apply Forall_forall. intros e (calls & He & Hcalls)%list_elem_of_join.
  apply list_elem_of_fmap in Hcalls as (b & -> & _).
  unfold rescale_calls in He.
  repeat (destruct b as [|? b]; try by apply elem_of_nil in He).
  destruct (falsy _); [|by apply elem_of_nil in He].
  repeat (apply elem_of_cons in He as [->|He]); try done.
  by apply elem_of_nil in He.
Qed.

Lemma sampling_calls_samples (p : props) :
  Forall (λ e, scale_application e = None ∧ scale_factory_call e = None)
    (sampling_calls p).
Proof. apply Forall_fmap, Forall_true. done. Qed.

Lemma positions_scale_applications (p : props) (calls : list event) :
  calls = sampling_calls p
          ++ [Call_getXScale (x_extent p);
              Call_getYScale (y_extent p);
              Call_getZScale (z_extent p)]
          ++ mjoin (rescale_calls <$> sampled_blocks p)
          ++ [Call_onUpdate (xScale_of p) (yScale_of p) (zScale_of p)] →
  omap scale_application calls = mjoin (rescale_calls <$> sampled_blocks p).
Proof.
  intros ->. rewrite !omap_app.
  rewrite (omap_none _ (sampling_calls p)).
  2:{ eapply Forall_impl; [apply sampling_calls_samples |]. by intros ? []. }
  rewrite (omap_all _ (mjoin _)) by apply rescale_calls_applications.
  simpl. by rewrite app_nil_r.
Qed.

(** C6. If [getPosition] gives a non-finite value on some axis for a
    vertex, the first pass stores the flag 1 for the vertex and 0 for each
    non-finite axis, and the second pass leaves the vertex at these
    values: it rescales the vertices whose flag is 0 and calls the scale
    functions for them only. *)
Theorem non_finite_sanitization (p : props) (vIndex uIndex : Z)
    (x y z : number) :
  0 ≤ uIndex < uCount p → 0 ≤ vIndex < vCount p →
  getPosition p (vertex_u p uIndex) (vertex_v p vIndex) = (x, y, z) →
  isFinite x && isFinite y && isFinite z = false →
  let i := vIndex * uCount p + uIndex in
  let vertexCount := uCount p * vCount p in
  let zeros := replicate (Z.to_nat (vertexCount * 4)) (of_Z 0) in
  let stored :=
    [fround (if isFinite x then x else of_Z 0);
     fround (if isFinite z then z else of_Z 0);
     fround (if isFinite y then y else of_Z 0);
     of_Z 1] in
  ∃ (blocks : list (list number)) (value : list number)
    (calls : list event),
    samples (sample_grid p zeros) = mjoin blocks
    ∧ Z.of_nat (length blocks) = vertexCount
    ∧ Forall (λ b, length b = 4%nat) blocks
    ∧ blocks !! Z.to_nat i = Some stored
    ∧ (isFinite x = false → stored !! 0%nat = Some (of_Z 0))
    ∧ (isFinite z = false → stored !! 1%nat = Some (of_Z 0))
    ∧ (isFinite y = false → stored !! 2%nat = Some (of_Z 0))
    ∧ calculatePositions p vertexCount 4 = Normal (value, calls)
    ∧ value
      = mjoin (rescale_block (getXScale p (x_extent p))
                 (getYScale p (y_extent p)) (getZScale p (z_extent p))
                 <$> blocks)
    ∧ omap scale_application calls = mjoin (rescale_calls <$> blocks)
    ∧ take 4 (drop (Z.to_nat (i * 4)) value) = stored
    ∧ rescale_calls stored = [].
Proof.
  intros Hu Hv Hxyz Hinvalid i vertexCount zeros stored.
  assert (0 ≤ uCount p ∧ 0 ≤ vCount p) as [Hu0 Hv0] by lia.
  pose proof (vertices_length p Hu0 Hv0) as HN.
  assert (all_finite (sampled p (vIndex, uIndex)) = false) as Hflag.
  { unfold all_finite, sampled. simpl. by rewrite Hxyz. }
  assert (sample_block p (vIndex, uIndex) = stored) as Hstored.
  { rewrite sample_block_invalid by done.
    unfold stored, sanitized_x, sanitized_y, sanitized_z, sampled, sanitize.
    simpl. by rewrite Hxyz. }
  exists (sampled_blocks p), (mjoin (position_blocks p)). eexists.
  unfold i. split_and!.
  - rewrite sample_grid_spec by (unfold zeros; rewrite length_replicate; lia).
    unfold sampling_after. simpl.
    rewrite drop_ge, app_nil_r; [done |].
    unfold zeros. rewrite length_replicate. lia.
  - unfold sampled_blocks. by rewrite length_fmap.
  - apply sampled_blocks_length.
  - unfold sampled_blocks. rewrite list_lookup_fmap.
    by rewrite vertices_lookup, <- Hstored by done.
  - intros Hx. unfold stored. simpl. by rewrite Hx, fround_0.
  - intros Hz. unfold stored. simpl. by rewrite Hz, fround_0.
  - intros Hy. unfold stored. simpl. by rewrite Hy, fround_0.
  - by apply calculatePositions_spec.
  - done.
  - by apply positions_scale_applications.
  - unfold position_blocks, sampled_blocks. rewrite <- list_fmap_compose.
    rewrite (vertex_block _ _ (vIndex, uIndex)).
    + cbn [compose]. by rewrite Hstored.
    + intros vu. cbn [compose]. by rewrite rescale_block_length.
    + lia.
    + by apply vertices_lookup.
  - done.
Qed.

Lemma non_finite_sanitization_witness :
  let p := pole_props 2 2 in
  let zeros := replicate 16 (of_Z 0) in
  let stored :=
    [fround (of_Z 0); fround (of_Z 0); fround (of_Z 1); of_Z 1] in
  ∃ (blocks : list (list number)) (value : list number)
    (calls : list event),
    samples (sample_grid p zeros) = mjoin blocks
    ∧ Z.of_nat (length blocks) = 4
    ∧ Forall (λ b, length b = 4%nat) blocks
    ∧ blocks !! 2%nat = Some stored
    ∧ (isFinite (of_Z 0) = false → stored !! 0%nat = Some (of_Z 0))
    ∧ (isFinite PInf = false → stored !! 1%nat = Some (of_Z 0))
    ∧ (isFinite (of_Z 1) = false → stored !! 2%nat = Some (of_Z 0))
    ∧ calculatePositions p 4 4 = Normal (value, calls)
    ∧ value
      = mjoin (rescale_block (getXScale p (x_extent p))
                 (getYScale p (y_extent p)) (getZScale p (z_extent p))
                 <$> blocks)
    ∧ omap scale_application calls = mjoin (rescale_calls <$> blocks)
    ∧ take 4 (drop 8 value) = stored
    ∧ rescale_calls stored = [].
Proof.
  intros p.
  apply (non_finite_sanitization p 1 0 (of_Z 0) (of_Z 1) PInf);
    [simpl; lia | simpl; lia | by_compute | reflexivity].
Defined.

Lemma position_blocks_length (p : props) :
  Forall (λ b, length b = 4%nat) (position_blocks p).
Proof.
  apply Forall_fmap. eapply Forall_impl; [apply sampled_blocks_length |].
  intros b Hb. simpl. by rewrite rescale_block_length.
Qed.

Lemma position_blocks_lookup (p : props) (vIndex uIndex : Z) :
  0 ≤ uIndex < uCount p → 0 ≤ vIndex < vCount p →
  position_blocks p !! Z.to_nat (vIndex * uCount p + uIndex)
  = Some (rescale_block (xScale_of p) (yScale_of p) (zScale_of p)
            (sample_block p (vIndex, uIndex))).
Proof.
  intros Hu Hv. unfold position_blocks, sampled_blocks.
  by rewrite !list_lookup_fmap, vertices_lookup.
Qed.

(** Positions, then colours from them. *)
Lemma positions_then_colors (p : props) :
  0 ≤ uCount p → 0 ≤ vCount p →
  ∃ pcalls : list event,
    calculatePositions p (uCount p * vCount p) 4
    = Normal (mjoin (position_blocks p), pcalls)
    ∧ calculateColors p (uCount p * vCount p) 4 (mjoin (position_blocks p))
      = Normal (mjoin (color_block p <$> position_blocks p),
                color_call <$> position_blocks p).
Proof.
  intros Hu Hv. eexists. split; [by apply calculatePositions_spec |].
  replace (uCount p * vCount p)
    with (Z.of_nat (length (position_blocks p))).
  - apply calculateColors_spec, position_blocks_length.
  - unfold position_blocks, sampled_blocks. rewrite !length_fmap.
    by apply vertices_length.
Qed.

Lemma color_call_args (p : props) (vIndex uIndex : Z) (b : list number) :
  0 ≤ uIndex < uCount p → 0 ≤ vIndex < vCount p →
  position_blocks p !! Z.to_nat (vIndex * uCount p + uIndex) = Some b →
  let i := vIndex * uCount p + uIndex in
  let positions := mjoin (position_blocks p) in
  (color_call <$> position_blocks p) !! Z.to_nat i
  = Some (Call_getColor (array_get positions (i * 4))
            (array_get positions (i * 4 + 2))
            (array_get positions (i * 4 + 1)))
  ∧ array_get positions (i * 4) = default NaN (b !! 0%nat)
  ∧ array_get positions (i * 4 + 2) = default NaN (b !! 2%nat)
  ∧ array_get positions (i * 4 + 1) = default NaN (b !! 1%nat).
Proof.
  intros Hu Hv Hb i positions. unfold positions, i.
  pose proof (position_blocks_length p) as Hk.
  rewrite (array_get_block _ b _ (Z.to_nat (vIndex * uCount p + uIndex)) 0)
    by (done || nia).
  rewrite (array_get_block _ b _ (Z.to_nat (vIndex * uCount p + uIndex)) 2)
    by (done || nia).
  rewrite (array_get_block _ b _ (Z.to_nat (vIndex * uCount p + uIndex)) 1)
    by (done || nia).
  by rewrite list_lookup_fmap, Hb.
Qed.

(** C7, as the code has it. For every vertex, [calculateColors] calls
    [getColor] with the first, the third and the second stored component
    of the vertex in the positions attribute, in this order, which undoes
    the y/z swap of the storage.  These are the coordinates as
    [calculatePositions] left them: for a vertex that is finite on every
    axis, the scaled coordinates [xScale(x)], [yScale(y)], [zScale(z)] (as
    32-bit floats), not the sampled [(x, y, z)]. *)
Theorem color_callback_arguments (p : props) (vIndex uIndex : Z)
    (x y z : number) :
  0 ≤ uIndex < uCount p → 0 ≤ vIndex < vCount p →
  getPosition p (vertex_u p uIndex) (vertex_v p vIndex) = (x, y, z) →
  let i := vIndex * uCount p + uIndex in
  let vertexCount := uCount p * vCount p in
  ∃ (positions : list number) (pcalls : list event)
    (colors : list Z) (ccalls : list event),
    calculatePositions p vertexCount 4 = Normal (positions, pcalls)
    ∧ calculateColors p vertexCount 4 positions = Normal (colors, ccalls)
    ∧ Z.of_nat (length ccalls) = vertexCount
    ∧ ccalls !! Z.to_nat i
      = Some (Call_getColor (array_get positions (i * 4))
                (array_get positions (i * 4 + 2))
                (array_get positions (i * 4 + 1)))
    ∧ (isFinite x && isFinite y && isFinite z = true →
       array_get positions (i * 4)
       = fround (getXScale p (x_extent p) (fround x))
       ∧ array_get positions (i * 4 + 2)
         = fround (getYScale p (y_extent p) (fround y))
       ∧ array_get positions (i * 4 + 1)
         = fround (getZScale p (z_extent p) (fround z))).
Proof.
  intros Hu Hv Hxyz i vertexCount.
  assert (0 ≤ uCount p ∧ 0 ≤ vCount p) as [Hu0 Hv0] by lia.
  destruct (positions_then_colors p Hu0 Hv0) as (pcalls & Hpos & Hcol).
  pose proof (position_blocks_lookup p vIndex uIndex Hu Hv) as Hb.
  destruct (color_call_args p vIndex uIndex _ Hu Hv Hb)
    as (Hcall & Hx & Hy & Hz).
  eexists _, _, _, _. split_and!; [exact Hpos | exact Hcol | | exact Hcall |].
  - unfold position_blocks, sampled_blocks. rewrite !length_fmap.
    by apply vertices_length.
  - intros Hfinite. fold i in Hx, Hy, Hz. rewrite Hx, Hy, Hz.
    assert (all_finite (sampled p (vIndex, uIndex)) = true) as Hvalid.
    { unfold all_finite, sampled. simpl. by rewrite Hxyz. }
    destruct (position_block_valid p (vIndex, uIndex) (xScale_of p)
                (yScale_of p) (zScale_of p) Hvalid) as [-> _].
    unfold sampled. simpl. by rewrite Hxyz.
Qed.

Lemma color_callback_arguments_witness :
  let p := example_props 2 2 in
  ∃ (positions : list number) (pcalls : list event)
    (colors : list Z) (ccalls : list event),
    calculatePositions p 4 4 = Normal (positions, pcalls)
    ∧ calculateColors p 4 4 positions = Normal (colors, ccalls)
    ∧ Z.of_nat (length ccalls) = 4
    ∧ ccalls !! 1%nat
      = Some (Call_getColor (array_get positions 4)
                (array_get positions 6) (array_get positions 5))
    ∧ (isFinite (of_Z 3) && isFinite (of_Z 0) && isFinite (of_Z 1) = true →
       array_get positions 4
       = fround (normalise (x_extent p) (fround (of_Z 3)))
       ∧ array_get positions 6
         = fround (normalise (y_extent p) (fround (of_Z 0)))
       ∧ array_get positions 5
         = fround (normalise (z_extent p) (fround (of_Z 1)))).
Proof.
  intros p.
  apply (color_callback_arguments p 0 1 (of_Z 3) (of_Z 0) (of_Z 1));
    [simpl; lia | simpl; lia | by_compute].
Defined.

(** C7, as stated, fails on the grid 2 x 2 whose scales normalise their
    extent: the sample of vertex 0 is [(1, 0, 0)], and [getColor] is called
    with the scaled [(0, 0, 0)]. *)
Lemma getColor_receives_scaled :
  let p := example_props 2 2 in
  ∃ (positions : list number) (pcalls : list event)
    (colors : list Z) (ccalls : list event),
    calculatePositions p 4 4 = Normal (positions, pcalls)
    ∧ calculateColors p 4 4 positions = Normal (colors, ccalls)
    ∧ getPosition p (vertex_u p 0) (vertex_v p 0)
      = (of_Z 1, of_Z 0, of_Z 0)
    ∧ ccalls !! 0%nat = Some (Call_getColor (of_Z 0) (of_Z 0) (of_Z 0))
    ∧ ccalls !! 0%nat ≠ Some (Call_getColor (of_Z 1) (of_Z 0) (of_Z 0)).
Proof.
  intros p.
  assert (0 ≤ uCount p ∧ 0 ≤ vCount p) as [Hu0 Hv0] by (simpl; lia).
  destruct (positions_then_colors p Hu0 Hv0) as (pcalls & Hpos & Hcol).
  assert ((color_call <$> position_blocks p) !! 0%nat
          = Some (Call_getColor (of_Z 0) (of_Z 0) (of_Z 0))) as Hcall.
  { rewrite list_lookup_fmap.
    assert (position_blocks p !! 0%nat
            = Some (rescale_block (xScale_of p) (yScale_of p) (zScale_of p)
                      (sample_block p (0, 0)))) as ->
      by (apply (position_blocks_lookup p 0 0); simpl; lia).
    assert (all_finite (sampled p (0, 0)) = true) as Hvalid by done.
    destruct (position_block_valid p (0, 0) (xScale_of p) (yScale_of p)
                (zScale_of p) Hvalid) as [-> _].
    simpl. unfold color_call, color_args. simpl.
    do 2 f_equal; by_compute. }
  eexists _, _, _, _.
  split_and!; [exact Hpos | exact Hcol | by_compute | exact Hcall |].
  rewrite Hcall. intros [=].
Qed.

(** C10. A vertex whose sample is not finite on some axis is coloured
    from its sanitized, unscaled coordinates: [getColor] receives the
    values that the first pass stored for it, 0 on each non-finite axis,
    untouched by the scale functions, and the stored colour of the vertex
    is the one [getColor] answers for them. *)
Theorem invalid_vertex_color (p : props) (vIndex uIndex : Z)
    (x y z : number) :
  0 ≤ uIndex < uCount p → 0 ≤ vIndex < vCount p →
  getPosition p (vertex_u p uIndex) (vertex_v p vIndex) = (x, y, z) →
  isFinite x && isFinite y && isFinite z = false →
  let i := vIndex * uCount p + uIndex in
  let vertexCount := uCount p * vCount p in
  let sx := fround (if isFinite x then x else of_Z 0) in
  let sy := fround (if isFinite y then y else of_Z 0) in
  let sz := fround (if isFinite z then z else of_Z 0) in
  ∃ (positions : list number) (pcalls : list event)
    (colors : list Z) (ccalls : list event),
    calculatePositions p vertexCount 4 = Normal (positions, pcalls)
    ∧ calculateColors p vertexCount 4 positions = Normal (colors, ccalls)
    ∧ ccalls !! Z.to_nat i = Some (Call_getColor sx sy sz)
    ∧ (isFinite x = false → sx = of_Z 0)
    ∧ (isFinite y = false → sy = of_Z 0)
    ∧ (isFinite z = false → sz = of_Z 0)
    ∧ take 4 (drop (Z.to_nat (i * 4)) colors)
      = color_bytes (getColor p sx sy sz).
Proof.
  intros Hu Hv Hxyz Hinvalid i vertexCount sx sy sz.
  assert (0 ≤ uCount p ∧ 0 ≤ vCount p) as [Hu0 Hv0] by lia.
  destruct (positions_then_colors p Hu0 Hv0) as (pcalls & Hpos & Hcol).
  pose proof (position_blocks_lookup p vIndex uIndex Hu Hv) as Hb.
  assert (all_finite (sampled p (vIndex, uIndex)) = false) as Hflag.
  { unfold all_finite, sampled. simpl. by rewrite Hxyz. }
  destruct (position_block_invalid p (vIndex, uIndex) (xScale_of p)
              (yScale_of p) (zScale_of p) Hflag) as [Hblock _].
  rewrite Hblock, sample_block_invalid in Hb by done.
  assert (sanitized_x p (vIndex, uIndex) = (if isFinite x then x else of_Z 0)
          ∧ sanitized_y p (vIndex, uIndex)
            = (if isFinite y then y else of_Z 0)
          ∧ sanitized_z p (vIndex, uIndex)
            = (if isFinite z then z else of_Z 0)) as (Hsx & Hsy & Hsz).
  { unfold sanitized_x, sanitized_y, sanitized_z, sampled, sanitize. simpl.
    by rewrite Hxyz. }
  rewrite Hsx, Hsy, Hsz in Hb. fold sx sy sz in Hb.
  eexists _, _, _, _. split_and!; [exact Hpos | exact Hcol | ..].
  - unfold i. by rewrite list_lookup_fmap, Hb.
  - intros H. unfold sx. by rewrite H, fround_0.
  - intros H. unfold sy. by rewrite H, fround_0.
  - intros H. unfold sz. by rewrite H, fround_0.
  - rewrite (vertex_block _ _ [sx; sz; sy; of_Z 1]); [done | | lia | done].
    intros b. apply color_block_length.
Qed.

Lemma invalid_vertex_color_witness :
  let p := pole_props 2 2 in
  ∃ (positions : list number) (pcalls : list event)
    (colors : list Z) (ccalls : list event),
    calculatePositions p 4 4 = Normal (positions, pcalls)
    ∧ calculateColors p 4 4 positions = Normal (colors, ccalls)
    ∧ ccalls !! 2%nat
      = Some (Call_getColor (fround (of_Z 0)) (fround (of_Z 1))
                (fround (of_Z 0)))
    ∧ (isFinite (of_Z 0) = false → fround (of_Z 0) = of_Z 0)
    ∧ (isFinite (of_Z 1) = false → fround (of_Z 1) = of_Z 0)
    ∧ (isFinite PInf = false → fround (of_Z 0) = of_Z 0)
    ∧ take 4 (drop 8 colors)
      = color_bytes
          (getColor p (fround (of_Z 0)) (fround (of_Z 1)) (fround (of_Z 0))).
Proof.
  intros p.
  apply (invalid_vertex_color p 1 0 (of_Z 0) (of_Z 1) PInf);
    [simpl; lia | simpl; lia | by_compute | reflexivity].
Defined.

(** ** Extents *)

Lemma sanitize_isFinite (x : number) : isFinite (sanitize x) = true.
Proof. unfold sanitize. by destruct x. Qed.

Lemma running_min (values : list number) :
  Forall (λ x, isFinite x = true) values →
  let m := foldl Math_min PInf values in
  (∀ x, x ∈ values → num_le m x)
  ∧ (values = [] ∧ m = PInf ∨ m ∈ values).
Proof.
  induction values as [|x l IH] using rev_ind; intros Hfin m.
  { split; [|by left]. intros x Hx. by apply elem_of_nil in Hx. }
  apply Forall_app in Hfin as [Hl Hx]. apply Forall_inv in Hx.
  destruct (IH Hl) as [Hle Hin]. subst m. rewrite foldl_app. simpl.
  destruct x as [b| | |]; try discriminate Hx.
  set (m := foldl Math_min PInf l) in *.
  assert (isFinite m = true ∨ l = [] ∧ m = PInf) as Hm.
  { destruct Hin as [[-> ->]|Hin]; [by right | left].
    by apply (proj1 (Forall_forall _ _) Hl). }
  destruct Hm as [Hm|[-> ->]].
  - destruct m as [a| | |]; try done. simpl.
    destruct (decide (a ≤ b)%Qc) as [Hab|Hab]; split.
    + intros y [Hy|Hy%list_elem_of_singleton]%elem_of_app; [|subst y];
        [by apply Hle | done].
    + right. apply elem_of_app. left.
      destruct Hin as [[-> ?]|?]; done.
    + intros y [Hy|Hy%list_elem_of_singleton]%elem_of_app; [|subst y].
      * specialize (Hle y Hy). destruct y as [c| | |]; try done. simpl in *.
        apply Qcnot_le_lt, Qclt_le_weak in Hab. by eapply Qcle_trans.
      * simpl. apply Qcle_refl.
    + right. apply elem_of_app. right. by apply list_elem_of_singleton.
  - simpl. split.
    + intros y ->%list_elem_of_singleton. simpl. apply Qcle_refl.
    + right. by apply list_elem_of_singleton.
Qed.

Lemma running_max (values : list number) :
  Forall (λ x, isFinite x = true) values →
  let m := foldl Math_max NInf values in
  (∀ x, x ∈ values → num_le x m)
  ∧ (values = [] ∧ m = NInf ∨ m ∈ values).
Proof.
  induction values as [|x l IH] using rev_ind; intros Hfin m.
  { split; [|by left]. intros x Hx. by apply elem_of_nil in Hx. }
  apply Forall_app in Hfin as [Hl Hx]. apply Forall_inv in Hx.
  destruct (IH Hl) as [Hle Hin]. subst m. rewrite foldl_app. simpl.
  destruct x as [b| | |]; try discriminate Hx.
  set (m := foldl Math_max NInf l) in *.
  assert (isFinite m = true ∨ l = [] ∧ m = NInf) as Hm.
  { destruct Hin as [[-> ->]|Hin]; [by right | left].
    by apply (proj1 (Forall_forall _ _) Hl). }
  destruct Hm as [Hm|[-> ->]].
  - destruct m as [a| | |]; try done. simpl.
    destruct (decide (a ≤ b)%Qc) as [Hab|Hab]; split.
    + intros y [Hy|Hy%list_elem_of_singleton]%elem_of_app; [|subst y].
      * specialize (Hle y Hy). destruct y as [c| | |]; try done. simpl in *.
        by eapply Qcle_trans.
      * simpl. apply Qcle_refl.
    + right. apply elem_of_app. right. by apply list_elem_of_singleton.
    + intros y [Hy|Hy%list_elem_of_singleton]%elem_of_app; [|subst y];
        [by apply Hle |].
      simpl. by apply Qcnot_le_lt, Qclt_le_weak in Hab.
    + right. apply elem_of_app. left.
      destruct Hin as [[-> ?]|?]; done.
  - simpl. split.
    + intros y ->%list_elem_of_singleton. simpl. apply Qcle_refl.
    + right. by apply list_elem_of_singleton.
Qed.

Lemma observed_extent_is_extent (values : list number) :
  Forall (λ x, isFinite x = true) values →
  is_extent_of (observed_extent values) values.
Proof.
  intros Hfin.
  destruct (running_min values Hfin) as [Hmin Hmin_in].
  destruct (running_max values Hfin) as [Hmax Hmax_in].
  split.
  - intros x Hx. split; [by apply Hmin | by apply Hmax].
  - intros Hne. simpl. split.
    + by destruct Hmin_in as [[? _]|?].
    + by destruct Hmax_in as [[? _]|?].
Qed.

Lemma sanitized_finite (p : props) (f : props → Z * Z → number) :
  (∀ vu, ∃ x, f p vu = sanitize x) →
  Forall (λ x, isFinite x = true) (f p <$> vertices p).
Proof.
  intros Hf. apply Forall_fmap, Forall_true. intros vu. simpl.
  destruct (Hf vu) as [x ->]. apply sanitize_isFinite.
Qed.

(** C8. One recomputation of the positions replaces a non-finite sample
    by 0 before it enters the running minimum and maximum of its axis, so
    that each extent is the minimum and maximum of the sanitized values,
    zeros included; once every vertex is sampled it calls [getXScale],
    [getYScale] and [getZScale] exactly once each, with the extent of
    the axis. *)
Theorem extent_accumulation (p : props) :
  0 ≤ uCount p → 0 ≤ vCount p →
  let vertexCount := uCount p * vCount p in
  let sanitized (axis : number * number * number → number) :=
    (λ vu, let w := getPosition p (vertex_u p vu.2) (vertex_v p vu.1) in
           if isFinite (axis w) then axis w else of_Z 0)
      <$> grid_pairs (vCount p) (uCount p) in
  let extent_of (values : list number) :=
    {| min := foldl Math_min PInf values;
       max := foldl Math_max NInf values |} in
  let x_extent := extent_of (sanitized (λ w, w.1.1)) in
  let y_extent := extent_of (sanitized (λ w, w.1.2)) in
  let z_extent := extent_of (sanitized (λ w, w.2)) in
  ∃ (value : list number) (calls later : list event),
    calculatePositions p vertexCount 4 = Normal (value, calls)
    ∧ calls
      = sampling_calls p
        ++ [Call_getXScale x_extent;
            Call_getYScale y_extent;
            Call_getZScale z_extent]
        ++ later
    ∧ Z.of_nat (length (sampling_calls p)) = vertexCount
    ∧ omap scale_factory_call calls
      = [Call_getXScale x_extent;
         Call_getYScale y_extent;
         Call_getZScale z_extent]
    ∧ is_extent_of x_extent (sanitized (λ w, w.1.1))
    ∧ is_extent_of y_extent (sanitized (λ w, w.1.2))
    ∧ is_extent_of z_extent (sanitized (λ w, w.2)).
Proof.
  intros Hu Hv vertexCount sanitized extent_of x_ext y_ext z_ext.
  eexists _, _, _. split_and!.
  - by apply calculatePositions_spec.
  - reflexivity.
  - unfold sampling_calls. rewrite length_fmap. by apply vertices_length.
  - rewrite !omap_app.
    rewrite (omap_none _ (sampling_calls p)).
    2:{ eapply Forall_impl; [apply sampling_calls_samples |]. by intros ? []. }
    rewrite (omap_none _ (mjoin _)); [done |].
    eapply Forall_impl; [apply rescale_calls_applications |].
    intros e He. by destruct e.
  - apply (observed_extent_is_extent (sanitized_x p <$> vertices p)).
    apply sanitized_finite. intros vu. by eexists.
  - apply (observed_extent_is_extent (sanitized_y p <$> vertices p)).
    apply sanitized_finite. intros vu. by eexists.
  - apply (observed_extent_is_extent (sanitized_z p <$> vertices p)).
    apply sanitized_finite. intros vu. by eexists.
Qed.

Lemma extent_accumulation_witness :
  let p := pole_props 2 2 in
  let sanitized (axis : number * number * number → number) :=
    (λ vu, let w := getPosition p (vertex_u p vu.2) (vertex_v p vu.1) in
           if isFinite (axis w) then axis w else of_Z 0)
      <$> grid_pairs 2 2 in
  let extent_of (values : list number) :=
    {| min := foldl Math_min PInf values;
       max := foldl Math_max NInf values |} in
  let x_extent := extent_of (sanitized (λ w, w.1.1)) in
  let y_extent := extent_of (sanitized (λ w, w.1.2)) in
  let z_extent := extent_of (sanitized (λ w, w.2)) in
  ∃ (value : list number) (calls later : list event),
    calculatePositions p 4 4 = Normal (value, calls)
    ∧ calls
      = sampling_calls p
        ++ [Call_getXScale x_extent;
            Call_getYScale y_extent;
            Call_getZScale z_extent]
        ++ later
    ∧ Z.of_nat (length (sampling_calls p)) = 4
    ∧ omap scale_factory_call calls
      = [Call_getXScale x_extent;
         Call_getYScale y_extent;
         Call_getZScale z_extent]
    ∧ is_extent_of x_extent (sanitized (λ w, w.1.1))
    ∧ is_extent_of y_extent (sanitized (λ w, w.1.2))
    ∧ is_extent_of z_extent (sanitized (λ w, w.2)).
Proof.
  intros p. apply (extent_accumulation p); simpl; lia.
Defined.

(** On the 2 x 2 grid of the surface with a pole, the two samples at
    [u = 0] have an infinite [z]; the zeros that replace them are the
    minimum of the [z] extent. *)
Lemma pole_extent :
  z_extent (pole_props 2 2) = {| min := of_Z 0; max := of_Z 1 |}.
Proof.
  unfold z_extent, observed_extent. f_equal; by_compute.
Qed.

(** ** Invalidation *)

Arguments calculateIndices : simpl never.
Arguments calculatePositions : simpl never.
Arguments calculateColors : simpl never.
Arguments calculatePickingColors : simpl never.

Lemma declared_shape (attrs : list (string * attribute)) :
  declared_as attrs initializeState →
  ∃ (d1 d2 d3 d4 : bool) (v1 v2 v3 v4 : option typed_array),
    attrs =
      [("indices"%string,
        {| size := 1; accessor := []; update := Update_calculateIndices;
           needsUpdate := d1; value := v1 |});
       ("positions"%string,
        {| size := 4; accessor := ["getPosition"%string];
           update := Update_calculatePositions;
           needsUpdate := d2; value := v2 |});
       ("colors"%string,
        {| size := 4; accessor := ["getPosition"; "getColor"]%string;
           update := Update_calculateColors;
           needsUpdate := d3; value := v3 |});
       ("pickingColors"%string,
        {| size := 3; accessor := []; update := Update_calculatePickingColors;
           needsUpdate := d4; value := v4 |})].
Proof.
  unfold declared_as, initializeState, add. simpl. intros H.
  apply Forall2_cons_inv_r in H
    as ([n1 [?????]] & l1 & (? & ? & ? & ?) & R1 & ->).
  apply Forall2_cons_inv_r in R1
    as ([n2 [?????]] & l2 & (? & ? & ? & ?) & R2 & ->).
  apply Forall2_cons_inv_r in R2
    as ([n3 [?????]] & l3 & (? & ? & ? & ?) & R3 & ->).
  apply Forall2_cons_inv_r in R3
    as ([n4 [?????]] & l4 & (? & ? & ? & ?) & R4 & ->).
  apply Forall2_nil_inv_r in R4 as ->.
  simpl in *. subst. by eexists _, _, _, _, _, _, _, _.
Qed.

Lemma invalidateAll_invalidate (name : string)
    (attrs : list (string * attribute)) :
  invalidateAll (invalidate name attrs) = invalidateAll attrs.
Proof.
  unfold invalidateAll, invalidate. rewrite <- list_fmap_compose.
  apply list_fmap_ext. intros _ [n a] _. simpl. by case_bool_decide.
Qed.

Lemma invalidateAll_changed (changed : list string)
    (attrs : list (string * attribute)) :
  invalidateAll (foldr invalidate attrs changed) = invalidateAll attrs.
Proof.
  induction changed as [|name changed IH]; [done |].
  simpl. by rewrite invalidateAll_invalidate.
Qed.

Lemma calculateColors_normal (p : props) (count : Z)
    (positions : list number) :
  0 ≤ count →
  ∃ (colors : list Z) (calls : list event),
    calculateColors p count 4 positions = Normal (colors, calls).
Proof.
  intros Hcount. unfold calculateColors, new_array.
  rewrite decide_False by lia. cbn [bind].
  destruct (foldl _ _ _) as [colors calls]. by eexists _, _.
Qed.

(** C9. When [uCount] or [vCount] differs from its previous value, all
    four attributes are marked dirty and recomputed, whole, in the order
    indices, positions, colors, pickingColors; when only the [getColor]
    accessor changes, only colors is recomputed, from the positions as
    they are, and indices, positions and pickingColors keep their
    values. *)
Theorem invalidation_scoping :
  (∀ (old p : props) (changed : list string) (st : layer_state),
      declared_as (attributes st) initializeState →
      uCount old ≠ uCount p ∨ vCount old ≠ vCount p →
      2 ≤ uCount p → 2 ≤ vCount p →
      let count := uCount p * vCount p in
      let marked :=
        updateState (Some old) p {| propsChanged := true |}
          {| vertexCount := vertexCount st;
             attributes := foldr invalidate (attributes st) changed;
             trace := trace st |} in
      ∃ (indices : list Z) (icalls : list event)
        (positions : list number) (pcalls : list event)
        (colors : list Z) (ccalls : list event)
        (pickingColors : list Z) (st' : layer_state),
        calculateIndices p = Normal (indices, icalls)
        ∧ calculatePositions p count 4 = Normal (positions, pcalls)
        ∧ calculateColors p count 4 positions = Normal (colors, ccalls)
        ∧ calculatePickingColors p count 3 = Normal pickingColors
        ∧ Forall (λ na, needsUpdate na.2 = true) (attributes marked)
        ∧ onInputsChanged (Some old) p changed st = Normal st'
        ∧ vertexCount st' = count
        ∧ (λ na : string * attribute, (na.1, needsUpdate na.2, value na.2))
            <$> attributes st'
          = [("indices", false, Some (Uint32Array indices));
             ("positions", false, Some (Float32Array positions));
             ("colors", false, Some (Uint8ClampedArray colors));
             ("pickingColors", false,
              Some (Uint8ClampedArray pickingColors))]%string
        ∧ trace st'
          = trace st
            ++ Call_update "indices" :: icalls
            ++ Call_update "positions" :: pcalls
            ++ Call_update "colors" :: ccalls
            ++ [Call_update "pickingColors"])
  ∧ (∀ (old p : props) (st : layer_state) (positions : list number),
      declared_as (attributes st) initializeState →
      uCount old = uCount p → vCount old = vCount p →
      Forall (λ na, needsUpdate na.2 = false) (attributes st) →
      0 ≤ vertexCount st →
      attribute_value "positions" st = Some (Float32Array positions) →
      ∃ (colors : list Z) (ccalls : list event) (st' : layer_state),
        calculateColors p (vertexCount st) 4 positions
        = Normal (colors, ccalls)
        ∧ onInputsChanged (Some old) p ["getColor"%string] st = Normal st'
        ∧ vertexCount st' = vertexCount st
        ∧ attribute_value "indices" st' = attribute_value "indices" st
        ∧ attribute_value "positions" st' = attribute_value "positions" st
        ∧ attribute_value "pickingColors" st'
          = attribute_value "pickingColors" st
        ∧ attribute_value "colors" st' = Some (Uint8ClampedArray colors)
        ∧ Forall (λ na, needsUpdate na.2 = false) (attributes st')
        ∧ trace st' = trace st ++ Call_update "colors" :: ccalls).
Proof.
  split.
  - intros old p changed [count0 attrs tr] Hdecl Hdims Hu Hv count marked.
    simpl in Hdecl.
    assert (0 ≤ uCount p ∧ 0 ≤ vCount p) as [Hu0 Hv0] by lia.
    destruct (positions_then_colors p Hu0 Hv0) as (pcalls & Hpos & Hcol).
    pose proof (calculateIndices_filled p) as Hind.
    pose proof (calculatePickingColors_filled p count) as Hpick.
    fold count in Hpos, Hcol.
    assert (attributes marked = invalidateAll attrs
            ∧ vertexCount marked = count ∧ trace marked = tr)
      as (Hattrs & Hcount & Htrace).
    { unfold marked, updateState. simpl.
      rewrite bool_decide_eq_true_2.
      - simpl. by rewrite invalidateAll_changed.
      - destruct Hdims; [left | right]; congruence. }
    destruct (declared_shape attrs Hdecl)
      as (d1 & d2 & d3 & d4 & v1 & v2 & v3 & v4 & ->).
    eexists _, _, _, _, _, _, _, _.
    split_and!; [apply Hind; lia | exact Hpos | exact Hcol
                | apply Hpick; nia | ..].
    + rewrite Hattrs. apply Forall_fmap, Forall_true. done.
    + unfold onInputsChanged. fold marked.
      rewrite Hattrs, Hcount, Htrace.
      unfold invalidateAll. simpl.
      unfold run_update at 1. simpl. rewrite Hind by lia. simpl.
      unfold run_update at 1. simpl. rewrite Hpos. simpl.
      unfold run_update at 1. simpl. rewrite Hcol. simpl.
      unfold run_update at 1. simpl. rewrite Hpick by nia. simpl.
      reflexivity.
    + done.
    + done.
    + simpl. by rewrite <- !app_assoc.
  - intros old p [count0 attrs tr] positions Hdecl Hu Hv Hclean Hcount Hpos.
    simpl in *.
    destruct (calculateColors_normal p count0 positions Hcount)
      as (colors & ccalls & Hcol).
    destruct (declared_shape attrs Hdecl)
      as (d1 & d2 & d3 & d4 & v1 & v2 & v3 & v4 & ->).
    apply Forall_cons in Hclean as [H1 Hclean].
    apply Forall_cons in Hclean as [H2 Hclean].
    apply Forall_cons in Hclean as [H3 Hclean].
    apply Forall_cons in Hclean as [H4 _].
    simpl in *. subst d1 d2 d3 d4.
    assert (v2 = Some (Float32Array positions)) as -> by exact Hpos.
    eexists _, _, _. split; [exact Hcol |].
    unfold onInputsChanged, updateState. simpl.
    rewrite bool_decide_eq_false_2 by (intros [?|?]; congruence).
    simpl.
    unfold run_update at 1. simpl. rewrite Hcol. simpl.
    split_and!; try done.
    repeat constructor.
Qed.

(** The first update of the layer of [example_props 2 2] computes every
    attribute and leaves the layer in [example_state]. *)
Lemma first_update_summary :
  (let* st := onInputsChanged None (example_props 2 2) [] initial_state in
   Normal (summary st))
  = Normal (summary example_state).
Proof. by_compute. Qed.

Lemma first_update_example :
  ∃ st' : layer_state,
    onInputsChanged None (example_props 2 2) [] initial_state = Normal st'
    ∧ summary st' = summary example_state.
Proof.
  pose proof first_update_summary as H.
  destruct (onInputsChanged None (example_props 2 2) [] initial_state)
    as [st'|e]; cbn [bind] in H.
  - exists st'. split; [reflexivity |]. congruence.
  - discriminate H.
Qed.

Lemma example_state_declared :
  declared_as (attributes example_state) initializeState.
Proof. repeat constructor. Qed.

Lemma invalidation_scoping_witness :
  (∃ (indices : list Z) (positions : list number)
     (colors pickingColors : list Z) (st' : layer_state),
      onInputsChanged (Some (example_props 2 2)) (example_props 3 2) []
        example_state = Normal st'
      ∧ vertexCount st' = 6
      ∧ (λ na : string * attribute, (na.1, needsUpdate na.2, value na.2))
          <$> attributes st'
        = [("indices", false, Some (Uint32Array indices));
           ("positions", false, Some (Float32Array positions));
           ("colors", false, Some (Uint8ClampedArray colors));
           ("pickingColors", false,
            Some (Uint8ClampedArray pickingColors))]%string)
  ∧ (∃ (colors : list Z) (ccalls : list event) (st' : layer_state),
      onInputsChanged (Some (example_props 2 2)) recolored_props
        ["getColor"%string] example_state = Normal st'
      ∧ attribute_value "indices" st'
        = attribute_value "indices" example_state
      ∧ attribute_value "positions" st'
        = attribute_value "positions" example_state
      ∧ attribute_value "pickingColors" st'
        = attribute_value "pickingColors" example_state
      ∧ attribute_value "colors" st' = Some (Uint8ClampedArray colors)
      ∧ trace st' = Call_update "colors" :: ccalls).
Proof.
  destruct invalidation_scoping as [Hdims Hcolor]. split.
  - destruct (Hdims (example_props 2 2) (example_props 3 2) [] example_state)
      as (indices & _ & positions & _ & colors & _ & pickingColors & st'
          & _ & _ & _ & _ & _ & Hrun & Hcount & Hattrs & _).
    + apply example_state_declared.
    + left. simpl. lia.
    + simpl. lia.
    + simpl. lia.
    + exists indices, positions, colors, pickingColors, st'.
      split_and!; [exact Hrun | exact Hcount | exact Hattrs].
  - destruct (Hcolor (example_props 2 2) recolored_props example_state
                (default [] (match attribute_value "positions" example_state
                             with
                             | Some (Float32Array a) => Some a
                             | _ => None
                             end)))
      as (colors & ccalls & st' & _ & Hrun & _ & Hi & Hp & Hk & Hc & _ & Ht).
    + apply example_state_declared.
    + reflexivity.
    + reflexivity.
    + repeat constructor.
    + simpl. lia.
    + reflexivity.
    + exists colors, ccalls, st'.
      split_and!; [exact Hrun | exact Hi | exact Hp | exact Hk | exact Hc
                  | exact Ht].
Defined.

(** * Further properties *)

(** ** Rounding to bytes *)

Lemma inject_Z_inv_r (n : Z) : n ≠ 0 → (inject_Z n * / inject_Z n == 1)%Q.
Proof.
  intros Hn. apply Qmult_inv_r. intros H.
  apply Hn. exact (proj1 (inject_Z_injective n 0) H).
Qed.

Lemma stored_index_recovered (x n : Z) :
  0 ≤ x ≤ n → 1 ≤ n ≤ 255 →
  Math_round
    (of_Z (round_half_even (Qc_of_Z x / Qc_of_Z n * Qc_of_Z 255))
     / of_Z 255 * of_Z n)
  = of_Z x.
Proof.
  intros Hx Hn.
  destruct (decide (n = 255)) as [->|Hn'].
  { replace (Qc_of_Z x / Qc_of_Z 255 * Qc_of_Z 255)%Qc with (Qc_of_Z x)
      by (field; by apply Qc_of_Z_nonzero).
    rewrite round_half_even_of_Z, num_div_of_Z by done.
    unfold of_Z at 1. cbn [num_mul].
    replace (Qc_of_Z x / Qc_of_Z 255 * Qc_of_Z 255)%Qc with (Qc_of_Z x)
      by (field; by apply Qc_of_Z_nonzero).
    apply Math_round_of_Z. }
  pose proof (round_half_even_near (Qc_of_Z x / Qc_of_Z n * Qc_of_Z 255))
    as [Hlo Hhi].
  set (r := round_half_even _) in *.
  rewrite num_div_of_Z by done. unfold of_Z at 1. cbn [num_mul].
  unfold Math_round, of_Z. do 2 f_equal.
  change (Qc_of_Z 1 / Qc_of_Z 2)%Qc with (Q2Qc (1 # 2)).
  pose proof (inject_Z_inv_r n ltac:(lia)) as Hinv.
  assert (H1 : (inject_Z 1 <= inject_Z n)%Q) by (rewrite <- Zle_Qle; lia).
  assert (H254 : (inject_Z n <= inject_Z 254)%Q) by (rewrite <- Zle_Qle; lia).
  apply Qfloor_between; Qc_to_Q; rewrite ?inject_Z_plus;
    change (/ inject_Z 255)%Q with (1 # 255)%Q;
    change (inject_Z 255) with 255%Q in *;
    change (inject_Z 254) with 254%Q in *;
    change (inject_Z 1) with 1%Q in *;
    set (X := inject_Z x) in *; set (N := inject_Z n) in *;
    set (R := inject_Z r) in *; set (I := (/ N)%Q) in *.
  - assert (0 <= (R + (1 # 2) - X * I * 255) * N)%Q as P
      by (apply Qmult_le_0_compat; lra).
    assert (X * I * N == X)%Q as E
      by (rewrite <- Qmult_assoc, (Qmult_comm I), Hinv; ring).
    lra.
  - assert (0 <= (X * I * 255 - R + (1 # 2)) * N)%Q as P
      by (apply Qmult_le_0_compat; lra).
    assert (X * I * N == X)%Q as E
      by (rewrite <- Qmult_assoc, (Qmult_comm I), Hinv; ring).
    lra.
Qed.

(** ** Picking information *)

(** X2. [getPickingInfo] after [decodePickingColor], for any picked colour
    [(r, g, b)]: no index that [decodePickingColor] returns makes
    [getPickingInfo] throw.  When [b] is 0, [info] comes back as it was
    and [getPosition] is not called; otherwise [getPosition] is called
    once, with [(r / 255, g / 255)], and its answer becomes
    [info.sample]. *)
Theorem picking_info_of_color (p : props) (r g b : number)
    (old : option (number * number * number)) :
  getPickingInfo p
    (Some {| index := decodePickingColor (r, g, b); sample := old |})
  = if decide (b = of_Z 0)
    then Normal (Some {| index := Index_number (of_Z (-1)); sample := old |},
                 [])
    else Normal (Some {| index := Index_uv (r / of_Z 255) (g / of_Z 255);
                         sample := Some (getPosition p (r / of_Z 255)%num
                                           (g / of_Z 255)%num) |},
                 [Call_getPosition (r / of_Z 255) (g / of_Z 255)]).
Proof.
  assert (Hb : strict_eq_zero b = true ↔ b = of_Z 0).
  { destruct b as [q| | |]; cbn; [|by split..].
    rewrite bool_decide_eq_true. split.
    - intros ->. unfold of_Z. by rewrite Z2Qc_inj_0.
    - unfold of_Z. rewrite Z2Qc_inj_0. by intros [= ->]. }
  unfold getPickingInfo, decodePickingColor. cbn [index sample].
  destruct (strict_eq_zero b) eqn:E.
  - destruct Hb as [Hb _]. rewrite (Hb eq_refl). cbn [index].
    by rewrite !decide_True by done.
  - cbn [index]. rewrite decide_False; [done |].
    intros Hb0. by apply Hb in Hb0.
Qed.

(** ** Stored picking colours *)

Lemma ToUint8Clamp_range (x : number) : 0 ≤ ToUint8Clamp x ≤ 255.
Proof.
  destruct x as [q| | |]; cbn; try lia.
  destruct (decide _) as [|Hlo]; [lia |].
  destruct (decide _) as [|Hhi]; [lia |].
  apply Qcnot_le_lt in Hlo, Hhi.
  destruct (round_half_even_near q) as [H1 H2].
  set (r := round_half_even q) in *.
  Qc_to_Q. change (inject_Z 255) with 255%Q in *.
  split.
  - destruct (decide (0 ≤ r)) as [|Hr]; [done | exfalso].
    assert (inject_Z r <= inject_Z (-1))%Q by (rewrite <- Zle_Qle; lia).
    change (inject_Z (-1)) with (-1 # 1)%Q in *. lra.
  - destruct (decide (r ≤ 255)) as [|Hr]; [done | exfalso].
    assert (inject_Z 256 <= inject_Z r)%Q by (rewrite <- Zle_Qle; lia).
    change (inject_Z 256) with 256%Q in *. lra.
Qed.

Lemma of_Z_inj (a b : Z) : of_Z a = of_Z b → a = b.
Proof.
  intros H. apply Z2Qc_inj.
  exact (f_equal (λ x, match x with Fin q => q | _ => 0%Qc end) H).
Qed.

Lemma picking_value_block (p : props) (n i : Z) :
  0 ≤ i < n →
  take 3 (drop (Z.to_nat (i * 3)) (mjoin (picking_block p <$> seqZ 0 n)))
  = picking_block p i.
Proof.
  intros Hi. replace (Z.to_nat (i * 3)) with (Z.to_nat i * 3)%nat by lia.
  apply take_drop_block.
  - apply Forall_fmap, Forall_true. intros j. unfold picking_block.
    by destruct (encodePickingColor p (of_Z j)) as [[??]?].
  - rewrite list_lookup_fmap, lookup_seqZ_lt by lia. simpl.
    do 2 f_equal. lia.
Qed.

Lemma grid_index (p : props) (i : Z) :
  0 < uCount p → i = vIndex_of p i * uCount p + uIndex_of p i.
Proof.
  intros Hu. rewrite vIndex_of_div by done. unfold uIndex_of.
  pose proof (Z.div_mod i (uCount p)). lia.
Qed.

(** X3. The round trip through the bytes of the picking buffer.  On a grid of
    2 to 256 lines in each direction, decoding the three bytes that
    [calculatePickingColors] stores for the vertex [i] gives [(u, v)]
    with [round(u * (uCount - 1)) = i mod uCount] and
    [round(v * (vCount - 1)) = (i - i mod uCount) / uCount]: the rounding
    of the stored colour to bytes does not lose the vertex. *)
Theorem stored_picking_round_trip (p : props) (i : Z) :
  2 ≤ uCount p ≤ 256 → 2 ≤ vCount p ≤ 256 → 0 ≤ i < uCount p * vCount p →
  ∃ (value : list Z) (r g b : Z) (u v : number),
    calculatePickingColors p (uCount p * vCount p) 3 = Normal value
    ∧ take 3 (drop (Z.to_nat (i * 3)) value) = [r; g; b]
    ∧ decodePickingColor (of_Z r, of_Z g, of_Z b) = Index_uv u v
    ∧ Math_round (u * (of_Z (uCount p) - of_Z 1)) = of_Z (uIndex_of p i)
    ∧ Math_round (v * (of_Z (vCount p) - of_Z 1)) = of_Z (vIndex_of p i).
Proof.
  intros Hu Hv Hi.
  pose proof (Z.mod_pos_bound i (uCount p) ltac:(lia)) as Hx.
  pose proof (vIndex_of_range p i ltac:(lia) Hi) as Hy.
  eexists _, _, _, _, _, _.
  split; [apply calculatePickingColors_filled; lia |].
  split.
  { rewrite picking_value_block, picking_block_grid by lia. reflexivity. }
  split; [unfold decodePickingColor; by rewrite strict_eq_zero_one |].
  rewrite !num_sub_of_Z.
  split; apply stored_index_recovered; unfold uIndex_of; lia.
Qed.

Lemma stored_picking_round_trip_witness :
  ∃ (value : list Z) (r g b : Z) (u v : number),
    calculatePickingColors (example_props 3 2) (3 * 2) 3 = Normal value
    ∧ take 3 (drop (Z.to_nat (4 * 3)) value) = [r; g; b]
    ∧ decodePickingColor (of_Z r, of_Z g, of_Z b) = Index_uv u v
    ∧ Math_round (u * (of_Z 3 - of_Z 1))
      = of_Z (uIndex_of (example_props 3 2) 4)
    ∧ Math_round (v * (of_Z 2 - of_Z 1))
      = of_Z (vIndex_of (example_props 3 2) 4).
Proof.
  apply (stored_picking_round_trip (example_props 3 2) 4); simpl; lia.
Defined.

Lemma scaled_byte_range (x n : Z) :
  0 ≤ x ≤ n → 0 < n →
  0 ≤ round_half_even (Qc_of_Z x / Qc_of_Z n * Qc_of_Z 255) ≤ 255.
Proof.
  intros Hx Hn. destruct (scaled_index_range x n) as [??]; [done.. |].
  rewrite <- ToUint8Clamp_in_range by done. apply ToUint8Clamp_range.
Qed.

(** More than 256 grid lines cannot have different bytes. *)
Lemma scaled_byte_collision (n : Z) :
  256 ≤ n →
  ∃ x1 x2 : Z,
    0 ≤ x1 < x2 ∧ x2 ≤ n
    ∧ round_half_even (Qc_of_Z x1 / Qc_of_Z n * Qc_of_Z 255)
      = round_half_even (Qc_of_Z x2 / Qc_of_Z n * Qc_of_Z 255).
Proof.
  intros Hn.
  destruct (nat_pigeonhole
              (λ x, Z.to_nat (round_half_even
                                (Qc_of_Z (Z.of_nat x) / Qc_of_Z n
                                 * Qc_of_Z 255)))
              (Z.to_nat (n + 1)) 256) as (i1 & i2 & Hi & Hf).
  - lia.
  - intros i Hi. pose proof (scaled_byte_range (Z.of_nat i) n). lia.
  - exists (Z.of_nat i1), (Z.of_nat i2).
    pose proof (scaled_byte_range (Z.of_nat i1) n).
    pose proof (scaled_byte_range (Z.of_nat i2) n).
    repeat split; lia.
Qed.

Lemma scaled_byte_0 (n : Z) :
  n ≠ 0 → round_half_even (Qc_of_Z 0 / Qc_of_Z n * Qc_of_Z 255) = 0.
Proof.
  intros Hn.
  replace (Qc_of_Z 0 / Qc_of_Z n * Qc_of_Z 255)%Qc with (Qc_of_Z 0);
    [apply round_half_even_of_Z |].
  rewrite Z2Qc_inj_0. field. by apply Qc_of_Z_nonzero.
Qed.

Lemma picking_block_row (p : props) (x : Z) :
  2 ≤ uCount p → 2 ≤ vCount p → 0 ≤ x < uCount p →
  picking_block p x
  = [round_half_even (Qc_of_Z x / Qc_of_Z (uCount p - 1) * Qc_of_Z 255);
     0; 1].
Proof.
  intros Hu Hv Hx. rewrite picking_block_grid by nia.
  rewrite vIndex_of_div by lia. unfold uIndex_of.
  rewrite Z.mod_small, Z.div_small by lia.
  by rewrite scaled_byte_0 by lia.
Qed.

Lemma picking_block_column (p : props) (y : Z) :
  2 ≤ uCount p → 2 ≤ vCount p → 0 ≤ y < vCount p →
  picking_block p (y * uCount p)
  = [0;
     round_half_even (Qc_of_Z y / Qc_of_Z (vCount p - 1) * Qc_of_Z 255);
     1].
Proof.
  intros Hu Hv Hy. rewrite picking_block_grid by nia.
  rewrite vIndex_of_div by lia. unfold uIndex_of.
  rewrite Z.mod_mul, Z.div_mul by lia.
  by rewrite scaled_byte_0 by lia.
Qed.

(** X4. The bytes of the picking buffer tell the vertices apart exactly on
    the grids of at most 256 lines in each direction: for
    [uCount, vCount >= 2], any two different vertices have different
    stored picking colours if and only if [uCount <= 256] and
    [vCount <= 256]. *)
Theorem picking_colors_distinct (p : props) :
  2 ≤ uCount p → 2 ≤ vCount p →
  ∃ value : list Z,
    calculatePickingColors p (uCount p * vCount p) 3 = Normal value
    ∧ ((uCount p ≤ 256 ∧ vCount p ≤ 256)
       ↔ ∀ i j : Z,
           0 ≤ i < uCount p * vCount p → 0 ≤ j < uCount p * vCount p →
           take 3 (drop (Z.to_nat (i * 3)) value)
           = take 3 (drop (Z.to_nat (j * 3)) value) →
           i = j).
Proof.
  intros Hu Hv. eexists.
  split; [apply calculatePickingColors_filled; lia |].
  split.
  - intros [Hu' Hv'] i j Hi Hj.
    rewrite !picking_value_block, !picking_block_grid by lia.
    intros [= Hr Hg].
    pose proof (Z.mod_pos_bound i (uCount p) ltac:(lia)) as Hxi.
    pose proof (Z.mod_pos_bound j (uCount p) ltac:(lia)) as Hxj.
    pose proof (vIndex_of_range p i ltac:(lia) Hi) as Hyi.
    pose proof (vIndex_of_range p j ltac:(lia) Hj) as Hyj.
    assert (uIndex_of p i = uIndex_of p j) as Hx.
    { apply of_Z_inj.
      rewrite <- (stored_index_recovered (uIndex_of p i) (uCount p - 1)),
        <- (stored_index_recovered (uIndex_of p j) (uCount p - 1))
        by (unfold uIndex_of; lia).
      by rewrite Hr. }
    assert (vIndex_of p i = vIndex_of p j) as Hy.
    { apply of_Z_inj.
      rewrite <- (stored_index_recovered (vIndex_of p i) (vCount p - 1)),
        <- (stored_index_recovered (vIndex_of p j) (vCount p - 1)) by lia.
      by rewrite Hg. }
    rewrite (grid_index p i), (grid_index p j) by lia. by rewrite Hx, Hy.
  - intros Hinj.
    destruct (decide (uCount p ≤ 256)) as [Hu'|Hu'].
    + split; [done |].
      destruct (decide (vCount p ≤ 256)) as [|Hv']; [done | exfalso].
      destruct (scaled_byte_collision (vCount p - 1))
        as (y1 & y2 & Hy1 & Hy2 & E);
        [lia |].
      assert (y1 * uCount p = y2 * uCount p); [| nia].
      apply Hinj; [nia.. |].
      rewrite !picking_value_block, !picking_block_column by nia.
      by rewrite E.
    + exfalso.
      destruct (scaled_byte_collision (uCount p - 1))
        as (x1 & x2 & Hx1 & Hx2 & E);
        [lia |].
      assert (x1 = x2); [| lia].
      apply Hinj; [nia.. |].
      rewrite !picking_value_block, !picking_block_row by nia.
      by rewrite E.
Qed.

Lemma picking_colors_distinct_witness :
  ∃ value : list Z,
    calculatePickingColors (example_props 3 2) (3 * 2) 3 = Normal value
    ∧ ((3 ≤ 256 ∧ 2 ≤ 256)
       ↔ ∀ i j : Z,
           0 ≤ i < 3 * 2 → 0 ≤ j < 3 * 2 →
           take 3 (drop (Z.to_nat (i * 3)) value)
           = take 3 (drop (Z.to_nat (j * 3)) value) →
           i = j).
Proof.
  apply (picking_colors_distinct (example_props 3 2)); simpl; lia.
Defined.

(** ** Triangle indices: degenerate grids, coverage *)

Lemma foldl_const {S X : Type} (s : S) (l : list X) :
  foldl (λ s _, s) s l = s.
Proof. by induction l. Qed.

(** X5. A grid with fewer than two lines in some direction has no quad, and
    [calculateIndices] stores no index.  When exactly one of [uCount - 1]
    and [vCount - 1] is negative, the negative buffer length makes the
    [Uint32Array] constructor throw, and [setVertexCount] is not called;
    otherwise the buffer stays as allocated: [(uCount-1)*(vCount-1)*6]
    zeros, none when [uCount] or [vCount] is 1, and that length is given
    to [setVertexCount]. *)
Theorem calculateIndices_degenerate (p : props) :
  uCount p < 2 ∨ vCount p < 2 →
  calculateIndices p
  = if decide ((uCount p - 1) * (vCount p - 1) < 0) then Throw RangeError
    else Normal
           (replicate (Z.to_nat ((uCount p - 1) * (vCount p - 1) * 6)) 0,
            [Call_setVertexCount ((uCount p - 1) * (vCount p - 1) * 2 * 3)]).
Proof.
  intros Hd. unfold calculateIndices, new_array.
  destruct (decide ((uCount p - 1) * (vCount p - 1) < 0)) as [Hneg|Hpos].
  { by rewrite decide_True by lia. }
  rewrite decide_False by lia. cbn [bind]. do 2 f_equal.
  replace ((uCount p - 1) * (vCount p - 1) * 2 * 3)
    with ((uCount p - 1) * (vCount p - 1) * 6) by lia.
  destruct (decide (uCount p < 2)) as [Hu|Hu].
  - by rewrite (seqZ_nil 0 (uCount p - 1)) by lia.
  - rewrite (seqZ_nil 0 (vCount p - 1)) by lia. cbn [foldl].
    by rewrite foldl_const.
Qed.

Lemma calculateIndices_degenerate_witness :
  calculateIndices (example_props 0 3)
  = if decide ((0 - 1) * (3 - 1) < 0) then Throw RangeError
    else Normal
           (replicate (Z.to_nat ((0 - 1) * (3 - 1) * 6)) 0,
            [Call_setVertexCount ((0 - 1) * (3 - 1) * 2 * 3)]).
Proof.
  apply (calculateIndices_degenerate (example_props 0 3)). simpl. lia.
Defined.

Lemma ToUint32_small (z : Z) : 0 ≤ z < 2 ^ 32 → ToUint32 (of_Z z) = z.
Proof. intros Hz. rewrite ToUint32_of_Z. by apply Z.mod_small. Qed.

Lemma quad_block_exact (p : props) (q : Z * Z) :
  2 ≤ uCount p → 2 ≤ vCount p → uCount p * vCount p ≤ 2 ^ 32 →
  0 ≤ q.1 < uCount p - 1 → 0 ≤ q.2 < vCount p - 1 →
  let i0 := q.2 * uCount p + q.1 in
  quad_block p q
  = [i0; i0 + uCount p; i0 + 1; i0 + 1; i0 + uCount p; i0 + uCount p + 1].
Proof.
  intros Hu Hv H32 Hx Hy i0. unfold quad_block. fold i0. cbn [fmap list_fmap].
  assert (0 ≤ q.2 * uCount p ≤ (vCount p - 2) * uCount p) by nia.
  assert (0 ≤ i0 ∧ i0 + uCount p + 1 < 2 ^ 32) as [??] by (unfold i0; lia).
  rewrite !ToUint32_small by lia. done.
Qed.

Lemma quad_blocks_lookup (p : props) (q : Z * Z) :
  0 ≤ q.1 < uCount p - 1 → 0 ≤ q.2 < vCount p - 1 →
  (quad_block p <$> grid_pairs (uCount p - 1) (vCount p - 1))
    !! Z.to_nat (q.1 * (vCount p - 1) + q.2)
  = Some (quad_block p q).
Proof.
  intros Hx Hy. rewrite list_lookup_fmap, grid_pairs_lookup by done.
  by destruct q.
Qed.

(** X6. The triangles use every vertex: on a grid with [uCount, vCount >= 2]
    whose vertex indices fit the 32-bit elements, every vertex index of
    [0 .. uCount*vCount - 1] occurs in the index buffer. *)
Theorem every_vertex_indexed (p : props) (j : Z) :
  2 ≤ uCount p → 2 ≤ vCount p → uCount p * vCount p ≤ 2 ^ 32 →
  0 ≤ j < uCount p * vCount p →
  ∃ (indices : list Z) (calls : list event),
    calculateIndices p = Normal (indices, calls) ∧ j ∈ indices.
Proof.
  intros Hu Hv H32 Hj. eexists _, _.
  split; [apply calculateIndices_filled; lia |].
  pose proof (Z.mod_pos_bound j (uCount p) ltac:(lia)) as Hx.
  pose proof (vIndex_of_range p j ltac:(lia) Hj) as Hy.
  pose proof (grid_index p j ltac:(lia)) as Ej. unfold uIndex_of in Ej.
  set (x := j `mod` uCount p) in *. set (y := vIndex_of p j) in *.
  set (q := (x `min` (uCount p - 2), y `min` (vCount p - 2))).
  apply list_elem_of_join. exists (quad_block p q). split.
  - rewrite quad_block_exact by (unfold q; simpl; lia).
    unfold q. cbn [fst snd].
    destruct (decide (x < uCount p - 1)) as [Hx'|Hx'],
      (decide (y < vCount p - 1)) as [Hy'|Hy'].
    + rewrite !Z.min_l by lia. rewrite Ej. apply list_elem_of_here.
    + rewrite (Z.min_l x), (Z.min_r y) by lia.
      assert (y = vCount p - 1) as Ey by lia. rewrite Ey in Ej.
      do 1 apply list_elem_of_further.
      replace j with ((vCount p - 2) * uCount p + x + uCount p) by lia.
      apply list_elem_of_here.
    + rewrite (Z.min_r x), (Z.min_l y) by lia.
      do 2 apply list_elem_of_further.
      replace j with (y * uCount p + (uCount p - 2) + 1) by lia.
      apply list_elem_of_here.
    + rewrite !Z.min_r by lia.
      assert (y = vCount p - 1) as Ey by lia. rewrite Ey in Ej.
      do 5 apply list_elem_of_further.
      replace j with
        ((vCount p - 2) * uCount p + (uCount p - 2) + uCount p + 1) by lia.
      apply list_elem_of_here.
  - eapply list_elem_of_lookup_2.
    apply quad_blocks_lookup; unfold q; simpl; lia.
Qed.

Lemma every_vertex_indexed_witness :
  ∃ (indices : list Z) (calls : list event),
    calculateIndices (example_props 3 3) = Normal (indices, calls)
    ∧ 8 ∈ indices.
Proof.
  apply (every_vertex_indexed (example_props 3 3) 8); simpl; lia.
Defined.

Lemma half_block {A : Type} (l : list A) (k h : nat) :
  (h ≤ 1)%nat →
  take 3 (drop (k * 6 + h * 3) l)
  = drop (h * 3) (take (h * 3 + 3) (take 6 (drop (k * 6) l))).
Proof.
  intros Hh. rewrite <- drop_drop, take_drop_commute, take_take.
  do 2 f_equal. lia.
Qed.

Lemma grid_coordinates (p : props) (x y : Z) :
  0 ≤ x < uCount p →
  uIndex_of p (y * uCount p + x) = x ∧ vIndex_of p (y * uCount p + x) = y.
Proof.
  intros Hx. rewrite vIndex_of_div by lia. unfold uIndex_of. split.
  - rewrite Z.add_comm, Z.mod_add by lia. apply Z.mod_small. lia.
  - rewrite Z.div_add_l, Z.div_small by lia. lia.
Qed.

(** X7. The triangles of the index buffer all turn the same way.  On a grid
    with [uCount, vCount >= 2] whose vertex indices fit the 32-bit
    elements, each of the [(uCount-1)*(vCount-1)*2] triangles has three
    different vertices and, in grid coordinates, twice the signed area
    [-1]: no triangle is degenerate and all have the same winding.  The
    count that [setVertexCount] receives is the length of the buffer. *)
Theorem triangles_oriented (p : props) (t : Z) :
  2 ≤ uCount p → 2 ≤ vCount p → uCount p * vCount p ≤ 2 ^ 32 →
  0 ≤ t < (uCount p - 1) * (vCount p - 1) * 2 →
  ∃ (indices : list Z) (a b c : Z),
    calculateIndices p
    = Normal (indices, [Call_setVertexCount (Z.of_nat (length indices))])
    ∧ take 3 (drop (Z.to_nat (t * 3)) indices) = [a; b; c]
    ∧ a ≠ b ∧ b ≠ c ∧ a ≠ c
    ∧ signed_area2 p a b c = -1.
Proof.
  intros Hu Hv H32 Ht.
  set (k := t `div` 2). set (h := t `mod` 2).
  pose proof (Z.div_mod t 2 ltac:(lia)) as Et. fold k h in Et.
  pose proof (Z.mod_pos_bound t 2 ltac:(lia)) as Hh. fold h in Hh.
  assert (0 ≤ k < (uCount p - 1) * (vCount p - 1)) as Hk by lia.
  set (x := k `div` (vCount p - 1)). set (y := k `mod` (vCount p - 1)).
  pose proof (Z.div_mod k (vCount p - 1) ltac:(lia)) as Ek. fold x y in Ek.
  pose proof (Z.mod_pos_bound k (vCount p - 1) ltac:(lia)) as Hy.
  fold y in Hy.
  assert (0 ≤ x < uCount p - 1) as Hx.
  { split; [apply Z.div_pos; lia | apply Z.div_lt_upper_bound; lia]. }
  pose proof (quad_blocks_lookup p (x, y) Hx Hy) as Hq.
  replace ((x, y).1 * (vCount p - 1) + (x, y).2) with k in Hq
    by (cbn [fst snd]; lia).
  assert (Forall (λ b, length b = 6%nat)
            (quad_block p <$> grid_pairs (uCount p - 1) (vCount p - 1)))
    as Hlen.
  { apply Forall_fmap, Forall_true. intros ?. apply quad_block_length. }
  pose proof (take_drop_block 6 _ _ _ Hlen Hq) as Hb.
  rewrite (quad_block_exact p (x, y) Hu Hv H32 Hx Hy) in Hb.
  cbv zeta in Hb. cbn [fst snd] in Hb.
  assert (Z.to_nat (t * 3) = (Z.to_nat k * 6 + Z.to_nat h * 3)%nat) as ->
    by lia.
  assert (calculateIndices p
          = Normal (mjoin (quad_block p
                             <$> grid_pairs (uCount p - 1) (vCount p - 1)),
                    [Call_setVertexCount
                       (Z.of_nat
                          (length
                             (mjoin (quad_block p
                                       <$> grid_pairs (uCount p - 1)
                                             (vCount p - 1)))))]))
    as Hcalc.
  { rewrite calculateIndices_filled by lia. do 3 f_equal.
    rewrite (filled_length 6), length_fmap, grid_pairs_length by done.
    rewrite !Nat2Z.inj_mul, !Z2Nat.id by lia. f_equal. lia. }
  destruct (grid_coordinates p x y ltac:(lia)) as [Eu00 Ev00].
  destruct (grid_coordinates p (x + 1) y ltac:(lia)) as [Eu10 Ev10].
  destruct (grid_coordinates p x (y + 1) ltac:(lia)) as [Eu01 Ev01].
  destruct (grid_coordinates p (x + 1) (y + 1) ltac:(lia)) as [Eu11 Ev11].
  replace (y * uCount p + (x + 1)) with (y * uCount p + x + 1)
    in Eu10, Ev10 by lia.
  replace ((y + 1) * uCount p + x) with (y * uCount p + x + uCount p)
    in Eu01, Ev01 by lia.
  replace ((y + 1) * uCount p + (x + 1))
    with (y * uCount p + x + uCount p + 1) in Eu11, Ev11 by lia.
  clearbody h x y.
  assert (h = 0 ∨ h = 1) as [-> | ->] by lia;
    eexists _, _, _, _; (split; [exact Hcalc |]);
    rewrite half_block, Hb by lia; (split; [reflexivity |]);
    unfold signed_area2;
    rewrite ?Eu00, ?Ev00, ?Eu10, ?Ev10, ?Eu01, ?Ev01, ?Eu11, ?Ev11; lia.
Qed.

Lemma triangles_oriented_witness :
  ∃ (indices : list Z) (a b c : Z),
    calculateIndices (example_props 3 3)
    = Normal (indices, [Call_setVertexCount (Z.of_nat (length indices))])
    ∧ take 3 (drop (Z.to_nat (7 * 3)) indices) = [a; b; c]
    ∧ a ≠ b ∧ b ≠ c ∧ a ≠ c
    ∧ signed_area2 (example_props 3 3) a b c = -1.
Proof.
  apply (triangles_oriented (example_props 3 3) 7); simpl; lia.
Defined.

(** ** Colours of any positions buffer *)

Lemma vertex_color_bytes_length (p : props) (positions : list number)
    (i : Z) :
  length (vertex_color_bytes p positions i) = 4%nat.
Proof.
  unfold vertex_color_bytes, color_bytes.
  by destruct (getColor p _ _ _) as [[[??]?]?].
Qed.

Lemma color_vertex_pair (p : props) (positions : list number)
    (value : list Z) (calls : list event) (i : Z) :
  color_vertex p positions (value, calls) i
  = ((color_vertex p positions (value, []) i).1,
     calls ++ [vertex_color_call positions i]).
Proof.
  unfold color_vertex, vertex_color_call.
  by destruct (getColor p _ _ _) as [[[??]?]?].
Qed.

Lemma calculateColors_filled (p : props) (n : Z) (positions : list number) :
  0 ≤ n →
  calculateColors p n 4 positions
  = Normal (mjoin (vertex_color_bytes p positions <$> seqZ 0 n),
            vertex_color_call positions <$> seqZ 0 n).
Proof.
  intros Hn. unfold calculateColors, new_array.
  rewrite decide_False by lia. cbn [bind]. f_equal.
  set (init := replicate (Z.to_nat (n * 4)) 0).
  assert (foldl (color_vertex p positions) (init, []) (seqZ 0 n)
          = (mjoin (vertex_color_bytes p positions <$> seqZ 0 n)
               ++ drop (length (seqZ 0 n) * 4) init,
             vertex_color_call positions <$> seqZ 0 n)) as ->.
  2:{ rewrite drop_ge, app_nil_r; [done |].
      unfold init. rewrite length_replicate, length_seqZ. lia. }
  apply (foldl_prefix_ind _
    (λ seen s, s = (mjoin (vertex_color_bytes p positions <$> seen)
                      ++ drop (length seen * 4) init,
                    vertex_color_call positions <$> seen))).
  { done. }
  intros seen x rest s Hl ->.
  destruct (seqZ_split _ _ _ _ Hl) as [-> Hlt].
  rewrite !fmap_app. cbn [fmap list_fmap].
  replace (length (seen ++ [Z.of_nat (length seen)]))
    with (S (length seen)) by (rewrite length_app; simpl; lia).
  rewrite color_vertex_pair. f_equal.
  apply (fill_step 4 (length seen)
           (λ value,
              (color_vertex p positions (value, [])
                 (Z.of_nat (length seen))).1)).
  - by rewrite length_fmap.
  - apply Forall_fmap, Forall_true. intros i.
    apply vertex_color_bytes_length.
  - unfold init. rewrite length_replicate. lia.
  - intros pre old post Hpre Hold.
    unfold color_vertex, vertex_color_bytes, color_bytes.
    destruct (getColor p _ _ _) as [[[c0 c1] c2] c3].
    destruct_block old Hold. cbn [fst].
    rewrite (array_set_app pre _ _ 0) by lia.
    rewrite (array_set_app pre _ _ 1) by lia.
    rewrite (array_set_app pre _ _ 2) by lia.
    rewrite (array_set_app pre _ _ 3) by lia.
    done.
Qed.

Lemma color_bytes_range (c : color) :
  Forall (λ byte, 0 ≤ byte ≤ 255) (color_bytes c).
Proof.
  destruct c as [[[??]?]?]. repeat constructor; apply ToUint8Clamp_range.
Qed.

(** X8. Colours, for a positions buffer of at least [4 * n] numbers and
    the vertex count [n]: [calculateColors] returns normally with
    [4 * n] bytes, each in [0 .. 255], and calls [getColor] once per
    vertex, in vertex order.  For vertex [i] the call is
    [getColor(x, y, z)] with the first, third and second number of the
    vertex in the positions buffer, and the four stored bytes are the
    clamped components of its answer, the alpha byte being 255 when the
    answer has no fourth component or a [NaN] one. *)
Theorem color_bytes_stored (p : props) (n i : Z) (positions : list number) :
  0 ≤ i < n → n * 4 ≤ Z.of_nat (length positions) →
  ∃ (x y z : number) (colors : list Z) (calls : list event),
    positions !! Z.to_nat (i * 4) = Some x
    ∧ positions !! Z.to_nat (i * 4 + 2) = Some y
    ∧ positions !! Z.to_nat (i * 4 + 1) = Some z
    ∧ calculateColors p n 4 positions = Normal (colors, calls)
    ∧ Z.of_nat (length colors) = n * 4
    ∧ Forall (λ byte, 0 ≤ byte ≤ 255) colors
    ∧ Z.of_nat (length calls) = n
    ∧ calls !! Z.to_nat i = Some (Call_getColor x y z)
    ∧ take 4 (drop (Z.to_nat (i * 4)) colors)
      = [ToUint8Clamp (getColor p x y z).1.1.1;
         ToUint8Clamp (getColor p x y z).1.1.2;
         ToUint8Clamp (getColor p x y z).1.2;
         match (getColor p x y z).2 with
         | Some a => if isNaN a then 255 else ToUint8Clamp a
         | None => 255
         end].
Proof.
  intros Hi Hlen.
  destruct (lookup_lt_is_Some_2 positions (Z.to_nat (i * 4))) as [x Ex];
    [lia |].
  destruct (lookup_lt_is_Some_2 positions (Z.to_nat (i * 4 + 2)))
    as [y Ey]; [lia |].
  destruct (lookup_lt_is_Some_2 positions (Z.to_nat (i * 4 + 1)))
    as [z Ez]; [lia |].
  assert (array_get positions (i * 4) = x) as Gx
    by (unfold array_get; by rewrite decide_True, Ex by lia).
  assert (array_get positions (i * 4 + 2) = y) as Gy
    by (unfold array_get; by rewrite decide_True, Ey by lia).
  assert (array_get positions (i * 4 + 1) = z) as Gz
    by (unfold array_get; by rewrite decide_True, Ez by lia).
  exists x, y, z. eexists _, _.
  split; [exact Ex |]. split; [exact Ey |]. split; [exact Ez |].
  split; [apply calculateColors_filled; lia |].
  assert (Forall (λ b, length b = 4%nat)
            (vertex_color_bytes p positions <$> seqZ 0 n)) as Hk.
  { apply Forall_fmap, Forall_true. intros ?. apply vertex_color_bytes_length. }
  split_and!.
  - rewrite (filled_length 4), length_fmap, length_seqZ by done. lia.
  - apply Forall_join, Forall_fmap, Forall_true. intros j.
    apply color_bytes_range.
  - rewrite length_fmap, length_seqZ. lia.
  - rewrite list_lookup_fmap, lookup_seqZ_lt by lia.
    cbn [fmap option_fmap option_map]. unfold vertex_color_call.
    replace (0 + Z.of_nat (Z.to_nat i)) with i by lia.
    by rewrite Gx, Gy, Gz.
  - rewrite (vertex_block (vertex_color_bytes p positions) _ i).
    + unfold vertex_color_bytes, color_bytes. rewrite Gx, Gy, Gz.
      destruct (getColor p x y z) as [[[c0 c1] c2] [a|]]; cbn [fst snd];
        [| done].
      by destruct (isNaN a).
    + apply vertex_color_bytes_length.
    + lia.
    + rewrite lookup_seqZ_lt by lia. f_equal. lia.
Qed.

Lemma color_bytes_stored_witness :
  ∃ (x y z : number) (colors : list Z) (calls : list event),
    [of_Z 1; of_Z 2; of_Z 3; of_Z 0; of_Z 4; of_Z 5; of_Z 6; of_Z 1]
      !! Z.to_nat (1 * 4) = Some x
    ∧ [of_Z 1; of_Z 2; of_Z 3; of_Z 0; of_Z 4; of_Z 5; of_Z 6; of_Z 1]
        !! Z.to_nat (1 * 4 + 2) = Some y
    ∧ [of_Z 1; of_Z 2; of_Z 3; of_Z 0; of_Z 4; of_Z 5; of_Z 6; of_Z 1]
        !! Z.to_nat (1 * 4 + 1) = Some z
    ∧ calculateColors recolored_props 2 4
        [of_Z 1; of_Z 2; of_Z 3; of_Z 0; of_Z 4; of_Z 5; of_Z 6; of_Z 1]
      = Normal (colors, calls)
    ∧ Z.of_nat (length colors) = 2 * 4
    ∧ Forall (λ byte, 0 ≤ byte ≤ 255) colors
    ∧ Z.of_nat (length calls) = 2
    ∧ calls !! Z.to_nat 1 = Some (Call_getColor x y z)
    ∧ take 4 (drop (Z.to_nat (1 * 4)) colors)
      = [ToUint8Clamp (getColor recolored_props x y z).1.1.1;
         ToUint8Clamp (getColor recolored_props x y z).1.1.2;
         ToUint8Clamp (getColor recolored_props x y z).1.2;
         match (getColor recolored_props x y z).2 with
         | Some a => if isNaN a then 255 else ToUint8Clamp a
         | None => 255
         end].
Proof.
  apply (color_bytes_stored recolored_props 2 1
           [of_Z 1; of_Z 2; of_Z 3; of_Z 0; of_Z 4; of_Z 5; of_Z 6; of_Z 1]);
    simpl; lia.
Defined.

(** ** The calls of one recomputation of the positions *)

Lemma positions_sampling_calls (p : props) :
  omap sampling_call
    (sampling_calls p
     ++ [Call_getXScale (x_extent p);
         Call_getYScale (y_extent p);
         Call_getZScale (z_extent p)]
     ++ mjoin (rescale_calls <$> sampled_blocks p)
     ++ [Call_onUpdate (xScale_of p) (yScale_of p) (zScale_of p)])
  = (λ vu, (vertex_u p vu.2, vertex_v p vu.1)) <$> vertices p.
Proof.
  rewrite !omap_app.
  rewrite (omap_none _ (mjoin _)).
  2:{ eapply Forall_impl; [apply rescale_calls_applications |].
      intros e He. by destruct e. }
  cbn [omap list_omap sampling_call]. rewrite !app_nil_r.
  unfold sampling_calls. induction (vertices p) as [|vu l IH]; [done |].
  simpl. f_equal. exact IH.
Qed.

Lemma unit_fraction_range (x n : Z) :
  0 ≤ x ≤ n → 0 < n →
  (Qc_of_Z 0 ≤ Qc_of_Z x / Qc_of_Z n)%Qc
  ∧ (Qc_of_Z x / Qc_of_Z n ≤ Qc_of_Z 1)%Qc.
Proof.
  intros Hx Hn.
  assert (0 < Qc_of_Z n)%Qc as Hn'.
  { rewrite <- Z2Qc_inj_0. by apply (proj1 (Z2Qc_inj_lt _ _)). }
  assert (0 ≤ Qc_of_Z x)%Qc as Hx0.
  { rewrite <- Z2Qc_inj_0. apply (proj1 (Z2Qc_inj_le _ _)). lia. }
  split.
  - rewrite Z2Qc_inj_0. apply Qcmult_nonneg_nonneg; [done |].
    apply Qclt_le_weak. by apply Qcinv_pos.
  - apply (Qcmult_le_mono_pos_r _ _ (Qc_of_Z n)); [done |].
    replace (Qc_of_Z x / Qc_of_Z n * Qc_of_Z n)%Qc with (Qc_of_Z x).
    + rewrite <- Z2Qc_inj_mul. apply (proj1 (Z2Qc_inj_le _ _)). lia.
    + field. by apply Qclt_not_eq in Hn'.
Qed.

Lemma vertex_u_unit (p : props) (uIndex : Z) :
  2 ≤ uCount p → 0 ≤ uIndex < uCount p →
  in_unit_interval (vertex_u p uIndex).
Proof.
  intros Hu Hx. unfold vertex_u, in_unit_interval.
  rewrite num_sub_of_Z, num_div_of_Z by lia.
  apply unit_fraction_range; lia.
Qed.

Lemma vertex_v_unit (p : props) (vIndex : Z) :
  2 ≤ vCount p → 0 ≤ vIndex < vCount p →
  in_unit_interval (vertex_v p vIndex).
Proof.
  intros Hv Hy. unfold vertex_v, in_unit_interval.
  rewrite num_sub_of_Z, num_div_of_Z by lia.
  apply unit_fraction_range; lia.
Qed.

Lemma unit_fraction_0 (n : Z) :
  2 ≤ n → (of_Z 0 / (of_Z n - of_Z 1))%num = of_Z 0.
Proof.
  intros Hn. rewrite num_sub_of_Z.
  replace 0 with ((n - 1) * 0) at 1 by lia.
  apply num_div_of_Z_exact. lia.
Qed.

Lemma unit_fraction_1 (n : Z) :
  2 ≤ n → (of_Z (n - 1) / (of_Z n - of_Z 1))%num = of_Z 1.
Proof.
  intros Hn. rewrite num_sub_of_Z.
  replace (n - 1) with ((n - 1) * 1) at 1 by lia.
  apply num_div_of_Z_exact. lia.
Qed.

(** X9. Where the surface is sampled: on a grid with [uCount, vCount >= 2],
    one recomputation of the positions calls [getPosition] with [u] and
    [v] in [0 .. 1] only; its first call is [getPosition(0, 0)] and its
    last one [getPosition(1, 1)]. *)
Theorem sampling_domain (p : props) :
  2 ≤ uCount p → 2 ≤ vCount p →
  ∃ (value : list number) (calls : list event),
    calculatePositions p (uCount p * vCount p) 4 = Normal (value, calls)
    ∧ Forall (λ uv, in_unit_interval uv.1 ∧ in_unit_interval uv.2)
        (omap sampling_call calls)
    ∧ head (omap sampling_call calls) = Some (of_Z 0, of_Z 0)
    ∧ last (omap sampling_call calls) = Some (of_Z 1, of_Z 1).
Proof.
  intros Hu Hv. eexists _, _.
  split; [apply calculatePositions_spec; lia |].
  rewrite positions_sampling_calls. split_and!.
  - apply Forall_fmap, Forall_forall. intros vu Hvu.
    apply elem_of_grid_pairs in Hvu as [Hy Hx]. cbn [compose].
    split; [by apply vertex_u_unit | by apply vertex_v_unit].
  - rewrite head_lookup, list_lookup_fmap.
    pose proof (vertices_lookup p 0 0 ltac:(lia) ltac:(lia)) as H0.
    replace (Z.to_nat (0 * uCount p + 0)) with 0%nat in H0 by lia.
    rewrite H0. cbn [fmap option_fmap option_map fst snd].
    unfold vertex_u, vertex_v. by rewrite !unit_fraction_0.
  - rewrite last_lookup, list_lookup_fmap, length_fmap.
    pose proof (vertices_lookup p (vCount p - 1) (uCount p - 1)
                  ltac:(lia) ltac:(lia)) as H1.
    replace (Z.to_nat ((vCount p - 1) * uCount p + (uCount p - 1)))
      with (pred (length (vertices p))) in H1.
    2:{ pose proof (vertices_length p ltac:(lia) ltac:(lia)). nia. }
    rewrite H1. cbn [fmap option_fmap option_map fst snd].
    unfold vertex_u, vertex_v. by rewrite !unit_fraction_1.
Qed.

Lemma sampling_domain_witness :
  ∃ (value : list number) (calls : list event),
    calculatePositions (example_props 3 2) (3 * 2) 4 = Normal (value, calls)
    ∧ Forall (λ uv, in_unit_interval uv.1 ∧ in_unit_interval uv.2)
        (omap sampling_call calls)
    ∧ head (omap sampling_call calls) = Some (of_Z 0, of_Z 0)
    ∧ last (omap sampling_call calls) = Some (of_Z 1, of_Z 1).
Proof.
  apply (sampling_domain (example_props 3 2)); simpl; lia.
Defined.

(** X10. [onUpdate] is called exactly once per recomputation of the positions,
    as its last call, with the three scale functions that the factories
    built from the extents they were called with. *)
Theorem onUpdate_once (p : props) :
  0 ≤ uCount p → 0 ≤ vCount p →
  ∃ (value : list number) (calls : list event) (ex ey ez : extent),
    calculatePositions p (uCount p * vCount p) 4 = Normal (value, calls)
    ∧ omap scale_factory_call calls
      = [Call_getXScale ex; Call_getYScale ey; Call_getZScale ez]
    ∧ omap onUpdate_call calls
      = [Call_onUpdate (getXScale p ex) (getYScale p ey) (getZScale p ez)]
    ∧ last calls
      = Some (Call_onUpdate (getXScale p ex) (getYScale p ey)
                (getZScale p ez)).
Proof.
  intros Hu Hv. eexists _, _, _, _, _.
  split; [by apply calculatePositions_spec |].
  split_and!.
  - rewrite !omap_app.
    rewrite (omap_none _ (sampling_calls p)).
    2:{ eapply Forall_impl; [apply sampling_calls_samples |]. by intros ? []. }
    rewrite (omap_none _ (mjoin _)); [reflexivity |].
    eapply Forall_impl; [apply rescale_calls_applications |].
    intros e He. by destruct e.
  - rewrite !omap_app.
    rewrite (omap_none _ (sampling_calls p)).
    2:{ apply Forall_fmap, Forall_true. done. }
    rewrite (omap_none _ (mjoin _)); [reflexivity |].
    eapply Forall_impl; [apply rescale_calls_applications |].
    intros e He. by destruct e.
  - by rewrite !app_assoc, last_snoc.
Qed.

Lemma onUpdate_once_witness :
  ∃ (value : list number) (calls : list event) (ex ey ez : extent),
    calculatePositions (example_props 2 2) (2 * 2) 4 = Normal (value, calls)
    ∧ omap scale_factory_call calls
      = [Call_getXScale ex; Call_getYScale ey; Call_getZScale ez]
    ∧ omap onUpdate_call calls
      = [Call_onUpdate (normalise ex) (normalise ey) (normalise ez)]
    ∧ last calls
      = Some (Call_onUpdate (normalise ex) (normalise ey) (normalise ez)).
Proof.
  apply (onUpdate_once (example_props 2 2)); simpl; lia.
Defined.

Lemma lookup_block_flag (p : props) (vIndex uIndex : Z) (b : list number) :
  0 ≤ uIndex < uCount p → 0 ≤ vIndex < vCount p →
  position_blocks p !! Z.to_nat (vIndex * uCount p + uIndex) = Some b →
  mjoin (position_blocks p)
    !! Z.to_nat ((vIndex * uCount p + uIndex) * 4 + 3)
  = b !! 3%nat.
Proof.
  intros Hu Hv Hb.
  replace (Z.to_nat ((vIndex * uCount p + uIndex) * 4 + 3))
    with (Z.to_nat (vIndex * uCount p + uIndex) * 4 + 3)%nat by nia.
  rewrite <- (app_nil_r (mjoin _)).
  apply lookup_block; [apply position_blocks_length | done | lia].
Qed.

(** X11. The validity flag of a vertex.  After a recomputation of the
    positions, the buffer has four numbers per vertex, and the fourth
    number of a vertex is 0 when [getPosition] gave finite values on the
    three axes and 1 otherwise: the second pass keeps the flags of the
    first. *)
Theorem validity_flag (p : props) (vIndex uIndex : Z) :
  0 ≤ uIndex < uCount p → 0 ≤ vIndex < vCount p →
  let i := vIndex * uCount p + uIndex in
  let w := getPosition p (vertex_u p uIndex) (vertex_v p vIndex) in
  ∃ (value : list number) (calls : list event),
    calculatePositions p (uCount p * vCount p) 4 = Normal (value, calls)
    ∧ Z.of_nat (length value) = uCount p * vCount p * 4
    ∧ value !! Z.to_nat (i * 4 + 3)
      = Some (if isFinite w.1.1 && isFinite w.1.2 && isFinite w.2
              then of_Z 0 else of_Z 1).
Proof.
  intros Hu Hv i w. eexists _, _.
  split; [apply calculatePositions_spec; lia |].
  split.
  - rewrite (filled_length 4) by apply position_blocks_length.
    unfold position_blocks, sampled_blocks. rewrite !length_fmap.
    pose proof (vertices_length p ltac:(lia) ltac:(lia)). lia.
  - unfold i.
    rewrite (lookup_block_flag p vIndex uIndex _ Hu Hv
               (position_blocks_lookup p vIndex uIndex Hu Hv)).
    fold (all_finite w).
    change w with (sampled p (vIndex, uIndex)).
    destruct (all_finite (sampled p (vIndex, uIndex))) eqn:E.
    + by destruct (position_block_valid p (vIndex, uIndex) (xScale_of p)
                     (yScale_of p) (zScale_of p) E) as [-> _].
    + destruct (position_block_invalid p (vIndex, uIndex) (xScale_of p)
                  (yScale_of p) (zScale_of p) E) as [-> _].
      by rewrite sample_block_invalid.
Qed.

Lemma validity_flag_witness :
  ∃ (value : list number) (calls : list event),
    calculatePositions (pole_props 2 2) (2 * 2) 4 = Normal (value, calls)
    ∧ Z.of_nat (length value) = 2 * 2 * 4
    ∧ value !! Z.to_nat ((1 * 2 + 0) * 4 + 3) = Some (of_Z 1).
Proof.
  apply (validity_flag (pole_props 2 2) 1 0); simpl; lia.
Defined.

(** ** Empty and one-line grids *)

Lemma vertices_empty (p : props) :
  0 ≤ uCount p → 0 ≤ vCount p → uCount p * vCount p = 0 → vertices p = [].
Proof.
  intros Hu Hv H0. apply nil_length_inv.
  pose proof (vertices_length p Hu Hv). lia.
Qed.

(** X12. The empty grid.  When [uCount] or [vCount] is 0, the three buffers of
    the vertices are empty, [getPosition] and [getColor] are not called,
    and the scale factories and [onUpdate] are still called, the
    factories with the extent of no value at all: [min] is [Infinity]
    and [max] is [-Infinity]. *)
Theorem empty_grid (p : props) :
  0 ≤ uCount p → 0 ≤ vCount p → uCount p * vCount p = 0 →
  let none := {| min := PInf; max := NInf |} in
  calculatePositions p (uCount p * vCount p) 4
  = Normal ([], [Call_getXScale none; Call_getYScale none;
                 Call_getZScale none;
                 Call_onUpdate (getXScale p none) (getYScale p none)
                   (getZScale p none)])
  ∧ calculateColors p (uCount p * vCount p) 4 [] = Normal ([], [])
  ∧ calculatePickingColors p (uCount p * vCount p) 3 = Normal [].
Proof.
  intros Hu Hv H0 none. split_and!.
  - rewrite calculatePositions_spec by done.
    unfold position_blocks, sampled_blocks, sampling_calls, xScale_of,
      yScale_of, zScale_of, x_extent, y_extent, z_extent.
    by rewrite vertices_empty.
  - rewrite H0. by rewrite calculateColors_filled.
  - rewrite H0. by rewrite calculatePickingColors_filled.
Qed.

Lemma empty_grid_witness :
  calculatePositions (example_props 0 3) (0 * 3) 4
  = Normal ([], [Call_getXScale {| min := PInf; max := NInf |};
                 Call_getYScale {| min := PInf; max := NInf |};
                 Call_getZScale {| min := PInf; max := NInf |};
                 Call_onUpdate (normalise {| min := PInf; max := NInf |})
                   (normalise {| min := PInf; max := NInf |})
                   (normalise {| min := PInf; max := NInf |})])
  ∧ calculateColors (example_props 0 3) (0 * 3) 4 [] = Normal ([], [])
  ∧ calculatePickingColors (example_props 0 3) (0 * 3) 3 = Normal [].
Proof.
  apply (empty_grid (example_props 0 3)); simpl; lia.
Defined.

Lemma zero_by_zero : (of_Z 0 / (of_Z 1 - of_Z 1))%num = NaN.
Proof. reflexivity. Qed.

(** X13. A grid of one line.  With [uCount = 1] the normalised coordinate of
    the line is [0 / 0]: every call of [getPosition] gets [u = NaN], and
    the red component of every picking colour is [NaN], stored as the
    byte 0.  The same holds for [vCount = 1], [v] and the green
    component. *)
Theorem one_line_grid (p : props) :
  1 ≤ uCount p → 1 ≤ vCount p →
  ∃ (value : list number) (calls : list event) (picking : list Z),
    calculatePositions p (uCount p * vCount p) 4 = Normal (value, calls)
    ∧ calculatePickingColors p (uCount p * vCount p) 3 = Normal picking
    ∧ Z.of_nat (length (omap sampling_call calls)) = uCount p * vCount p
    ∧ (uCount p = 1 →
       Forall (λ uv, uv.1 = NaN) (omap sampling_call calls)
       ∧ ∀ i, 0 ≤ i < vCount p →
              (encodePickingColor p (of_Z i)).1.1 = NaN
              ∧ picking !! Z.to_nat (i * 3) = Some 0)
    ∧ (vCount p = 1 →
       Forall (λ uv, uv.2 = NaN) (omap sampling_call calls)
       ∧ ∀ i, 0 ≤ i < uCount p →
              (encodePickingColor p (of_Z i)).1.2 = NaN
              ∧ picking !! Z.to_nat (i * 3 + 1) = Some 0).
Proof.
  intros Hu Hv. eexists _, _, _.
  split; [apply calculatePositions_spec; lia |].
  split; [apply calculatePickingColors_filled; lia |].
  rewrite positions_sampling_calls. split_and!.
  - rewrite length_fmap. apply vertices_length; lia.
  - intros Hu1. split.
    + apply Forall_fmap, Forall_forall. intros vu Hvu.
      apply elem_of_grid_pairs in Hvu as [Hy Hx]. cbn [compose fst].
      unfold vertex_u. rewrite Hu1. replace vu.2 with 0 by lia.
      apply zero_by_zero.
    + intros i Hi.
      assert ((encodePickingColor p (of_Z i)).1.1 = NaN) as Hr.
      { unfold encodePickingColor. cbn [fst]. rewrite Hu1.
        rewrite num_rem_of_Z, Z.mod_1_r by lia. by rewrite zero_by_zero. }
      split; [done |].
      rewrite (lookup_block_Z 3 (picking_block p) _ i 0) by
        (try lia; intros j; unfold picking_block;
         by destruct (encodePickingColor p (of_Z j)) as [[??]?]).
      unfold picking_block.
      destruct (encodePickingColor p (of_Z i)) as [[c0 c1] c2].
      cbn [fst] in Hr. by rewrite Hr.
  - intros Hv1. split.
    + apply Forall_fmap, Forall_forall. intros vu Hvu.
      apply elem_of_grid_pairs in Hvu as [Hy Hx]. cbn [compose snd].
      unfold vertex_v. rewrite Hv1. replace vu.1 with 0 by lia.
      apply zero_by_zero.
    + intros i Hi.
      assert ((encodePickingColor p (of_Z i)).1.2 = NaN) as Hg.
      { unfold encodePickingColor. cbn [fst snd]. rewrite Hv1.
        rewrite num_rem_of_Z, (num_sub_of_Z i) by lia.
        rewrite Z.mod_small, Z.sub_diag by lia.
        replace 0 with (uCount p * 0) at 1 by lia.
        rewrite num_div_of_Z_exact by lia. by rewrite zero_by_zero. }
      split; [done |].
      rewrite (lookup_block_Z 3 (picking_block p) _ i 1) by
        (try lia; intros j; unfold picking_block;
         by destruct (encodePickingColor p (of_Z j)) as [[??]?]).
      unfold picking_block.
      destruct (encodePickingColor p (of_Z i)) as [[c0 c1] c2].
      cbn [fst snd] in Hg. by rewrite Hg.
Qed.

Lemma one_line_grid_witness :
  ∃ (value : list number) (calls : list event) (picking : list Z),
    calculatePositions (example_props 1 2) (1 * 2) 4 = Normal (value, calls)
    ∧ calculatePickingColors (example_props 1 2) (1 * 2) 3 = Normal picking
    ∧ Z.of_nat (length (omap sampling_call calls)) = 1 * 2
    ∧ (1 = 1 →
       Forall (λ uv, uv.1 = NaN) (omap sampling_call calls)
       ∧ ∀ i, 0 ≤ i < 2 →
              (encodePickingColor (example_props 1 2) (of_Z i)).1.1 = NaN
              ∧ picking !! Z.to_nat (i * 3) = Some 0)
    ∧ (2 = 1 →
       Forall (λ uv, uv.2 = NaN) (omap sampling_call calls)
       ∧ ∀ i, 0 ≤ i < 1 →
              (encodePickingColor (example_props 1 2) (of_Z i)).1.2 = NaN
              ∧ picking !! Z.to_nat (i * 3 + 1) = Some 0).
Proof.
  apply (one_line_grid (example_props 1 2)); simpl; lia.
Defined.

(** ** The vertex count of the state *)

(** X14. [updateState] keeps [state.vertexCount] equal to [uCount * vCount]:
    if it is so for the old props, it is so for the new props after an
    update whose [propsChanged] flag is set, and the first update (no old
    props) establishes it.  An update leaves the state as it is when both
    counts are unchanged, and it never makes a call. *)
Theorem vertexCount_maintained (old p : props) (st : layer_state) :
  vertexCount st = uCount old * vCount old →
  let flags := {| propsChanged := true |} in
  vertexCount (updateState (Some old) p flags st) = uCount p * vCount p
  ∧ vertexCount (updateState None p flags st) = uCount p * vCount p
  ∧ trace (updateState (Some old) p flags st) = trace st
  ∧ (uCount old = uCount p → vCount old = vCount p →
     updateState (Some old) p flags st = st).
Proof.
  intros Hst flags. unfold updateState, flags.
  cbn [propsChanged fmap option_fmap option_map].
  split_and!.
  - case_bool_decide as H; [done |].
    assert (uCount old = uCount p) as Hu.
    { destruct (decide (uCount old = uCount p)) as [|Hne]; [done |].
      exfalso. apply H. left. by intros [= ?]. }
    assert (vCount old = vCount p) as Hv.
    { destruct (decide (vCount old = vCount p)) as [|Hne]; [done |].
      exfalso. apply H. right. by intros [= ?]. }
    by rewrite Hst, Hu, Hv.
  - by rewrite bool_decide_true by (left; done).
  - by case_bool_decide.
  - intros Hu Hv. rewrite bool_decide_false; [done |].
    intros [H|H]; apply H; by f_equal.
Qed.

Lemma vertexCount_maintained_witness :
  vertexCount
    (updateState (Some (example_props 2 2)) (example_props 3 2)
       {| propsChanged := true |} example_state)
  = 3 * 2
  ∧ vertexCount
      (updateState None (example_props 3 2) {| propsChanged := true |}
         example_state)
    = 3 * 2
  ∧ trace
      (updateState (Some (example_props 2 2)) (example_props 3 2)
         {| propsChanged := true |} example_state)
    = trace example_state
  ∧ (2 = 3 → 2 = 2 →
     updateState (Some (example_props 2 2)) (example_props 3 2)
       {| propsChanged := true |} example_state
     = example_state).
Proof.
  apply (vertexCount_maintained (example_props 2 2) (example_props 3 2)
           example_state).
  reflexivity.
Defined.

(** ** Indices and positions together *)

Lemma sampling_call_lookup (p : props) (vIndex uIndex : Z) :
  0 ≤ uIndex < uCount p → 0 ≤ vIndex < vCount p →
  ((λ vu, (vertex_u p vu.2, vertex_v p vu.1)) <$> vertices p)
    !! Z.to_nat (vIndex * uCount p + uIndex)
  = Some (vertex_u p uIndex, vertex_v p vIndex).
Proof.
  intros Hu Hv. by rewrite list_lookup_fmap, vertices_lookup.
Qed.

(** X15. The triangles join grid neighbours.  The index buffer and the
    positions buffer number the vertices alike: the six indices of the
    quad [(xIndex, yIndex)] are the numbers of the vertices that
    [calculatePositions] samples at the grid points [(xIndex, yIndex)],
    [(xIndex, yIndex + 1)], [(xIndex + 1, yIndex)] for the first triangle
    and [(xIndex + 1, yIndex)], [(xIndex, yIndex + 1)],
    [(xIndex + 1, yIndex + 1)] for the second. *)
Theorem quad_corners (p : props) (xIndex yIndex : Z) :
  2 ≤ uCount p → 2 ≤ vCount p → uCount p * vCount p ≤ 2 ^ 32 →
  0 ≤ xIndex < uCount p - 1 → 0 ≤ yIndex < vCount p - 1 →
  let quad := xIndex * (vCount p - 1) + yIndex in
  let corner (dx dy : Z) :=
    Some (vertex_u p (xIndex + dx), vertex_v p (yIndex + dy)) in
  ∃ (indices : list Z) (icalls : list event)
    (value : list number) (calls : list event),
    calculateIndices p = Normal (indices, icalls)
    ∧ calculatePositions p (uCount p * vCount p) 4 = Normal (value, calls)
    ∧ (λ i, omap sampling_call calls !! Z.to_nat i)
        <$> take 6 (drop (Z.to_nat (quad * 6)) indices)
      = [corner 0 0; corner 0 1; corner 1 0;
         corner 1 0; corner 0 1; corner 1 1].
Proof.
  intros Hu Hv H32 Hx Hy quad corner. eexists _, _, _, _.
  split; [apply calculateIndices_filled; lia |].
  split; [apply calculatePositions_spec; lia |].
  rewrite positions_sampling_calls.
  assert (Forall (λ b, length b = 6%nat)
            (quad_block p <$> grid_pairs (uCount p - 1) (vCount p - 1)))
    as Hlen.
  { apply Forall_fmap, Forall_true. intros ?. apply quad_block_length. }
  replace (Z.to_nat (quad * 6)) with (Z.to_nat quad * 6)%nat by lia.
  pose proof (take_drop_block 6 _ _ _ Hlen
                (quad_blocks_lookup p (xIndex, yIndex) Hx Hy)) as Hb.
  cbn [fst snd] in Hb. unfold quad. rewrite Hb.
  rewrite (quad_block_exact p (xIndex, yIndex)) by done.
  cbn [fst snd fmap list_fmap]. unfold corner.
  replace (yIndex * uCount p + xIndex + uCount p + 1)
    with ((yIndex + 1) * uCount p + (xIndex + 1)) by lia.
  replace (yIndex * uCount p + xIndex + uCount p)
    with ((yIndex + 1) * uCount p + (xIndex + 0)) by lia.
  replace (yIndex * uCount p + xIndex + 1)
    with ((yIndex + 0) * uCount p + (xIndex + 1)) by lia.
  replace (yIndex * uCount p + xIndex)
    with ((yIndex + 0) * uCount p + (xIndex + 0)) by lia.
  by rewrite !sampling_call_lookup by lia.
Qed.

Lemma quad_corners_witness :
  ∃ (indices : list Z) (icalls : list event)
    (value : list number) (calls : list event),
    calculateIndices (example_props 3 3) = Normal (indices, icalls)
    ∧ calculatePositions (example_props 3 3) (3 * 3) 4
      = Normal (value, calls)
    ∧ (λ i, omap sampling_call calls !! Z.to_nat i)
        <$> take 6 (drop (Z.to_nat ((1 * (3 - 1) + 0) * 6)) indices)
      = [Some (vertex_u (example_props 3 3) (1 + 0),
               vertex_v (example_props 3 3) (0 + 0));
         Some (vertex_u (example_props 3 3) (1 + 0),
               vertex_v (example_props 3 3) (0 + 1));
         Some (vertex_u (example_props 3 3) (1 + 1),
               vertex_v (example_props 3 3) (0 + 0));
         Some (vertex_u (example_props 3 3) (1 + 1),
               vertex_v (example_props 3 3) (0 + 0));
         Some (vertex_u (example_props 3 3) (1 + 0),
               vertex_v (example_props 3 3) (0 + 1));
         Some (vertex_u (example_props 3 3) (1 + 1),
               vertex_v (example_props 3 3) (0 + 1))].
Proof.
  apply (quad_corners (example_props 3 3) 1 0); simpl; lia.
Defined.

(** ** Extents of a grid that is not empty *)

Lemma observed_extent_finite (values : list number) :
  values ≠ [] → Forall (λ x, isFinite x = true) values →
  isFinite (min (observed_extent values)) = true
  ∧ isFinite (max (observed_extent values)) = true
  ∧ num_le (min (observed_extent values)) (max (observed_extent values)).
Proof.
  intros Hne Hfin.
  destruct (observed_extent_is_extent values Hfin) as [Hle Hin].
  destruct (Hin Hne) as [Hmin Hmax].
  split_and!.
  - by apply (proj1 (Forall_forall _ _) Hfin).
  - by apply (proj1 (Forall_forall _ _) Hfin).
  - by apply (Hle _ Hmax).
Qed.

Lemma vertices_not_empty (p : props) :
  1 ≤ uCount p → 1 ≤ vCount p → vertices p ≠ [].
Proof.
  intros Hu Hv H. pose proof (vertices_length p ltac:(lia) ltac:(lia)) as Hl.
  rewrite H in Hl. simpl in Hl. nia.
Qed.

(** X16. The scale factories never see a value that is not finite.  On a grid
    with at least one vertex, whatever [getPosition] returns ([NaN] and
    infinities included), [getXScale], [getYScale] and [getZScale] are
    each called with an extent whose [min] and [max] are finite numbers
    with [min <= max]. *)
Theorem finite_extents (p : props) :
  1 ≤ uCount p → 1 ≤ vCount p →
  ∃ (value : list number) (calls : list event) (ex ey ez : extent),
    calculatePositions p (uCount p * vCount p) 4 = Normal (value, calls)
    ∧ omap scale_factory_call calls
      = [Call_getXScale ex; Call_getYScale ey; Call_getZScale ez]
    ∧ Forall (λ e, isFinite (min e) = true ∧ isFinite (max e) = true
                   ∧ num_le (min e) (max e))
        [ex; ey; ez].
Proof.
  intros Hu Hv. eexists _, _, _, _, _.
  split; [apply calculatePositions_spec; lia |].
  split.
  - rewrite !omap_app.
    rewrite (omap_none _ (sampling_calls p)).
    2:{ eapply Forall_impl; [apply sampling_calls_samples |]. by intros ? []. }
    rewrite (omap_none _ (mjoin _)); [reflexivity |].
    eapply Forall_impl; [apply rescale_calls_applications |].
    intros e He. by destruct e.
  - pose proof (vertices_not_empty p Hu Hv) as Hne.
    repeat apply Forall_cons_2; [..| apply Forall_nil_2];
      (apply observed_extent_finite;
       [by intros H%fmap_nil_inv
       | apply sanitized_finite; intros vu; by eexists]).
Qed.

Lemma finite_extents_witness :
  ∃ (value : list number) (calls : list event) (ex ey ez : extent),
    calculatePositions (pole_props 2 2) (2 * 2) 4 = Normal (value, calls)
    ∧ omap scale_factory_call calls
      = [Call_getXScale ex; Call_getYScale ey; Call_getZScale ez]
    ∧ Forall (λ e, isFinite (min e) = true ∧ isFinite (max e) = true
                   ∧ num_le (min e) (max e))
        [ex; ey; ez].
Proof.
  apply (finite_extents (pole_props 2 2)); simpl; lia.
Defined.

(** ** Picking, in doubles *)

Lemma Double_picking_block_length (p : props) (i : Z) :
  length (Double.picking_block p i) = 3%nat.
Proof.
  unfold Double.picking_block.
  by destruct (Double.encodePickingColor p (of_Z i)) as [[??]?].
Qed.

Lemma Double_calculatePickingColors_filled (p : props) (n : Z) :
  0 ≤ n →
  Double.calculatePickingColors p n 3
  = Normal (mjoin (Double.picking_block p <$> seqZ 0 n)).
Proof.
  intros Hn. unfold Double.calculatePickingColors, new_array.
  rewrite decide_False by lia. cbn [bind]. f_equal.
  set (init := replicate (Z.to_nat (n * 3)) 0).
  set (body := λ (value : list Z) (i : Z), _).
  assert (foldl body init (seqZ 0 n)
          = mjoin (Double.picking_block p <$> seqZ 0 n)
            ++ drop (length (seqZ 0 n) * 3) init) as ->.
  2:{ rewrite drop_ge, app_nil_r; [done |].
      unfold init. rewrite length_replicate, length_seqZ. lia. }
  apply (foldl_prefix_ind body
    (λ seen value, value = mjoin (Double.picking_block p <$> seen)
                           ++ drop (length seen * 3) init)).
  { done. }
  intros seen x rest value Hl ->.
  destruct (seqZ_split _ _ _ _ Hl) as [-> Hlt].
  rewrite fmap_app. simpl.
  replace (length (seen ++ [Z.of_nat (length seen)]))
    with (S (length seen)) by (rewrite length_app; simpl; lia).
  apply (fill_step 3 (length seen) (λ value, body value _)).
  - by rewrite length_fmap.
  - apply Forall_fmap, Forall_true. intros i.
    apply Double_picking_block_length.
  - unfold init. rewrite length_replicate. lia.
  - intros pre old post Hpre Hold. unfold body, Double.picking_block.
    destruct (Double.encodePickingColor p _) as [[c0 c1] c2].
    destruct_block old Hold.
    rewrite (array_set_app pre _ _ 0) by lia.
    rewrite (array_set_app pre _ _ 1) by lia.
    rewrite (array_set_app pre _ _ 2) by lia.
    done.
Qed.

Lemma nearest64_bounds (q : Qc) :
  in_double_range q → (0 ≤ q)%Qc →
  (q * (1 - / Qc_of_Z (2 ^ 53)) ≤ nearest64 q)%Qc
  ∧ (nearest64 q ≤ q * (1 + / Qc_of_Z (2 ^ 53)))%Qc.
Proof.
  intros [->|[Hlo Hhi]] Hq; [|by apply nearest64_error].
  rewrite nearest64_0, !Qcmult_0_l. done.
Qed.

Lemma ToUint8Clamp_near (c : Qc) :
  (0 ≤ c)%Qc → (c ≤ Q2Qc (511 # 2))%Qc →
  (Qc_of_Z (ToUint8Clamp (Fin c)) - Q2Qc (1 # 2) ≤ c)%Qc
  ∧ (c ≤ Qc_of_Z (ToUint8Clamp (Fin c)) + Q2Qc (1 # 2))%Qc.
Proof.
  intros Hlo Hhi. unfold ToUint8Clamp.
  destruct (decide (c ≤ 0)%Qc) as [H0|_].
  { assert (c = 0%Qc) as -> by (by apply Qcle_antisym). split; by_compute. }
  destruct (decide (Qc_of_Z 255 ≤ c)%Qc) as [H255|_];
    [|apply round_half_even_within].
  Qc_to_Q. change (inject_Z 255) with 255%Q in *. split; lra.
Qed.

Lemma byte_fraction_range (r : Z) :
  0 ≤ r ≤ 255 → in_double_range (Qc_of_Z r / Qc_of_Z 255).
Proof.
  intros Hr. destruct (decide (r = 0)) as [->|Hr0];
    [left; by_compute | right].
  destruct (unit_fraction_range r 255) as [_ Hhi]; [lia.. |]. split.
  - apply Qcle_trans with (Qc_of_Z 1 / Qc_of_Z 255)%Qc; [by_compute |].
    apply Qc_fraction_le; lia.
  - eapply Qcle_trans; [exact Hhi | by_compute].
Qed.

(** The quantisation of one coordinate, in doubles: the coordinate
    [x / N] of a grid line, and the coordinate that the byte stored for
    it decodes to. *)
Lemma double_quantisation (x N : Z) :
  0 ≤ x ≤ N → 1 ≤ N → N < 2 ^ 32 →
  ∃ a c u : Qc,
    Double.div (of_Z x) (of_Z N) = Fin a
    ∧ Double.mul (Fin a) (of_Z 255) = Fin c
    ∧ Double.div (of_Z (ToUint8Clamp (Fin c))) (of_Z 255) = Fin u
    ∧ (u - a ≤ Qc_of_Z 1 / Qc_of_Z 510 + / Qc_of_Z (2 ^ 51))%Qc
    ∧ (a - u ≤ Qc_of_Z 1 / Qc_of_Z 510 + / Qc_of_Z (2 ^ 51))%Qc.
Proof.
  intros Hx HN Hfit.
  destruct (round_trip_rounded nearest64 nearest64_0 nearest64_error
              x N Hx HN Hfit) as (R1 & R2 & _).
  destruct (unit_fraction_range x N Hx ltac:(lia)) as [Hq0 Hq1].
  rewrite Z2Qc_inj_0 in Hq0.
  set (q := (Qc_of_Z x / Qc_of_Z N)%Qc) in *.
  destruct (nearest64_bounds q R1 Hq0) as [Ha_lo Ha_hi].
  set (a := nearest64 q) in *.
  assert (0 ≤ a)%Qc as Ha0.
  { eapply Qcle_trans; [|exact Ha_lo].
    apply Qcmult_nonneg_nonneg; [done | by_compute]. }
  assert (0 ≤ a * Qc_of_Z 255)%Qc as Hac0
    by (by apply Qcmult_nonneg_nonneg).
  destruct (nearest64_bounds _ R2 Hac0) as [Hc_lo Hc_hi].
  set (c := nearest64 (a * Qc_of_Z 255)) in *.
  assert (0 ≤ c)%Qc as Hc0.
  { eapply Qcle_trans; [|exact Hc_lo].
    apply Qcmult_nonneg_nonneg; [done | by_compute]. }
  pose proof (ToUint8Clamp_range (Fin c)) as Hr.
  pose proof (byte_fraction_range _ Hr) as R3.
  assert (0 ≤ Qc_of_Z (ToUint8Clamp (Fin c)) / Qc_of_Z 255)%Qc as Hb0.
  { destruct (unit_fraction_range (ToUint8Clamp (Fin c)) 255) as [H _];
      [lia.. |]. by rewrite Z2Qc_inj_0 in H. }
  destruct (nearest64_bounds _ R3 Hb0) as [Hu_lo Hu_hi].
  assert (c ≤ Q2Qc (511 # 2))%Qc as Hc_max.
  { clear Hu_lo Hu_hi R3 Hb0 Hr.
    revert Hq1 Ha_hi Hc_hi. generalize q a c. clear. intros q a c.
    Qc_to_Q.
    change (/ inject_Z (2 ^ 53))%Q with (1 # 9007199254740992)%Q.
    change (inject_Z 255) with 255%Q. change (inject_Z 1) with 1%Q.
    intros. lra. }
  destruct (ToUint8Clamp_near c Hc0 Hc_max) as [Hr_lo Hr_hi].
  set (r := ToUint8Clamp (Fin c)) in *.
  set (u := nearest64 (Qc_of_Z r / Qc_of_Z 255)) in *.
  exists a, c, u. split_and!.
  - unfold Double.div. rewrite num_div_of_Z by lia. by apply fl64_in_range.
  - unfold Double.mul, of_Z. cbn [num_mul]. by apply fl64_in_range.
  - unfold Double.div. rewrite num_div_of_Z by lia. by apply fl64_in_range.
  - revert Hq0 Hq1 Ha_lo Ha_hi Hc_lo Hc_hi Hr_lo Hr_hi Hu_lo Hu_hi.
    generalize (Qc_of_Z r) q a c u. clear. intros r q a c u.
    change (Qc_of_Z 1 / Qc_of_Z 510)%Qc with (Q2Qc (1 # 510)).
    Qc_to_Q.
    change (/ inject_Z (2 ^ 53))%Q with (1 # 9007199254740992)%Q.
    change (/ inject_Z (2 ^ 51))%Q with (1 # 2251799813685248)%Q.
    change (/ inject_Z 255)%Q with (1 # 255)%Q.
    change (inject_Z 255) with 255%Q. change (inject_Z 1) with 1%Q.
    intros. lra.
  - revert Hq0 Hq1 Ha_lo Ha_hi Hc_lo Hc_hi Hr_lo Hr_hi Hu_lo Hu_hi.
    generalize (Qc_of_Z r) q a c u. clear. intros r q a c u.
    change (Qc_of_Z 1 / Qc_of_Z 510)%Qc with (Q2Qc (1 # 510)).
    Qc_to_Q.
    change (/ inject_Z (2 ^ 53))%Q with (1 # 9007199254740992)%Q.
    change (/ inject_Z (2 ^ 51))%Q with (1 # 2251799813685248)%Q.
    change (/ inject_Z 255)%Q with (1 # 255)%Q.
    change (inject_Z 255) with 255%Q. change (inject_Z 1) with 1%Q.
    intros. lra.
Qed.

Lemma Double_picking_value_block (p : props) (n i : Z) :
  0 ≤ i < n →
  take 3 (drop (Z.to_nat (i * 3))
            (mjoin (Double.picking_block p <$> seqZ 0 n)))
  = Double.picking_block p i.
Proof.
  intros Hi. replace (Z.to_nat (i * 3)) with (Z.to_nat i * 3)%nat by lia.
  apply take_drop_block.
  - apply Forall_fmap, Forall_true. intros j.
    apply Double_picking_block_length.
  - rewrite list_lookup_fmap, lookup_seqZ_lt by lia. simpl.
    do 2 f_equal. lia.
Qed.

(** X17. The point that a pick samples, in doubles.  On a grid with
    [uCount, vCount >= 2], at most [2^32] lines in each direction and at
    most [2^53] vertices, when the picked colour is the three bytes
    stored for the vertex [i], [getPickingInfo] samples the surface at
    [(r / 255, g / 255)], and each of these coordinates is within
    [1/510 + 2^-51] of the coordinate [uIndex / (uCount - 1)] or
    [vIndex / (vCount - 1)] of the vertex, every operation being rounded
    to the nearest double: the sample is taken next to the vertex, not
    always at it. *)
Theorem picked_sample_position (p : props) (i : Z)
    (old : option (number * number * number)) :
  2 ≤ uCount p ≤ 2 ^ 32 → 2 ≤ vCount p ≤ 2 ^ 32 →
  uCount p * vCount p ≤ 2 ^ 53 →
  0 ≤ i < uCount p * vCount p →
  ∃ (picking : list Z) (r g b : Z) (u v xu xv : Qc),
    Double.calculatePickingColors p (uCount p * vCount p) 3 = Normal picking
    ∧ take 3 (drop (Z.to_nat (i * 3)) picking) = [r; g; b]
    ∧ getPickingInfo p
        (Some {| index :=
                   Double.decodePickingColor (of_Z r, of_Z g, of_Z b);
                 sample := old |})
      = Normal (Some {| index := Index_uv (Fin u) (Fin v);
                        sample := Some (getPosition p (Fin u) (Fin v)) |},
                [Call_getPosition (Fin u) (Fin v)])
    ∧ Double.div (of_Z (uIndex_of p i))
        (Double.sub (of_Z (uCount p)) (of_Z 1)) = Fin xu
    ∧ Double.div (of_Z (vIndex_of p i))
        (Double.sub (of_Z (vCount p)) (of_Z 1)) = Fin xv
    ∧ (u - xu ≤ Qc_of_Z 1 / Qc_of_Z 510 + / Qc_of_Z (2 ^ 51))%Qc
    ∧ (xu - u ≤ Qc_of_Z 1 / Qc_of_Z 510 + / Qc_of_Z (2 ^ 51))%Qc
    ∧ (v - xv ≤ Qc_of_Z 1 / Qc_of_Z 510 + / Qc_of_Z (2 ^ 51))%Qc
    ∧ (xv - v ≤ Qc_of_Z 1 / Qc_of_Z 510 + / Qc_of_Z (2 ^ 51))%Qc.
Proof.
  intros Hu Hv H53 Hi.
  pose proof (Z.mod_pos_bound i (uCount p) ltac:(lia)) as Hx.
  fold (uIndex_of p i) in Hx.
  pose proof (vIndex_of_range p i ltac:(lia) Hi) as Hy.
  destruct (double_quantisation (uIndex_of p i) (uCount p - 1))
    as (xu & cu & u & Exu & Ecu & Eu & Hu1 & Hu2); [lia.. |].
  destruct (double_quantisation (vIndex_of p i) (vCount p - 1))
    as (xv & cv & v & Exv & Ecv & Ev & Hv1 & Hv2); [lia.. |].
  assert (uCount p < 2 ^ 53 ∧ vCount p < 2 ^ 53) as [Hu53 Hv53] by nia.
  eexists _, _, _, _, u, v, xu, xv.
  split; [apply Double_calculatePickingColors_filled; lia |].
  split.
  { rewrite Double_picking_value_block by lia.
    unfold Double.picking_block.
    rewrite Double_encodePickingColor_grid by lia.
    rewrite Exu, Ecu, Exv, Ecv. reflexivity. }
  split.
  { unfold Double.decodePickingColor.
    change (ToUint8Clamp (of_Z 1)) with 1.
    rewrite strict_eq_zero_one, Eu, Ev. reflexivity. }
  unfold Double.sub. rewrite !num_sub_of_Z, !fl64_of_Z by lia.
  by split_and!.
Qed.

Lemma picked_sample_position_witness :
  ∃ (picking : list Z) (r g b : Z) (u v xu xv : Qc),
    Double.calculatePickingColors (example_props 3 2) (3 * 2) 3
    = Normal picking
    ∧ take 3 (drop (Z.to_nat (4 * 3)) picking) = [r; g; b]
    ∧ getPickingInfo (example_props 3 2)
        (Some {| index :=
                   Double.decodePickingColor (of_Z r, of_Z g, of_Z b);
                 sample := None |})
      = Normal (Some {| index := Index_uv (Fin u) (Fin v);
                        sample := Some (getPosition (example_props 3 2)
                                          (Fin u) (Fin v)) |},
                [Call_getPosition (Fin u) (Fin v)])
    ∧ Double.div (of_Z (uIndex_of (example_props 3 2) 4))
        (Double.sub (of_Z 3) (of_Z 1)) = Fin xu
    ∧ Double.div (of_Z (vIndex_of (example_props 3 2) 4))
        (Double.sub (of_Z 2) (of_Z 1)) = Fin xv
    ∧ (u - xu ≤ Qc_of_Z 1 / Qc_of_Z 510 + / Qc_of_Z (2 ^ 51))%Qc
    ∧ (xu - u ≤ Qc_of_Z 1 / Qc_of_Z 510 + / Qc_of_Z (2 ^ 51))%Qc
    ∧ (v - xv ≤ Qc_of_Z 1 / Qc_of_Z 510 + / Qc_of_Z (2 ^ 51))%Qc
    ∧ (xv - v ≤ Qc_of_Z 1 / Qc_of_Z 510 + / Qc_of_Z (2 ^ 51))%Qc.
Proof.
  apply (picked_sample_position (example_props 3 2) 4 None); simpl; lia.
Defined.

(** One coordinate through [encodePickingColor] and [decodePickingColor],
    in doubles: scaling by 255 and back moves the coordinate [x / N] by
    two roundings. *)
Lemma double_scale_unscale (x N : Z) :
  0 ≤ x ≤ N → 1 ≤ N → N < 2 ^ 32 →
  ∃ a u : Qc,
    Double.div (of_Z x) (of_Z N) = Fin a
    ∧ Double.div (Double.mul (Fin a) (of_Z 255)) (of_Z 255) = Fin u
    ∧ (u - a ≤ / Qc_of_Z (2 ^ 51))%Qc
    ∧ (a - u ≤ / Qc_of_Z (2 ^ 51))%Qc.
Proof.
  intros Hx HN Hfit.
  destruct (round_trip_rounded nearest64 nearest64_0 nearest64_error
              x N Hx HN Hfit) as (R1 & R2 & R3 & _).
  destruct (unit_fraction_range x N Hx ltac:(lia)) as [Hq0 Hq1].
  rewrite Z2Qc_inj_0 in Hq0.
  set (q := (Qc_of_Z x / Qc_of_Z N)%Qc) in *.
  destruct (nearest64_bounds q R1 Hq0) as [Ha_lo Ha_hi].
  set (a := nearest64 q) in *.
  assert (0 ≤ a)%Qc as Ha0.
  { eapply Qcle_trans; [|exact Ha_lo].
    apply Qcmult_nonneg_nonneg; [done | by_compute]. }
  assert (0 ≤ a * Qc_of_Z 255)%Qc as Hac0
    by (by apply Qcmult_nonneg_nonneg).
  destruct (nearest64_bounds _ R2 Hac0) as [Hc_lo Hc_hi].
  set (c := nearest64 (a * Qc_of_Z 255)) in *.
  assert (0 ≤ c / Qc_of_Z 255)%Qc as Hc0.
  { apply Qcmult_nonneg_nonneg; [|by_compute].
    eapply Qcle_trans; [|exact Hc_lo].
    apply Qcmult_nonneg_nonneg; [done | by_compute]. }
  destruct (nearest64_bounds _ R3 Hc0) as [Hu_lo Hu_hi].
  set (u := nearest64 (c / Qc_of_Z 255)) in *.
  exists a, u. split_and!.
  - unfold Double.div. rewrite num_div_of_Z by lia. by apply fl64_in_range.
  - unfold Double.mul, of_Z at 1. cbn [num_mul].
    rewrite (fl64_in_range _ R2). fold c.
    unfold Double.div. rewrite num_div_Fin by done. by apply fl64_in_range.
  - revert Hq0 Hq1 Ha_lo Ha_hi Hc_lo Hc_hi Hu_lo Hu_hi.
    generalize q a c u. clear. intros q a c u.
    Qc_to_Q.
    change (/ inject_Z (2 ^ 53))%Q with (1 # 9007199254740992)%Q.
    change (/ inject_Z (2 ^ 51))%Q with (1 # 2251799813685248)%Q.
    change (/ inject_Z 255)%Q with (1 # 255)%Q.
    change (inject_Z 255) with 255%Q. change (inject_Z 1) with 1%Q.
    intros. lra.
  - revert Hq0 Hq1 Ha_lo Ha_hi Hc_lo Hc_hi Hu_lo Hu_hi.
    generalize q a c u. clear. intros q a c u.
    Qc_to_Q.
    change (/ inject_Z (2 ^ 53))%Q with (1 # 9007199254740992)%Q.
    change (/ inject_Z (2 ^ 51))%Q with (1 # 2251799813685248)%Q.
    change (/ inject_Z 255)%Q with (1 # 255)%Q.
    change (inject_Z 255) with 255%Q. change (inject_Z 1) with 1%Q.
    intros. lra.
Qed.

(** X1. Picking a vertex samples the surface next to that vertex.  On a
    grid with [uCount, vCount >= 2], at most [2^32] lines in each
    direction and at most [2^53] vertices, when the picked colour is the
    one that [encodePickingColor] gives for the vertex [i],
    [getPickingInfo] calls [getPosition] once and sets [info.sample] to
    its answer, whatever [info.sample] was.  The two arguments of the
    call are within [2^-51] of the coordinates [uIndex / (uCount - 1)]
    and [vIndex / (vCount - 1)] of the vertex, every operation being
    rounded to the nearest double; they need not be equal to them. *)
Theorem picked_vertex_sample (p : props) (i : Z)
    (old : option (number * number * number)) :
  2 ≤ uCount p ≤ 2 ^ 32 → 2 ≤ vCount p ≤ 2 ^ 32 →
  uCount p * vCount p ≤ 2 ^ 53 →
  0 ≤ i < uCount p * vCount p →
  ∃ u v xu xv : Qc,
    getPickingInfo p
      (Some {| index :=
                 Double.decodePickingColor
                   (Double.encodePickingColor p (of_Z i));
               sample := old |})
    = Normal (Some {| index := Index_uv (Fin u) (Fin v);
                      sample := Some (getPosition p (Fin u) (Fin v)) |},
              [Call_getPosition (Fin u) (Fin v)])
    ∧ Double.div (of_Z (uIndex_of p i))
        (Double.sub (of_Z (uCount p)) (of_Z 1)) = Fin xu
    ∧ Double.div (of_Z (vIndex_of p i))
        (Double.sub (of_Z (vCount p)) (of_Z 1)) = Fin xv
    ∧ (u - xu ≤ / Qc_of_Z (2 ^ 51))%Qc
    ∧ (xu - u ≤ / Qc_of_Z (2 ^ 51))%Qc
    ∧ (v - xv ≤ / Qc_of_Z (2 ^ 51))%Qc
    ∧ (xv - v ≤ / Qc_of_Z (2 ^ 51))%Qc.
Proof.
  intros Hu Hv H53 Hi.
  pose proof (Z.mod_pos_bound i (uCount p) ltac:(lia)) as Hx.
  fold (uIndex_of p i) in Hx.
  pose proof (vIndex_of_range p i ltac:(lia) Hi) as Hy.
  destruct (double_scale_unscale (uIndex_of p i) (uCount p - 1))
    as (xu & u & Exu & Eu & Hu1 & Hu2); [lia.. |].
  destruct (double_scale_unscale (vIndex_of p i) (vCount p - 1))
    as (xv & v & Exv & Ev & Hv1 & Hv2); [lia.. |].
  assert (uCount p < 2 ^ 53 ∧ vCount p < 2 ^ 53) as [Hu53 Hv53] by nia.
  exists u, v, xu, xv. split.
  { rewrite Double_encodePickingColor_grid by lia.
    unfold Double.decodePickingColor.
    rewrite strict_eq_zero_one, Exu, Exv, Eu, Ev. reflexivity. }
  unfold Double.sub. rewrite !num_sub_of_Z, !fl64_of_Z by lia.
  by split_and!.
Qed.

Lemma picked_vertex_sample_witness :
  ∃ u v xu xv : Qc,
    getPickingInfo (example_props 3 2)
      (Some {| index :=
                 Double.decodePickingColor
                   (Double.encodePickingColor (example_props 3 2) (of_Z 4));
               sample := None |})
    = Normal (Some {| index := Index_uv (Fin u) (Fin v);
                      sample := Some (getPosition (example_props 3 2)
                                        (Fin u) (Fin v)) |},
              [Call_getPosition (Fin u) (Fin v)])
    ∧ Double.div (of_Z (uIndex_of (example_props 3 2) 4))
        (Double.sub (of_Z 3) (of_Z 1)) = Fin xu
    ∧ Double.div (of_Z (vIndex_of (example_props 3 2) 4))
        (Double.sub (of_Z 2) (of_Z 1)) = Fin xv
    ∧ (u - xu ≤ / Qc_of_Z (2 ^ 51))%Qc
    ∧ (xu - u ≤ / Qc_of_Z (2 ^ 51))%Qc
    ∧ (v - xv ≤ / Qc_of_Z (2 ^ 51))%Qc
    ∧ (xv - v ≤ / Qc_of_Z (2 ^ 51))%Qc.
Proof.
  apply (picked_vertex_sample (example_props 3 2) 4 None); simpl; lia.
Defined.
